(** * Bulk code ingestion of AnginatAuthBackend

    A shallow embedding of the bulk-upload pipeline
    ([src/services/bulkUploadService.js]), of the job document
    ([src/models/bulkUploadJob.js]) and of the two controller actions that
    read and cancel a job ([cancelBulkUpload], [getBulkUploadStatus]),
    followed by the properties of the design document checked against them.

    Conventions of the embedding:
    - JavaScript counters are integers ([Z]); the percentage and the average
      speed are IEEE-754 doubles ([spec_float], binary64);
    - a string is a sequence of code units below 256 ([string]);
    - [null] and [undefined] are [None];
    - a JavaScript exception is the [Throw] completion and carries the
      [message] of the error object;
    - the mutable variables shared by the closures of one run (the job
      document, the [errors] array, the batch and the counters) live in an
      explicit state that survives a [Throw];
    - the code store (the [AuthCode] collection) is an interface, with one
      instance that enforces the unique index on [code] and one whose bulk
      insert fails;
    - a run works on the job document it has loaded; every [save] is
      recorded as an event with the paths it writes, and the stored record
      is obtained by replaying the events, so that a request of another
      client (a cancel) can be placed between two events;
    - the CSV parser is paused while a batch is written, so rows and
      batches follow one another in the order of the file;
    - saving the job document, sending a progress message and removing the
      file do not fail; the two readings of the clock are parameters. *)

From Stdlib Require Import ZArith SpecFloat Ascii String List Lia Permutation.
From stdpp Require Import base decidable option list gmap strings.

Local Open Scope Z_scope.

(** ** Completions *)

Inductive Completion (A : Type) : Type :=
| Return (a : A)
| Throw (message : string).
Arguments Return {A} a.
Arguments Throw {A} message.

(** ** JavaScript strings *)

Module JsString.

(** [WhiteSpace] and [LineTerminator] code units below 256:
    TAB, LF, VT, FF, CR, SP and NBSP. *)
Definition is_white (c : ascii) : bool :=
  let n := nat_of_ascii c in
  ((9 <=? n)%nat && (n <=? 13)%nat) || (n =? 32)%nat || (n =? 160)%nat.

Fixpoint trimStart (l : list ascii) : list ascii :=
  match l with
  | c :: l' => if is_white c then trimStart l' else l
  | [] => []
  end.

Definition trimEnd (l : list ascii) : list ascii :=
  rev (trimStart (rev l)).

(** [String.prototype.trim] *)
Definition trim (s : string) : string :=
  string_of_list_ascii (trimEnd (trimStart (list_ascii_of_string s))).

(** [s.length] *)
Definition length (s : string) : Z := Z.of_nat (String.length s).

(** [!s] is false exactly for the non-empty strings. *)
Definition nonempty (s : string) : bool :=
  match s with EmptyString => false | String _ _ => true end.

End JsString.

(** ** Rows *)

(** A parsed row is an object with string keys; a cell holds a string or
    [null].  The list gives the own properties in the order of
    [Object.values]. *)
Definition Cell := option string.
Definition Row := list (string * Cell).

(** Truthiness of a cell: [undefined], [null] and [''] are falsy. *)
Definition truthy (v : Cell) : bool :=
  match v with
  | Some s => JsString.nonempty s
  | None => false
  end.

(** [row[k]]: the first binding of [k], [undefined] when there is none. *)
Fixpoint prop (row : Row) (k : string) : Cell :=
  match row with
  | [] => None
  | (k', v) :: row' => if String.eqb k' k then v else prop row' k
  end.

(** [a || b] *)
Definition js_or (a b : Cell) : Cell := if truthy a then a else b.

(** [Object.values(row)[0]] *)
Definition firstValue (row : Row) : Cell :=
  match row with
  | [] => None
  | (_, v) :: _ => v
  end.

Definition codeAliases : list string :=
  ["code"; "Code"; "CODE"; "auth_code"; "authCode"; "AuthCode";
   "authentication_code"; "Authentication Code"].

(** The candidate selected by the chain of [||] in [extractCode]. *)
Definition candidate (row : Row) : Cell :=
  fold_right (fun k rest => js_or (prop row k) rest) (firstValue row) codeAliases.

Definition invalidLengthMessage : string :=
  "Code length must be between 3-100 characters".

Definition emptyCodeMessage : string := "Empty or missing code".

(** [extractCode(row)]: [Return None] is the [null] result. *)
Definition extractCode (row : Row) : Completion (option string) :=
  let code := candidate row in
  if negb (truthy code) then Return None
  else
    match code with
    | None => Return None
    | Some c =>
        let trimmed := JsString.trim c in
        if (JsString.length trimmed <? 3) || (100 <? JsString.length trimmed)
        then Throw invalidLengthMessage
        else Return (Some trimmed)
    end.

(** ** JavaScript numbers that are not integers *)

Module JsNumber.

Definition prec : Z := 53.
Definition emax : Z := 1024.

(** The double nearest to an integer (exact below 2^53). *)
Definition Num (z : Z) : spec_float := binary_normalize prec emax z 0 false.

Definition div (x y : spec_float) : spec_float := SFdiv prec emax x y.
Definition mul (x y : spec_float) : spec_float := SFmul prec emax x y.

(** [Math.round]: the nearest integer, ties towards +infinity; zeros,
    infinities and NaN are returned as they are, and a result of zero
    keeps the sign of the argument. *)
Definition Math_round (x : spec_float) : spec_float :=
  match x with
  | S754_finite s m e =>
      let v := if s then Z.neg m else Z.pos m in
      let r := if 0 <=? e then v * 2 ^ e
               else (2 * v + 2 ^ (- e)) / 2 ^ (- e + 1) in
      if r =? 0 then S754_zero s else Num r
  | _ => x
  end.

End JsNumber.

(** ** The job document ([models/bulkUploadJob.js]) *)

Inductive Status := Pending | Processing | Completed | Failed | Cancelled.

Definition statusName (s : Status) : string :=
  match s with
  | Pending => "pending"
  | Processing => "processing"
  | Completed => "completed"
  | Failed => "failed"
  | Cancelled => "cancelled"
  end.

Global Instance Status_eq_dec : EqDecision Status.
Proof. solve_decision. Defined.

Module ErrorEntry.
Record t := mk { row : Z; code : string; error : string }.
End ErrorEntry.

Module Progress.
Record t := mk {
  total : Z;
  processed : Z;
  successful : Z;
  failed : Z;
  duplicates : Z;
  percentage : spec_float
}.

(** The schema defaults. *)
Definition defaults : t := mk 0 0 0 0 0 (JsNumber.Num 0).

(** The object passed to [updateProgress]: the properties it owns. *)
Record update := mkUpdate {
  u_total : option Z;
  u_processed : option Z;
  u_successful : option Z;
  u_failed : option Z;
  u_duplicates : option Z
}.

(** [Object.assign(progress, update)] *)
Definition assign (p : t) (u : update) : t :=
  mk (default (total p) (u_total u))
     (default (processed p) (u_processed u))
     (default (successful p) (u_successful u))
     (default (failed p) (u_failed u))
     (default (duplicates p) (u_duplicates u))
     (percentage p).

Definition set_percentage (p : t) (x : spec_float) : t :=
  mk (total p) (processed p) (successful p) (failed p) (duplicates p) x.
End Progress.

Module Summary.
Record t := mk {
  startTime : option Z;
  endTime : option Z;
  duration : option Z;
  avgProcessingSpeed : option spec_float
}.
Definition empty : t := mk None None None None.
End Summary.

Module Job.
Record t := mk {
  jobId : string;
  userId : string;
  brandId : string;
  filename : string;
  fileType : string;
  status : Status;
  progress : Progress.t;
  errors : list ErrorEntry.t;
  summary : Summary.t;
  maxErrors : nat              (* metadata.maxErrors *)
}.

Definition set_status (j : t) (s : Status) : t :=
  mk (jobId j) (userId j) (brandId j) (filename j) (fileType j) s
     (progress j) (errors j) (summary j) (maxErrors j).
Definition set_progress (j : t) (p : Progress.t) : t :=
  mk (jobId j) (userId j) (brandId j) (filename j) (fileType j) (status j)
     p (errors j) (summary j) (maxErrors j).
Definition set_errors (j : t) (e : list ErrorEntry.t) : t :=
  mk (jobId j) (userId j) (brandId j) (filename j) (fileType j) (status j)
     (progress j) e (summary j) (maxErrors j).
Definition set_summary (j : t) (s : Summary.t) : t :=
  mk (jobId j) (userId j) (brandId j) (filename j) (fileType j) (status j)
     (progress j) (errors j) s (maxErrors j).

(** [BulkUploadJob.create({jobId, userId, brandId, filename, fileType,
    status: 'pending'})] with the schema defaults. *)
Definition create (jobId userId brandId filename fileType : string) : t :=
  mk jobId userId brandId filename fileType Pending Progress.defaults []
     Summary.empty 100.
End Job.

(** [Math.round((processed / total) * 100)] *)
Definition roundedPercentage (processed total : Z) : spec_float :=
  JsNumber.Math_round
    (JsNumber.mul (JsNumber.div (JsNumber.Num processed) (JsNumber.Num total))
                  (JsNumber.Num 100)).

(** [Object.assign(this.progress, update)] followed by the conditional
    assignment of [percentage]. *)
Definition updatedProgress (p : Progress.t) (u : Progress.update) : Progress.t :=
  let p := Progress.assign p u in
  if 0 <? Progress.total p
  then Progress.set_percentage p
         (roundedPercentage (Progress.processed p) (Progress.total p))
  else p.

(** The in-memory effect of [job.updateProgress(update)]; the [save] that
    follows is recorded by the caller as an event. *)
Definition updateProgress_doc (j : Job.t) (u : Progress.update) : Job.t :=
  Job.set_progress j (updatedProgress (Job.progress j) u).

(** The in-memory effect of [job.addError(error)], and whether it saved. *)
Definition addError_doc (j : Job.t) (e : ErrorEntry.t) : Job.t * bool :=
  if (length (Job.errors j) <? Job.maxErrors j)%nat
  then (Job.set_errors j (Job.errors j ++ [e]), true)
  else (j, false).

(** ** Persistence and notification events *)

(** The paths of the job document that the code assigns. *)
Inductive Path :=
| PStatus | PProgress | PErrors | PStartTime | PEndTime | PDuration | PAvgSpeed.

Global Instance Path_eq_dec : EqDecision Path.
Proof. solve_decision. Defined.

Module Payload.
(** The body of a [bulkUploadProgress] message. *)
Record t := mk {
  jobId : string;
  status : Status;
  progress : Progress.t;
  errors : list ErrorEntry.t
}.
End Payload.

Inductive Event :=
| EvSave (paths : list Path) (doc : Job.t)   (* [doc.save()] with these paths modified *)
| EvEmit (userId : string) (payload : Payload.t)
| EvUnlink (filePath : string).

(** [save] writes the modified paths of the document and leaves the other
    fields of the stored record as they are. *)
Definition writePath (doc : Job.t) (p : Path) (db : Job.t) : Job.t :=
  let s := Job.summary db in
  let d := Job.summary doc in
  match p with
  | PStatus => Job.set_status db (Job.status doc)
  | PProgress => Job.set_progress db (Job.progress doc)
  | PErrors => Job.set_errors db (Job.errors doc)
  | PStartTime =>
      Job.set_summary db (Summary.mk (Summary.startTime d) (Summary.endTime s)
                            (Summary.duration s) (Summary.avgProcessingSpeed s))
  | PEndTime =>
      Job.set_summary db (Summary.mk (Summary.startTime s) (Summary.endTime d)
                            (Summary.duration s) (Summary.avgProcessingSpeed s))
  | PDuration =>
      Job.set_summary db (Summary.mk (Summary.startTime s) (Summary.endTime s)
                            (Summary.duration d) (Summary.avgProcessingSpeed s))
  | PAvgSpeed =>
      Job.set_summary db (Summary.mk (Summary.startTime s) (Summary.endTime s)
                            (Summary.duration s) (Summary.avgProcessingSpeed d))
  end.

Definition save (paths : list Path) (doc db : Job.t) : Job.t :=
  fold_right (writePath doc) db paths.

Definition applyEvent (db : Job.t) (ev : Event) : Job.t :=
  match ev with
  | EvSave paths doc => save paths doc db
  | _ => db
  end.

(** The stored record after a sequence of events. *)
Definition replay (evs : list Event) (db : Job.t) : Job.t :=
  fold_left applyEvent evs db.

(** The stored record after each event in turn. *)
Fixpoint storedStates (evs : list Event) (db : Job.t) : list Job.t :=
  match evs with
  | [] => []
  | ev :: evs' => applyEvent db ev :: storedStates evs' (applyEvent db ev)
  end.

(** ** The code store ([AuthCode]) *)

Module CodeItem.
Record t := mk { code : string; rowNumber : Z }.
End CodeItem.

Module CodeDoc.
Record t := mk { code : string; brand : string; product : option string }.
End CodeDoc.

Module WriteError.
Record t := mk { index : nat; code : Z }.
End WriteError.

Module BulkError.
(** The error object a rejected [insertMany] throws. *)
Record t := mk {
  code : option Z;
  writeErrors : option (list WriteError.t);
  message : string
}.
End BulkError.

Inductive InsertOutcome :=
| Resolved (result : list CodeDoc.t)
| Rejected (error : BulkError.t).

(** What the pipeline asks of the store:
    [AuthCode.find({code: {$in: codeStrings}}).select('code')], giving the
    codes of the documents found, and
    [AuthCode.insertMany(docs, {ordered: false})]. *)
Class CodeStore (S : Type) := {
  find : S -> list string -> Completion (list string);
  insertMany : S -> list CodeDoc.t -> InsertOutcome * S
}.

Definition duplicateKey : Z := 11000.

(** ** The state of one run *)

Module Stats.
Record t := mk { processed : Z; successful : Z; failed : Z; duplicates : Z }.
End Stats.

Module Result.
Record t := mk {
  processed : Z;
  successful : Z;
  failed : Z;
  duplicates : Z;
  errors : list ErrorEntry.t
}.
End Result.

Section Pipeline.

Context {S : Type} `{CodeStore S}.

(** The store, the brand's [totalCodes] ([None] when the brand does not
    exist), the job document held by the run, the events so far, and the
    variables captured by the closures of [processCSV] and
    [processExcel]. *)
Record State := mkState {
  store : S;
  totalCodes : option Z;
  job : Job.t;
  events : list Event;
  codes : list CodeItem.t;
  errors : list ErrorEntry.t;
  rowNumber : Z;
  processedCount : Z;
  successfulCount : Z;
  failedCount : Z;
  duplicatesCount : Z
}.

Definition M (A : Type) : Type := State -> Completion A * State.

Definition ret {A} (a : A) : M A := fun st => (Return a, st).
Definition throw {A} (message : string) : M A := fun st => (Throw message, st).
Definition bind {A B} (m : M A) (k : A -> M B) : M B :=
  fun st =>
    match m st with
    | (Return a, st') => k a st'
    | (Throw e, st') => (Throw e, st')
    end.
(** [try { m } catch (error) { handler(error.message) }] *)
Definition tryCatch {A} (m : M A) (handler : string -> M A) : M A :=
  fun st =>
    match m st with
    | (Return a, st') => (Return a, st')
    | (Throw e, st') => handler e st'
    end.
Definition gets {A} (f : State -> A) : M A := fun st => (Return (f st), st).
Definition modify (f : State -> State) : M unit := fun st => (Return tt, f st).
Definition lift {A} (c : Completion A) : M A := fun st => (c, st).

Notation "x <- m ;; k" := (bind m (fun x => k))
  (at level 100, m at next level, right associativity).
Notation "m ;;; k" := (bind m (fun _ => k))
  (at level 100, right associativity).

Definition set_store (s : S) (st : State) : State :=
  mkState s (totalCodes st) (job st) (events st) (codes st) (errors st)
    (rowNumber st) (processedCount st) (successfulCount st) (failedCount st)
    (duplicatesCount st).
Definition set_totalCodes (n : option Z) (st : State) : State :=
  mkState (store st) n (job st) (events st) (codes st) (errors st)
    (rowNumber st) (processedCount st) (successfulCount st) (failedCount st)
    (duplicatesCount st).
Definition set_job (j : Job.t) (st : State) : State :=
  mkState (store st) (totalCodes st) j (events st) (codes st) (errors st)
    (rowNumber st) (processedCount st) (successfulCount st) (failedCount st)
    (duplicatesCount st).
Definition record (ev : Event) (st : State) : State :=
  mkState (store st) (totalCodes st) (job st) (events st ++ [ev]) (codes st)
    (errors st) (rowNumber st) (processedCount st) (successfulCount st)
    (failedCount st) (duplicatesCount st).
Definition set_codes (c : list CodeItem.t) (st : State) : State :=
  mkState (store st) (totalCodes st) (job st) (events st) c (errors st)
    (rowNumber st) (processedCount st) (successfulCount st) (failedCount st)
    (duplicatesCount st).
Definition set_errors (e : list ErrorEntry.t) (st : State) : State :=
  mkState (store st) (totalCodes st) (job st) (events st) (codes st) e
    (rowNumber st) (processedCount st) (successfulCount st) (failedCount st)
    (duplicatesCount st).
Definition set_rowNumber (n : Z) (st : State) : State :=
  mkState (store st) (totalCodes st) (job st) (events st) (codes st) (errors st)
    n (processedCount st) (successfulCount st) (failedCount st)
    (duplicatesCount st).
Definition set_failedCount (n : Z) (st : State) : State :=
  mkState (store st) (totalCodes st) (job st) (events st) (codes st) (errors st)
    (rowNumber st) (processedCount st) (successfulCount st) n
    (duplicatesCount st).
(** [processedCount += stats.processed; ...] *)
Definition addStats (s : Stats.t) (st : State) : State :=
  mkState (store st) (totalCodes st) (job st) (events st) (codes st) (errors st)
    (rowNumber st)
    (processedCount st + Stats.processed s)
    (successfulCount st + Stats.successful s)
    (failedCount st + Stats.failed s)
    (duplicatesCount st + Stats.duplicates s).
(** The declarations at the head of [processCSV] and [processExcel]. *)
Definition freshLocals (st : State) : State :=
  mkState (store st) (totalCodes st) (job st) (events st) [] [] 0 0 0 0 0.

(** The state in which a run starts. *)
Definition initState (s : S) (brand : option Z) (j : Job.t) : State :=
  mkState s brand j [] [] [] 0 0 0 0 0.

(** The parameters of [processBulkUpload] that every step receives. *)
Variable BATCH_SIZE : nat.
Variable MAX_ERRORS : nat.
Variable brandId : string.
Variable productId : option string.
Variable userId : string.
Variable io : bool.           (* is there a Socket.io server? *)

(** [emitProgress(io, userId, jobId, job)] *)
Definition emitProgress (jobId : string) : M unit :=
  if io then
    modify (fun st =>
      record (EvEmit userId
                (Payload.mk jobId (Job.status (job st)) (Job.progress (job st))
                   (take 10 (Job.errors (job st))))) st)
  else ret tt.

(** [job.updateProgress(update)] *)
Definition updateProgress (u : Progress.update) : M unit :=
  modify (fun st =>
    let j := updateProgress_doc (job st) u in
    record (EvSave [PProgress] j) (set_job j st)).

(** [job.save()] with the given paths modified. *)
Definition saveJob (paths : list Path) : M unit :=
  modify (fun st => record (EvSave paths (job st)) st).

(** [job.addError(error)]; [dirty] are the paths modified before the
    call, which its [save] writes too.  The result tells whether the
    error was stored. *)
Definition addError (dirty : list Path) (e : ErrorEntry.t) : M bool :=
  fun st =>
    let '(j, saved) := addError_doc (job st) e in
    if saved
    then (Return true, record (EvSave (dirty ++ [PErrors]) j) (set_job j st))
    else (Return false, st).

Definition pushError (e : ErrorEntry.t) : M unit :=
  modify (fun st => set_errors (errors st ++ [e]) st).

Definition duplicateError (item : CodeItem.t) : ErrorEntry.t :=
  ErrorEntry.mk (CodeItem.rowNumber item) (CodeItem.code item) "Duplicate code".

(** [if (productId) codeDoc.product = productId] *)
Definition codeDoc (item : CodeItem.t) : CodeDoc.t :=
  CodeDoc.mk (CodeItem.code item) brandId
    (if truthy productId then productId else None).

(** The loop "Filter duplicates" of [processBatch], on its three
    variables. *)
Fixpoint filterDuplicates (existingSet : gset string) (items : list CodeItem.t)
    (newCodes : list CodeDoc.t) (duplicates : Z) (errs : list ErrorEntry.t)
    : list CodeDoc.t * Z * list ErrorEntry.t :=
  match items with
  | [] => (newCodes, duplicates, errs)
  | item :: rest =>
      if bool_decide (CodeItem.code item ∈ existingSet)
      then filterDuplicates existingSet rest newCodes (duplicates + 1)
             (errs ++ [duplicateError item])
      else filterDuplicates existingSet rest (newCodes ++ [codeDoc item])
             duplicates errs
  end.

(** The inner [try]/[catch] around [insertMany]: the number of inserted
    documents and the number of duplicates to add. *)
Definition insertNewCodes (newCodes : list CodeDoc.t) : M (Z * Z) :=
  match newCodes with
  | [] => ret (0, 0)
  | _ =>
    fun st =>
      let '(outcome, s') := insertMany (store st) newCodes in
      let st' := set_store s' st in
      match outcome with
      | Resolved result => (Return (Z.of_nat (length result), 0), st')
      | Rejected e =>
          match BulkError.code e, BulkError.writeErrors e with
          | Some c, Some writeErrors =>
              if c =? duplicateKey
              then (Return (Z.of_nat (length newCodes) - Z.of_nat (length writeErrors),
                            Z.of_nat (length writeErrors)), st')
              else (Throw (BulkError.message e), st')
          | _, _ => (Throw (BulkError.message e), st')
          end
      end
  end.

Definition batchErrorMessage (m : string) : string :=
  "Batch processing error: " +:+ m.

(** [processBatch(codes, brandId, productId, job, errors, io, userId)] *)
Definition processBatch (batch : list CodeItem.t) : M Stats.t :=
  tryCatch
    (let codeStrings := map CodeItem.code batch in
     existingCodes <- (fun st => (find (store st) codeStrings, st)) ;;
     let existingSet : gset string := list_to_set existingCodes in
     errs <- gets errors ;;
     let '(newCodes, duplicates, errs') :=
       filterDuplicates existingSet batch [] 0 errs in
     modify (set_errors errs') ;;;
     ins <- insertNewCodes newCodes ;;
     let insertedCount := fst ins in
     let duplicates := duplicates + snd ins in
     let processed := Z.of_nat (length batch) in
     let successful := insertedCount in
     let failed := Z.of_nat (length batch) - insertedCount - duplicates in
     p <- gets (fun st => Job.progress (job st)) ;;
     updateProgress
       (Progress.mkUpdate None
          (Some (Progress.processed p + processed))
          (Some (Progress.successful p + successful))
          (Some (Progress.failed p + failed))
          (Some (Progress.duplicates p + duplicates))) ;;;
     jobId <- gets (fun st => Job.jobId (job st)) ;;
     emitProgress jobId ;;;
     ret (Stats.mk processed successful failed duplicates))
    (fun m => throw (batchErrorMessage m)).

(** *** The delimited-text strategy *)

Definition incFailed : M unit :=
  modify (fun st => set_failedCount (failedCount st + 1) st).

Definition pushCode (c : string) (n : Z) : M unit :=
  modify (fun st => set_codes (codes st ++ [CodeItem.mk c n]) st).

(** The part of a row handler shared by the two strategies:
    [const code = this.extractCode(row); if (!code) {...} else {...}]. *)
Definition intake (row : Row) (n : Z) : M unit :=
  code <- lift (extractCode row) ;;
  match code with
  | Some c =>
      if JsString.nonempty c then pushCode c n
      else (pushError (ErrorEntry.mk n "" emptyCodeMessage) ;;; incFailed)
  | None => pushError (ErrorEntry.mk n "" emptyCodeMessage) ;;; incFailed
  end.

(** [processBatch(codes, ...)] followed by the additions to the local
    counters and [codes.length = 0]. *)
Definition flush : M unit :=
  cs <- gets codes ;;
  stats <- processBatch cs ;;
  modify (addStats stats) ;;;
  modify (set_codes []).

(** The handler of the parser's ['data'] event.  The [try] block covers
    the extraction and the test of the batch size; the flush it starts
    completes outside it, and its rejection rejects the whole run. *)
Definition onData (row : Row) : M unit :=
  modify (fun st => set_rowNumber (rowNumber st + 1) st) ;;;
  full <- tryCatch
    (n <- gets rowNumber ;;
     intake row n ;;;
     cs <- gets codes ;;
     ret (BATCH_SIZE <=? length cs)%nat)
    (fun m =>
       n <- gets rowNumber ;;
       pushError (ErrorEntry.mk n "" m) ;;;
       incFailed ;;;
       ret false) ;;
  if full then flush else ret tt.

Fixpoint forEach {A} (f : A -> M unit) (l : list A) : M unit :=
  match l with
  | [] => ret tt
  | a :: l' => f a ;;; forEach f l'
  end.

Definition currentResult : M Result.t :=
  gets (fun st =>
    Result.mk (processedCount st) (successfulCount st) (failedCount st)
      (duplicatesCount st) (take MAX_ERRORS (errors st))).

(** The handler of the parser's ['end'] event. *)
Definition onEnd : M Result.t :=
  cs <- gets codes ;;
  (if (0 <? length cs)%nat
   then (stats <- processBatch cs ;; modify (addStats stats))
   else ret tt) ;;;
  currentResult.

(** What reading and parsing the uploaded file gives: the rows, or the
    rows delivered before the reader or the parser fails. *)
Inductive ParsedFile :=
| Parsed (rows : list Row)
| ParseError (rows : list Row) (message : string).

(** [processCSV(filePath, brandId, productId, job, io, userId)] *)
Definition processCSV (file : ParsedFile) : M Result.t :=
  modify freshLocals ;;;
  match file with
  | Parsed rows => forEach onData rows ;;; onEnd
  | ParseError rows message => forEach onData rows ;;; throw message
  end.

(** *** The spreadsheet strategy *)

(** One iteration of the [for] loop over [rows], of length [n]. *)
Definition excelRow (n : nat) (i : nat) (row : Row) : M unit :=
  let rowNumber := Z.of_nat i + 2 in
  tryCatch
    (intake row rowNumber ;;;
     cs <- gets codes ;;
     if (BATCH_SIZE <=? length cs)%nat || (Z.of_nat i =? Z.of_nat n - 1)
     then flush else ret tt)
    (fun m => pushError (ErrorEntry.mk rowNumber "" m) ;;; incFailed).

Fixpoint excelLoop (n i : nat) (rows : list Row) : M unit :=
  match rows with
  | [] => ret tt
  | row :: rows' => excelRow n i row ;;; excelLoop n (Datatypes.S i) rows'
  end.

Definition excelErrorMessage (m : string) : string :=
  "Excel processing error: " +:+ m.

(** [processExcel(filePath, brandId, productId, job, io, userId)] *)
Definition processExcel (file : ParsedFile) : M Result.t :=
  tryCatch
    (match file with
     | ParseError _ message => throw message
     | Parsed rows =>
         updateProgress
           (Progress.mkUpdate (Some (Z.of_nat (length rows))) None None None None) ;;;
         jobId <- gets (fun st => Job.jobId (job st)) ;;
         emitProgress jobId ;;;
         modify freshLocals ;;;
         excelLoop (length rows) 0 rows ;;;
         currentResult
     end)
    (fun m => throw (excelErrorMessage m)).

(** *** The orchestrator *)

(** [fs.existsSync(filePath)] and [fs.unlinkSync(filePath)]; a failure is
    logged and goes no further. *)
Definition cleanupFile (filePath : string) : M unit :=
  modify (record (EvUnlink filePath)).

Definition systemError (m : string) : ErrorEntry.t :=
  ErrorEntry.mk 0 "SYSTEM_ERROR" m.

(** [endTime - startTime] on two dates, in milliseconds. *)
Definition elapsed (startTime endTime : option Z) : option Z :=
  match startTime, endTime with
  | Some a, Some b => Some (b - a)
  | _, _ => None
  end.

(** [Math.round(processed / (duration / 1000))] *)
Definition averageSpeed (processed duration : Z) : spec_float :=
  JsNumber.Math_round
    (JsNumber.div (JsNumber.Num processed)
       (JsNumber.div (JsNumber.Num duration) (JsNumber.Num 1000))).

Definition markProcessing (now : Z) (j : Job.t) : Job.t :=
  let s := Job.summary j in
  Job.set_summary (Job.set_status j Processing)
    (Summary.mk (Some now) (Summary.endTime s) (Summary.duration s)
       (Summary.avgProcessingSpeed s)).

(** The start time has been set by [markProcessing] when the job
    completes, so the duration is defined. *)
Definition markCompleted (now : Z) (r : Result.t) (j : Job.t) : Job.t :=
  let s := Job.summary j in
  let d := elapsed (Summary.startTime s) (Some now) in
  Job.set_summary (Job.set_status j Completed)
    (Summary.mk (Summary.startTime s) (Some now) d
       (Some (averageSpeed (Result.processed r) (default 0 d)))).

Definition markFailed (now : Z) (j : Job.t) : Job.t :=
  let s := Job.summary j in
  Job.set_summary (Job.set_status j Failed)
    (Summary.mk (Summary.startTime s) (Some now)
       (match Summary.startTime s with
        | Some _ => elapsed (Summary.startTime s) (Some now)
        | None => Summary.duration s
        end)
       (Summary.avgProcessingSpeed s)).

(** [Brand.findByIdAndUpdate(brandId, {$inc: {totalCodes: n}})] *)
Definition incTotalCodes (n : Z) : M unit :=
  modify (fun st => set_totalCodes ((fun t => t + n) <$> totalCodes st) st).

(** The body of [processBulkUpload] once the job has been found: the
    [try] block and its [catch].  [startTime] and [endTime] are the two
    readings of the clock. *)
Definition runJob (jobId filePath fileType : string) (file : ParsedFile)
    (startTime endTime : Z) : M Result.t :=
  tryCatch
    (modify (fun st => set_job (markProcessing startTime (job st)) st) ;;;
     saveJob [PStatus; PStartTime] ;;;
     emitProgress jobId ;;;
     brand <- gets totalCodes ;;
     match brand with
     | None => throw "Brand not found"
     | Some _ =>
         result <- (if String.eqb fileType "csv" then processCSV file
                    else if String.eqb fileType "xlsx" then processExcel file
                    else throw "Unsupported file type") ;;
         incTotalCodes (Result.successful result) ;;;
         modify (fun st => set_job (markCompleted endTime result (job st)) st) ;;;
         saveJob [PStatus; PEndTime; PDuration; PAvgSpeed] ;;;
         emitProgress jobId ;;;
         cleanupFile filePath ;;;
         ret result
     end)
    (fun m =>
       modify (fun st => set_job (markFailed endTime (job st)) st) ;;;
       dirty <- gets (fun st =>
                  match Summary.startTime (Job.summary (job st)) with
                  | Some _ => [PStatus; PEndTime; PDuration]
                  | None => [PStatus; PEndTime]
                  end) ;;
       saved <- addError dirty (systemError m) ;;
       saveJob (if saved then [] else dirty) ;;;
       emitProgress jobId ;;;
       cleanupFile filePath ;;;
       throw m).

Record Outcome := mkOutcome {
  out_result : Completion Result.t;
  out_job : option Job.t;
  out_store : S;
  out_totalCodes : option Z;
  out_events : list Event
}.

(** [processBulkUpload({jobId, filePath, fileType, brandId, productId,
    userId, io})]; [found] is what [BulkUploadJob.findOne({jobId})]
    returns. *)
Definition processBulkUpload (jobId filePath fileType : string)
    (found : option Job.t) (file : ParsedFile) (startTime endTime : Z)
    (s : S) (brand : option Z) : Outcome :=
  match found with
  | None => mkOutcome (Throw "Job not found") None s brand [EvUnlink filePath]
  | Some j =>
      let '(r, st) := runJob jobId filePath fileType file startTime endTime
                        (initState s brand j) in
      mkOutcome r (Some (job st)) (store st) (totalCodes st) (events st)
  end.

End Pipeline.

(** ** A store that enforces the unique index on [code] *)

Module UniqueStore.

Definition duplicateMessage : string := "E11000 duplicate key error".

(** One document of an unordered bulk insert. *)
Definition insertOne (acc : gset string * list WriteError.t)
    (d : nat * CodeDoc.t) : gset string * list WriteError.t :=
  let '(s, errs) := acc in
  if bool_decide (CodeDoc.code d.2 ∈ s)
  then (s, errs ++ [WriteError.mk d.1 duplicateKey])
  else ({[CodeDoc.code d.2]} ∪ s, errs).

Section Order.

(** The order in which the server takes the documents of an unordered
    insert. *)
Variable order : list (nat * CodeDoc.t) -> list (nat * CodeDoc.t).

Definition insertDocs (s : gset string) (docs : list CodeDoc.t)
    : InsertOutcome * gset string :=
  let '(s', errs) := fold_left insertOne (order (imap pair docs)) (s, []) in
  match errs with
  | [] => (Resolved docs, s')
  | e :: _ =>
      (Rejected (BulkError.mk (Some (WriteError.code e)) (Some errs)
                   duplicateMessage), s')
  end.

Definition findCodes (s : gset string) (codeStrings : list string)
    : Completion (list string) :=
  Return (elements (s ∩ list_to_set codeStrings)).

Definition instance : CodeStore (gset string) :=
  {| find := findCodes; insertMany := insertDocs |}.

End Order.

End UniqueStore.

(** ** A store whose bulk insert fails for another reason

    Every unordered insert is refused with one write error that is not a
    duplicate key (a document that fails validation, code 121), and
    nothing is inserted. *)

Module FaultyStore.

Definition validationFailure : Z := 121.

Definition failureMessage : string := "Document failed validation".

Definition insertDocs (s : gset string) (docs : list CodeDoc.t)
    : InsertOutcome * gset string :=
  (Rejected (BulkError.mk (Some validationFailure)
               (Some [WriteError.mk 0 validationFailure]) failureMessage),
   s).

Definition instance : CodeStore (gset string) :=
  {| find := UniqueStore.findCodes; insertMany := insertDocs |}.

End FaultyStore.

(** ** The controller actions on a job ([codeController]) *)

Module Response.
Record t (A : Type) := mk {
  statusCode : nat;
  success : bool;
  message : option string;
  data : option A
}.
Arguments mk {A}.
Arguments statusCode {A}.
Arguments success {A}.
Arguments message {A}.
Arguments data {A}.
End Response.

(** [exports.cancelBulkUpload]: the response, and the stored record after
    the request.  [found] is the stored record of [req.params.jobId],
    [reqUser] is [req.user._id] and [now] the reading of the clock. *)
Definition cancelBulkUpload (found : option Job.t) (reqUser : string) (now : Z)
    : Response.t Job.t * option Job.t :=
  match found with
  | None => (Response.mk 404 false (Some "Job not found") None, None)
  | Some job =>
      if negb (String.eqb (Job.userId job) reqUser)
      then (Response.mk 403 false (Some "Access denied") None, Some job)
      else if negb (bool_decide (Job.status job ∈ [Pending; Processing]))
      then (Response.mk 400 false
              (Some ("Cannot cancel " +:+ statusName (Job.status job) +:+ " job"))
              None,
            Some job)
      else
        let s := Job.summary job in
        let job' :=
          Job.set_summary (Job.set_status job Cancelled)
            (Summary.mk (Summary.startTime s) (Some now)
               (match Summary.startTime s with
                | Some a => Some (now - a)
                | None => Summary.duration s
                end)
               (Summary.avgProcessingSpeed s)) in
        (Response.mk 200 true (Some "Job cancelled successfully") (Some job'),
         Some (save [PStatus; PEndTime; PDuration] job' job))
  end.

Module StatusView.
Record t := mk {
  jobId : string;
  status : Status;
  filename : string;
  fileType : string;
  brand : string;
  progress : Progress.t;
  errors : list ErrorEntry.t;
  summary : Summary.t
}.
End StatusView.

(** [exports.getBulkUploadStatus] *)
Definition getBulkUploadStatus (found : option Job.t) (reqUser : string)
    : Response.t StatusView.t :=
  match found with
  | None => Response.mk 404 false (Some "Job not found") None
  | Some job =>
      if negb (String.eqb (Job.userId job) reqUser)
      then Response.mk 403 false (Some "Access denied") None
      else
        Response.mk 200 true None
          (Some (StatusView.mk (Job.jobId job) (Job.status job)
                   (Job.filename job) (Job.fileType job) (Job.brandId job)
                   (Job.progress job) (take 50 (Job.errors job))
                   (Job.summary job)))
  end.

(** ** Predicates used in the statements *)

(** The accepted lengths of a trimmed code. *)
Definition validLength (t : string) : Prop :=
  3 <= JsString.length t <= 100.

(** A row fails at extraction with [msg]: [extractCode] returns [null],
    reported as [emptyCodeMessage], or throws [msg]. *)
Definition extractionFails (row : Row) (msg : string) : Prop :=
  (extractCode row = Return None /\ msg = emptyCodeMessage)
  \/ extractCode row = Throw msg.

(** The state after the ['data'] handler has dropped row number
    [rowNumber st + 1] with the error [msg]. *)
Definition rowDropped {S : Type} (msg : string) (st : @State S) : @State S :=
  set_failedCount (failedCount st + 1)
    (set_errors (errors st ++ [ErrorEntry.mk (rowNumber st + 1) "" msg])
       (set_rowNumber (rowNumber st + 1) st)).

(** The response of a cancel request that is refused for the status of the
    job. *)
Definition cannotCancel (s : Status) : Response.t Job.t :=
  Response.mk 400 false (Some ("Cannot cancel " +:+ statusName s +:+ " job")) None.

(** The update of the stored counters that [processBatch] asks for, from
    the counters it has read and the statistics of the batch. *)
Definition batchUpdate (p : Progress.t) (s : Stats.t) : Progress.update :=
  Progress.mkUpdate None
    (Some (Progress.processed p + Stats.processed s))
    (Some (Progress.successful p + Stats.successful s))
    (Some (Progress.failed p + Stats.failed s))
    (Some (Progress.duplicates p + Stats.duplicates s)).

(** The events of one flush: the save of the counters and, with a
    Socket.io server, the progress message. *)
Definition flushEvents (userId : string) (io : bool) (j : Job.t) : list Event :=
  EvSave [PProgress] j
  :: (if io
      then [EvEmit userId
              (Payload.mk (Job.jobId j) (Job.status j) (Job.progress j)
                 (take 10 (Job.errors j)))]
      else []).

(** The variables of a run that [processBatch] does not assign. *)
Definition sameLocals {S : Type} (st st' : @State S) : Prop :=
  totalCodes st' = totalCodes st
  /\ codes st' = codes st
  /\ rowNumber st' = rowNumber st
  /\ processedCount st' = processedCount st
  /\ successfulCount st' = successfulCount st
  /\ failedCount st' = failedCount st
  /\ duplicatesCount st' = duplicatesCount st.

(** The body of the progress message sent for a document. *)
Definition payloadOf (jobId : string) (j : Job.t) : Payload.t :=
  Payload.mk jobId (Job.status j) (Job.progress j) (take 10 (Job.errors j)).

(** Every document an event saves or reports satisfies [E]. *)
Definition eventDoc (E : Job.t -> Prop) (ev : Event) : Prop :=
  match ev with
  | EvSave _ doc => E doc
  | EvEmit _ payload => exists jobId doc, E doc /\ payload = payloadOf jobId doc
  | EvUnlink _ => True
  end.

(** [K] holds of the document of the run and [E] of every document saved
    or reported so far. *)
Definition Inv {S : Type} (K E : Job.t -> Prop) (st : @State S) : Prop :=
  K (job st) /\ Forall (eventDoc E) (events st).

(** A step keeps [I], whether it returns or throws. *)
Definition preserves {S : Type} {A : Type} (I : @State S -> Prop) (m : @M S A)
    : Prop :=
  forall st, I st -> I (m st).2.

(** The update [{ total: n }] of [processExcel]. *)
Definition totalUpdate (n : Z) : Progress.update :=
  Progress.mkUpdate (Some n) None None None None.

(** A change of the variables of the closures only. *)
Definition localOnly {S : Type} (f : @State S -> @State S) : Prop :=
  forall st, job (f st) = job st /\ events (f st) = events st.

(** From a state in [P], a step ends in a state in [Q], whether it returns
    or throws. *)
Definition leads {S : Type} {A : Type} (P : @State S -> Prop) (m : @M S A)
    (Q : @State S -> Prop) : Prop :=
  forall st, P st -> Q (m st).2.

(** The counters add up. *)
Definition balanced (p : Progress.t) : Prop :=
  Progress.processed p
  = Progress.successful p + Progress.failed p + Progress.duplicates p.

(** The percentage is the one computed from the counters. *)
Definition percentageCurrent (p : Progress.t) : Prop :=
  Progress.percentage p
  = if 0 <? Progress.total p
    then roundedPercentage (Progress.processed p) (Progress.total p)
    else JsNumber.Num 0.

(** The total and the percentage are those of a new job. *)
Definition totalUnset (p : Progress.t) : Prop :=
  Progress.total p = 0 /\ Progress.percentage p = JsNumber.Num 0.

(** A list of errors without any row-level entry: empty, or the single
    row-0 system error. *)
Definition noRowErrors (l : list ErrorEntry.t) : Prop :=
  l = [] \/ exists m, l = [systemError m].

(** The progress messages among the events. *)
Definition reported (P : Payload.t -> Prop) (ev : Event) : Prop :=
  match ev with
  | EvEmit _ payload => P payload
  | _ => True
  end.

Section RunStages.

Context {S : Type} `{CodeStore S}.
Variables (BATCH_SIZE MAX_ERRORS : nat) (brandId : string)
          (productId : option string) (userId : string) (io : bool).
Variables (jobId filePath fileType : string).

(** The state after the job has been marked as processing, saved and
    reported. *)
Definition started (startTime : Z) (st : @State S) : @State S :=
  (bind (modify (fun st => set_job (markProcessing startTime (job st)) st))
     (fun _ => bind (saveJob [PStatus; PStartTime])
                 (fun _ => emitProgress userId io jobId)) st).2.

(** The state after a strategy has returned [res]: the brand's total
    raised, the job completed, saved and reported, the file removed. *)
Definition finished (endTime : Z) (res : Result.t) (st : @State S) : @State S :=
  (bind (incTotalCodes (Result.successful res))
     (fun _ =>
      bind (modify (fun st => set_job (markCompleted endTime res (job st)) st))
        (fun _ =>
         bind (saveJob [PStatus; PEndTime; PDuration; PAvgSpeed])
           (fun _ =>
            bind (emitProgress userId io jobId)
              (fun _ => cleanupFile filePath)))) st).2.

(** The state after the [catch] handler has dealt with the error [m]. *)
Definition aborted (endTime : Z) (m : string) (st : @State S) : @State S :=
  (bind (modify (fun st => set_job (markFailed endTime (job st)) st))
     (fun _ =>
      bind (gets (fun st =>
              match Summary.startTime (Job.summary (job st)) with
              | Some _ => [PStatus; PEndTime; PDuration]
              | None => [PStatus; PEndTime]
              end))
        (fun dirty =>
         bind (addError dirty (systemError m))
           (fun saved =>
            bind (saveJob (if saved then [] else dirty))
              (fun _ =>
               bind (emitProgress userId io jobId)
                 (fun _ => cleanupFile filePath))))) st).2.

(** The dispatch on the kind of file. *)
Definition strategy (file : ParsedFile) : @M S Result.t :=
  if String.eqb fileType "csv"
  then processCSV BATCH_SIZE MAX_ERRORS brandId productId userId io file
  else if String.eqb fileType "xlsx"
       then processExcel BATCH_SIZE MAX_ERRORS brandId productId userId io file
       else throw "Unsupported file type".

End RunStages.

(** The row yields a code for the batch. *)
Definition accepted (row : Row) : bool :=
  match extractCode row with
  | Return (Some c) => JsString.nonempty c
  | _ => false
  end.

(** The codes that the rows yield, in order. *)
Definition acceptedCodes (rows : list Row) : list string :=
  omap (fun row => match extractCode row with
                   | Return (Some c) => if JsString.nonempty c then Some c else None
                   | _ => None
                   end) rows.

(** The number of rows that fail at extraction. *)
Definition droppedRows (rows : list Row) : Z :=
  Z.of_nat (length (filter (fun row => accepted row = false) rows)).

(** The state after the [try] block of the ['data'] handler, or its
    [catch] clause, has dealt with a row. *)
Definition afterIntake {S : Type} (row : Row) (st : @State S) : @State S :=
  match extractCode row with
  | Return (Some c) =>
      if JsString.nonempty c
      then set_codes (codes st ++ [CodeItem.mk c (rowNumber st + 1)])
             (set_rowNumber (rowNumber st + 1) st)
      else rowDropped emptyCodeMessage st
  | Return None => rowDropped emptyCodeMessage st
  | Throw m => rowDropped m st
  end.

(** Whether the ['data'] handler then flushes the batch. *)
Definition flushDue {S : Type} (BATCH_SIZE : nat) (row : Row) (st : @State S)
    : bool :=
  match extractCode row with
  | Return _ => (BATCH_SIZE <=? length (codes (afterIntake row st)))%nat
  | Throw _ => false
  end.

(** How far the counters of the closures are ahead of the counters of the
    job document. *)
Definition ahead {S : Type} (st : @State S) : Stats.t :=
  let p := Job.progress (job st) in
  Stats.mk (processedCount st - Progress.processed p)
    (successfulCount st - Progress.successful p)
    (failedCount st - Progress.failed p)
    (duplicatesCount st - Progress.duplicates p).

Definition plusFailed (k : Z) (s : Stats.t) : Stats.t :=
  Stats.mk (Stats.processed s) (Stats.successful s) (Stats.failed s + k)
    (Stats.duplicates s).

(** ** A concrete setting

    The store with the unique index taking the documents in the order
    given, a job as [bulkUpload] creates it, and a file with one column
    headed "code". *)
Module Scenario.

Definition store : CodeStore (gset string) := UniqueStore.instance (fun l => l).

Definition newJob (fileType : string) : Job.t :=
  Job.create "job-1" "user-1" "brand-1" "codes" fileType.

Definition file (cells : list string) : ParsedFile :=
  Parsed (map (fun c => [("code", Some c)]) cells).

(** A run of [processBulkUpload] on a new job, with the defaults of the
    service but for the batch size, an empty store and a brand without
    codes. *)
Definition run (BATCH_SIZE : nat) (fileType : string) (cells : list string)
    : @Outcome (gset string) :=
  @processBulkUpload _ store BATCH_SIZE 100 "brand-1" None "user-1" true
    "job-1" "/uploads/codes" fileType (Some (newJob fileType)) (file cells)
    1000 3000 ∅ (Some 0).

(** The same run against the store whose bulk insert fails. *)
Definition faultyRun (BATCH_SIZE : nat) (fileType : string)
    (cells : list string) : @Outcome (gset string) :=
  @processBulkUpload _ FaultyStore.instance BATCH_SIZE 100 "brand-1" None
    "user-1" true "job-1" "/uploads/codes" fileType (Some (newJob fileType))
    (file cells) 1000 3000 ∅ (Some 0).

(** The stored record at the end of a run when a cancel request of the
    owner is served after the first [n] events of the run. *)
Definition cancelledAfter (n : nat) (fileType : string) (o : @Outcome (gset string))
    : option Job.t :=
  (fun db => replay (drop n (out_events o)) db)
  <$> (cancelBulkUpload (Some (replay (take n (out_events o)) (newJob fileType)))
         "user-1" 2000).2.

End Scenario.

(** A write error for a duplicate key. *)
Definition isDuplicateError (e : WriteError.t) : Prop :=
  WriteError.code e = duplicateKey.

(** The codes of a batch. *)
Definition batchCodes (batch : list CodeItem.t) : list string :=
  map CodeItem.code batch.

(** From [st] to [st'] the run has taken in the codes [cs] and dropped
    [k] rows, against the store with the unique index: the store and the
    batch under construction hold the codes taken in, the successes are
    the growth of the store, and every other code submitted is a
    duplicate. *)
Definition Progressed (st st' : @State (gset string)) (cs : list string) (k : Z)
    : Prop :=
  store st' ∪ list_to_set (batchCodes (codes st'))
  = store st ∪ list_to_set (batchCodes (codes st)) ∪ list_to_set cs
  /\ processedCount st' + Z.of_nat (length (codes st'))
     = processedCount st + Z.of_nat (length (codes st)) + Z.of_nat (length cs)
  /\ successfulCount st' - successfulCount st
     = Z.of_nat (size (store st')) - Z.of_nat (size (store st))
  /\ duplicatesCount st' - duplicatesCount st
     = (processedCount st' - processedCount st)
       - (successfulCount st' - successfulCount st)
  /\ failedCount st' = failedCount st + k.

(** The bulk error is the one [processBatch] takes for duplicate keys:
    [error.code === 11000 && error.writeErrors]. *)
Definition duplicateKeyError (e : BulkError.t) : Prop :=
  BulkError.code e = Some duplicateKey /\ is_Some (BulkError.writeErrors e).

(** The documents [processBatch] sends to [insertMany] and the number of
    entries it has found in the store, for the codes [existing] that the
    query returns. *)
Definition newDocs (brandId : string) (productId : option string)
    (existing : list string) (batch : list CodeItem.t) : list CodeDoc.t :=
  map (codeDoc brandId productId)
    (filter (fun it => CodeItem.code it ∉ (list_to_set existing : gset string)) batch).

Definition foundInStore (existing : list string) (batch : list CodeItem.t) : Z :=
  Z.of_nat
    (length (filter (fun it => CodeItem.code it ∈ (list_to_set existing : gset string))
               batch)).

(** A save that writes the status. *)
Definition savesStatus (ev : Event) : Prop :=
  match ev with
  | EvSave paths _ => PStatus ∈ paths
  | _ => False
  end.

(** From [st] to [st'] no batch has been flushed: the store, the job
    document, the events and the counters that only a flush raises are
    the same. *)
Definition noFlush {S : Type} (st st' : @State S) : Prop :=
  store st' = store st /\ totalCodes st' = totalCodes st
  /\ job st' = job st /\ events st' = events st
  /\ processedCount st' = processedCount st
  /\ successfulCount st' = successfulCount st
  /\ duplicatesCount st' = duplicatesCount st.

(** The state in which the loop of [processExcel] starts: the total is
    stored and reported, the variables of the closure are fresh. *)
Definition excelStart {S : Type} (userId : string) (io : bool) (rows : list Row)
    (st : @State S) : @State S :=
  freshLocals
    (bind (updateProgress (totalUpdate (Z.of_nat (length rows))))
       (fun _ => bind (gets (fun st => Job.jobId (job st)))
                   (fun jobId => emitProgress userId io jobId)) st).2.

(** The result that [processCSV] and [processExcel] build from the
    variables of the closure. *)
Definition resultOf {S : Type} (MAX_ERRORS : nat) (st : @State S) : Result.t :=
  Result.mk (processedCount st) (successfulCount st) (failedCount st)
    (duplicatesCount st) (take MAX_ERRORS (errors st)).

(** ** Predicates used in the further properties *)

(** A change of the variables of the closures only: the store, the brand,
    the job document and the events are left alone. *)
Definition closureOnly {S : Type} (f : @State S -> @State S) : Prop :=
  forall st,
    store (f st) = store st /\ totalCodes (f st) = totalCodes st
    /\ job (f st) = job st /\ events (f st) = events st.

Definition isUnlink (ev : Event) : bool :=
  match ev with EvUnlink _ => true | _ => false end.

Definition isEmit (ev : Event) : bool :=
  match ev with EvEmit _ _ => true | _ => false end.

(** Two documents that differ in their counters at most. *)
Definition sameButProgress (j1 j2 : Job.t) : Prop :=
  Job.set_progress j2 (Job.progress j1) = j1.

(** While a strategy runs on the job loaded as [j0] and started as [j1]:
    the stored record is the document of the run, which differs from
    [j1] in its counters at most; the brand is as it was; the file has
    not been removed. *)
Definition Steady {S : Type} (j0 j1 : Job.t) (brand : option Z) (st : @State S)
    : Prop :=
  replay (events st) j0 = job st
  /\ sameButProgress j1 (job st)
  /\ totalCodes st = brand
  /\ Forall (fun ev => isUnlink ev = false) (events st).

(** The events that end a run after its last save of the document [j]:
    the progress message, with a Socket.io server, and the removal of
    the file. *)
Definition closingEvents (userId : string) (io : bool) (jobId filePath : string)
    (j : Job.t) : list Event :=
  (if io then [EvEmit userId (payloadOf jobId j)] else []) ++ [EvUnlink filePath].

(** The paths that the [catch] handler of [processBulkUpload] has
    assigned when it calls [addError]. *)
Definition failurePaths (j : Job.t) : list Path :=
  match Summary.startTime (Job.summary j) with
  | Some _ => [PStatus; PEndTime; PDuration]
  | None => [PStatus; PEndTime]
  end.

(** The state after the loop of [processExcel] has dropped the row
    numbered [n] with the error [msg]. *)
Definition excelDropped {S : Type} (n : Z) (msg : string) (st : @State S)
    : @State S :=
  set_failedCount (failedCount st + 1)
    (set_errors (errors st ++ [ErrorEntry.mk n "" msg]) st).

(** The state after the loop of [processExcel] has taken in the row of
    index [i], before the test of the flush. *)
Definition afterExcelIntake {S : Type} (i : nat) (row : Row) (st : @State S)
    : @State S :=
  match extractCode row with
  | Return (Some c) =>
      if JsString.nonempty c
      then set_codes (codes st ++ [CodeItem.mk c (Z.of_nat i + 2)]) st
      else excelDropped (Z.of_nat i + 2) emptyCodeMessage st
  | Return None => excelDropped (Z.of_nat i + 2) emptyCodeMessage st
  | Throw m => excelDropped (Z.of_nat i + 2) m st
  end.

(** Whether the loop of [processExcel] flushes the batch at the row of
    index [i] out of [n]: never when the extraction has thrown. *)
Definition excelFlushDue {S : Type} (BATCH_SIZE n i : nat) (row : Row)
    (st : @State S) : bool :=
  match extractCode row with
  | Return _ =>
      (BATCH_SIZE <=? length (codes (afterExcelIntake i row st)))%nat
      || (Z.of_nat i =? Z.of_nat n - 1)
  | Throw _ => false
  end.

(** The last row of the file, when there is one, does not throw at
    extraction. *)
Definition lastRowReturns (rows : list Row) : Prop :=
  forall row m, last rows = Some row -> extractCode row <> Throw m.

(** [Steady], and every stored state so far has the status processing. *)
Definition Running {S : Type} (j0 j1 : Job.t) (brand : option Z) (st : @State S)
    : Prop :=
  Steady j0 j1 brand st
  /\ Forall (fun d => Job.status d = Processing) (storedStates (events st) j0).

(** The events but for the progress messages. *)
Definition silent (evs : list Event) : list Event :=
  filter (fun ev => isEmit ev = false) evs.

(** A state of a run as it is when no progress message is recorded. *)
Definition quiet {S : Type} (st : @State S) : @State S :=
  mkState (store st) (totalCodes st) (job st) (silent (events st)) (codes st)
    (errors st) (rowNumber st) (processedCount st) (successfulCount st)
    (failedCount st) (duplicatesCount st).

(** [m0] does what [m1] does, but for the progress messages. *)
Definition Sim {S : Type} {A : Type} (m1 m0 : @M S A) : Prop :=
  forall st, m0 (quiet st) = ((m1 st).1, quiet (m1 st).2).

(** Every progress message among [evs] goes to the room of [userId] and
    is the message for the record that is stored when it is sent; [db]
    is the record stored before [evs]. *)
Fixpoint reportsStored (userId : string) (db : Job.t) (evs : list Event) : Prop :=
  match evs with
  | [] => True
  | ev :: evs' =>
      match ev with
      | EvEmit uid payload => uid = userId /\ exists id, payload = payloadOf id db
      | _ => True
      end
      /\ reportsStored userId (applyEvent db ev) evs'
  end.

(** [Steady], and every message so far has reported the stored record. *)
Definition Reporting {S : Type} (userId : string) (j0 j1 : Job.t)
    (brand : option Z) (st : @State S) : Prop :=
  Steady j0 j1 brand st /\ reportsStored userId j0 (events st).

(** ** The upload actions ([codeController])

    The two actions that receive a file: [bulkUpload], which creates the
    job and starts [processBulkUpload] in the background, and the
    synchronous [uploadCodes] kept for small delimited-text files.  What
    the environment answers is given to the action: the file stored by
    the upload middleware, the result of [Brand.findById], the rows the
    parser delivers.  The stored file is there when the action starts. *)

From Stdlib Require Import DecimalString.

(** [String.prototype.endsWith] *)
Definition endsWith (s suffix : string) : bool :=
  let n := String.length s in
  let k := String.length suffix in
  (k <=? n)%nat && String.eqb (String.substring (n - k) k s) suffix.

(** A count in a template literal. *)
Definition showCount (n : nat) : string :=
  NilZero.string_of_uint (Nat.to_uint n).

Module UploadedFile.
(** [req.file] *)
Record t := mk { path : string; mimetype : string; originalname : string }.
End UploadedFile.

Module Upload.

Module Started.
(** [{ jobId, status: 'pending' }] *)
Record t := mk { jobId : string; status : Status }.
End Started.

Module Options.
(** The options [bulkUpload] passes to [processBulkUpload], but for
    the Socket.io server. *)
Record t := mk {
  jobId : string;
  filePath : string;
  fileType : string;
  brandId : string;
  productId : option string;
  userId : string
}.
End Options.

Record Outcome := mkOutcome {
  response : Response.t Started.t;
  created : option Job.t;            (* the job document inserted *)
  scheduled : option Options.t;      (* the run started with [setImmediate] *)
  fileRemoved : bool                 (* the stored file has been removed *)
}.

Definition refuse (statusCode : nat) (m : string) (fileRemoved : bool) : Outcome :=
  mkOutcome (Response.mk statusCode false (Some m) None) None None fileRemoved.

(** The kind of file, from [req.file.mimetype] and
    [req.file.originalname]. *)
Definition fileTypeOf (file : UploadedFile.t) : string :=
  if String.eqb (UploadedFile.mimetype file) "text/csv"
     || endsWith (UploadedFile.originalname file) ".csv"
  then "csv" else "xlsx".

(** [exports.bulkUpload].  [file] is [req.file], [brandId] and
    [productId] are the fields of [req.body], [reqUser] is
    [req.user._id], [brand] what [Brand.findById(brandId)] gives (the
    brand's [totalCodes], [null], or an error), [jobId] the identifier
    drawn by [uuidv4()], and [createError] the error of
    [BulkUploadJob.create], if any. *)
Definition bulkUpload (file : option UploadedFile.t) (brandId productId : Cell)
    (reqUser : string) (brand : Completion (option Z)) (jobId : string)
    (createError : option string) : Outcome :=
  match file with
  | None => refuse 400 "Please upload a file" false
  | Some f =>
      match brandId with
      | Some b =>
          if negb (JsString.nonempty b) then refuse 400 "Brand ID is required" true
          else
            match brand with
            | Throw m => refuse 500 m true
            | Return None => refuse 404 "Brand not found" true
            | Return (Some _) =>
                let fileType := fileTypeOf f in
                match createError with
                | Some m => refuse 500 m true
                | None =>
                    mkOutcome
                      (Response.mk 202 true
                         (Some "Upload started. Processing in background.")
                         (Some (Started.mk jobId Pending)))
                      (Some (Job.create jobId reqUser b
                               (UploadedFile.originalname f) fileType))
                      (Some (Options.mk jobId (UploadedFile.path f) fileType b
                               (if truthy productId then productId else None)
                               reqUser))
                      false
                end
            end
      | None => refuse 400 "Brand ID is required" true
      end
  end.

End Upload.

(** The run that [bulkUpload] has scheduled, on the stored record [found]
    of its job. *)
Definition scheduledRun {S : Type} `{CodeStore S} (BATCH_SIZE MAX_ERRORS : nat)
    (io : bool) (opts : Upload.Options.t) (found : option Job.t)
    (file : ParsedFile) (startTime endTime : Z) (s : S) (brand : option Z)
    : @Outcome S :=
  processBulkUpload BATCH_SIZE MAX_ERRORS (Upload.Options.brandId opts)
    (Upload.Options.productId opts) (Upload.Options.userId opts) io
    (Upload.Options.jobId opts) (Upload.Options.filePath opts)
    (Upload.Options.fileType opts) found file startTime endTime s brand.

Module Legacy.

(** The columns tried by [uploadCodes], in order. *)
Definition codeAliases : list string :=
  ["code"; "Code"; "CODE"; "auth_code"; "authCode"; "AuthCode";
   "authentication_code"].

(** The candidate selected by the chain of [||] in [uploadCodes]. *)
Definition candidate (row : Row) : Cell :=
  fold_right (fun k rest => js_or (prop row k) rest) (firstValue row) codeAliases.

(** [code && code.trim()], and the code pushed when it is truthy. *)
Definition extract (row : Row) : option string :=
  match candidate row with
  | Some c =>
      if JsString.nonempty c && JsString.nonempty (JsString.trim c)
      then Some (JsString.trim c) else None
  | None => None
  end.

Module RowError.
Record t := mk { row : Z; error : string }.
End RowError.

(** The loop [for await (const row of parser)] on its three
    variables. *)
Fixpoint readRows (rows : list Row) (rowNumber : Z) (codes : list string)
    (errors : list RowError.t) : list string * list RowError.t :=
  match rows with
  | [] => (codes, errors)
  | row :: rest =>
      let rowNumber := rowNumber + 1 in
      match extract row with
      | Some code => readRows rest rowNumber (codes ++ [code]) errors
      | None =>
          readRows rest rowNumber codes
            (errors ++ [RowError.mk rowNumber emptyCodeMessage])
      end
  end.

Module Counts.
Record t := mk { total : Z; inserted : Z; duplicates : Z; errors : Z }.
End Counts.

Module Reply.
(** The body of the response, with the properties that are present. *)
Record t := mk {
  statusCode : nat;
  success : bool;
  message : string;
  data : option Counts.t;
  duplicates : option (list string);
  errors : option (list RowError.t)
}.
End Reply.

Definition refuse (statusCode : nat) (m : string) : Reply.t :=
  Reply.mk statusCode false m None None None.

Section Action.

Context {S : Type} `{CodeStore S}.

Record Outcome := mkOutcome {
  reply : Reply.t;
  storeAfter : S;
  brandIncrement : option Z;   (* [$inc: { totalCodes: n }], when sent *)
  fileRemoved : bool
}.

Definition addedReply (codes duplicates : list string)
    (errors : list RowError.t) (insertedCount : nat) : Reply.t :=
  Reply.mk 201 true (showCount insertedCount +:+ " codes added successfully")
    (Some (Counts.mk (Z.of_nat (length codes)) (Z.of_nat insertedCount)
             (Z.of_nat (length duplicates)) (Z.of_nat (length errors))))
    (Some (take 10 duplicates)) (Some (take 10 errors)).

(** The part of [uploadCodes] that follows the reading of the file:
    the check that there are codes, the query for the codes that
    exist, the insertion of the others and the response. *)
Definition storeCodes (b : string) (codes : list string)
    (errors : list RowError.t) (s : S) : Outcome :=
  match codes with
  | [] =>
      mkOutcome
        (Reply.mk 400 false "No valid codes found in CSV" None None (Some errors))
        s None true
  | _ =>
      match find s codes with
      | Throw m => mkOutcome (refuse 500 m) s None true
      | Return existingCodes =>
          let existingSet : gset string := list_to_set existingCodes in
          let newCodes := filter (fun c => c ∉ existingSet) codes in
          let duplicates := filter (fun c => c ∈ existingSet) codes in
          match newCodes with
          | [] => mkOutcome (addedReply codes duplicates errors 0) s None true
          | _ =>
              let codeDocs := map (fun c => CodeDoc.mk c b None) newCodes in
              match insertMany s codeDocs with
              | (Resolved result, s') =>
                  mkOutcome
                    (addedReply codes duplicates errors (length result))
                    s' (Some (Z.of_nat (length result))) true
              | (Rejected e, s') =>
                  mkOutcome (refuse 500 (BulkError.message e)) s' None true
              end
          end
      end
  end.

(** [exports.uploadCodes]; [parsed] is what the parser delivers for
    the stored file. *)
Definition uploadCodes (file : option UploadedFile.t) (brandId : Cell)
    (brand : Completion (option Z)) (parsed : ParsedFile) (s : S) : Outcome :=
  match file with
  | None => mkOutcome (refuse 400 "Please upload a CSV file") s None false
  | Some _ =>
      match brandId with
      | None => mkOutcome (refuse 400 "Brand ID is required") s None true
      | Some b =>
          if negb (JsString.nonempty b)
          then mkOutcome (refuse 400 "Brand ID is required") s None true
          else
            match brand, parsed with
            | Throw m, _ => mkOutcome (refuse 500 m) s None true
            | Return None, _ => mkOutcome (refuse 404 "Brand not found") s None true
            | Return (Some _), ParseError _ m => mkOutcome (refuse 500 m) s None true
            | Return (Some _), Parsed rows =>
                let '(codes, errors) := readRows rows 0 [] [] in
                storeCodes b codes errors s
            end
      end
  end.

End Action.

End Legacy.

(** * Properties *)

(** ** Extraction *)

Lemma trimStart_spec (l : list ascii) :
  exists ws, l = ws ++ JsString.trimStart l
             /\ Forall (fun c => JsString.is_white c = true) ws
             /\ (forall c, head (JsString.trimStart l) = Some c -> JsString.is_white c = false).
Proof.
  induction l as [|c l IH]; simpl.
  - exists []. repeat split; [constructor | discriminate].
  - destruct (JsString.is_white c) eqn:Hc.
    + destruct IH as (ws & Heq & Hws & Hhd).
      exists (c :: ws). repeat split.
      * simpl. congruence.
      * constructor; assumption.
      * exact Hhd.
    + exists []. repeat split; [constructor |].
      simpl. intros c' [= <-]. exact Hc.
Qed.

(** [trim] removes a run of white space at each end, and what is left
    neither starts nor ends with white space. *)
Lemma trim_spec (s : string) :
  exists l r,
    list_ascii_of_string s = l ++ list_ascii_of_string (JsString.trim s) ++ r
    /\ Forall (fun c => JsString.is_white c = true) l
    /\ Forall (fun c => JsString.is_white c = true) r
    /\ (forall c, head (list_ascii_of_string (JsString.trim s)) = Some c ->
                  JsString.is_white c = false)
    /\ (forall c, last (list_ascii_of_string (JsString.trim s)) = Some c ->
                  JsString.is_white c = false).
Proof.
  unfold JsString.trim. rewrite list_ascii_of_string_of_list_ascii.
  set (cs := list_ascii_of_string s).
  destruct (trimStart_spec cs) as (l & Hl & Hwl & Hhd).
  set (m := JsString.trimStart cs) in *.
  destruct (trimStart_spec (rev m)) as (r & Hr & Hwr & Hlast).
  unfold JsString.trimEnd.
  set (k := JsString.trimStart (rev m)) in *.
  assert (Hm : m = rev k ++ rev r).
  { rewrite <- rev_app_distr, <- Hr, rev_involutive. reflexivity. }
  exists l, (rev r). repeat split.
  - rewrite Hl at 1. rewrite Hm. reflexivity.
  - exact Hwl.
  - apply Forall_rev. exact Hwr.
  - intros c Hc. apply Hhd. rewrite Hm.
    clearbody k. destruct (rev k); [discriminate | exact Hc].
  - intros c Hc. apply Hlast.
    clearbody k. destruct k as [|a k']; [discriminate|].
    simpl in Hc. rewrite last_snoc in Hc. exact Hc.
Qed.

Lemma nonempty_false (c : string) : JsString.nonempty c = false <-> c = "".
Proof. destruct c; simpl; split; intros; congruence. Qed.

Lemma truthy_false (v : Cell) : truthy v = false <-> v = None \/ v = Some "".
Proof.
  destruct v as [c|]; simpl.
  - rewrite nonempty_false. split.
    + intros ->. right. reflexivity.
    + intros [?|[= ->]]; [discriminate | reflexivity].
  - split; auto.
Qed.

(** The three outcomes of [extractCode], by the selected candidate. *)
Lemma extractCode_cases (row : Row) :
  match candidate row with
  | None => extractCode row = Return None
  | Some c =>
      if JsString.nonempty c then
        if (JsString.length (JsString.trim c) <? 3)
           || (100 <? JsString.length (JsString.trim c))
        then extractCode row = Throw invalidLengthMessage
        else extractCode row = Return (Some (JsString.trim c))
      else extractCode row = Return None
  end.
Proof.
  unfold extractCode. destruct (candidate row) as [c|]; simpl; [|reflexivity].
  destruct (JsString.nonempty c); simpl; [|reflexivity].
  destruct (_ || _); reflexivity.
Qed.

Lemma lengthTest_false (t : string) :
  (JsString.length t <? 3) || (100 <? JsString.length t) = false <-> validLength t.
Proof.
  unfold validLength. rewrite orb_false_iff, !Z.ltb_ge. lia.
Qed.

Lemma extractCode_null (row : Row) :
  extractCode row = Return None <-> candidate row = None \/ candidate row = Some "".
Proof.
  pose proof (extractCode_cases row) as H.
  destruct (candidate row) as [c|]; [|split; auto].
  destruct (JsString.nonempty c) eqn:Hc.
  - destruct (_ || _); rewrite H; split; try discriminate;
      intros [?|[= ->]]; discriminate.
  - apply nonempty_false in Hc as ->. split; auto.
Qed.

Lemma extractCode_throw (row : Row) (m : string) :
  extractCode row = Throw m <->
  m = invalidLengthMessage /\
  exists c, candidate row = Some c /\ c <> "" /\ ~ validLength (JsString.trim c).
Proof.
  pose proof (extractCode_cases row) as H.
  destruct (candidate row) as [c|].
  - destruct (JsString.nonempty c) eqn:Hc.
    + destruct (_ || _) eqn:Hlen; rewrite H.
      * split.
        -- intros [= <-]. split; [reflexivity|]. exists c. repeat split.
           ++ intros ->. discriminate.
           ++ rewrite <- lengthTest_false. congruence.
        -- intros [-> _]. reflexivity.
      * split; [discriminate|].
        intros [_ (c' & [= <-] & _ & Hbad)]. apply lengthTest_false in Hlen. tauto.
    + rewrite H. split; [discriminate|].
      intros [_ (c' & [= <-] & Hne & _)]. apply nonempty_false in Hc. tauto.
  - rewrite H. split; [discriminate|]. intros [_ (c' & ? & _)]. discriminate.
Qed.

Lemma extractCode_code (row : Row) (t : string) :
  extractCode row = Return (Some t) <->
  exists c, candidate row = Some c /\ c <> "" /\ t = JsString.trim c /\ validLength t.
Proof.
  pose proof (extractCode_cases row) as H.
  destruct (candidate row) as [c|].
  - destruct (JsString.nonempty c) eqn:Hc.
    + destruct (_ || _) eqn:Hlen; rewrite H.
      * split; [discriminate|].
        intros (c' & [= <-] & _ & -> & Hv). apply lengthTest_false in Hv. congruence.
      * split.
        -- intros [= <-]. exists c. repeat split; try reflexivity.
           ++ intros ->. discriminate.
           ++ apply lengthTest_false in Hlen. apply Hlen.
           ++ apply lengthTest_false in Hlen. apply Hlen.
        -- intros (c' & [= <-] & _ & -> & _). reflexivity.
    + rewrite H. split; [discriminate|].
      intros (c' & [= <-] & Hne & _). apply nonempty_false in Hc. tauto.
  - rewrite H. split; [discriminate|]. intros (c' & ? & _). discriminate.
Qed.

Section RowFailure.

Context {S : Type} `{CodeStore S}.
Variables (BATCH_SIZE : nat) (brandId : string) (productId : option string)
          (userId : string) (io : bool).

(** A row that fails at extraction leaves the batch, the store, the job
    and the events as they are: the ['data'] handler records the error
    under the row's number and counts one failure. *)
Lemma onData_drops_row (row : Row) (msg : string) (st : State) :
  extractionFails row msg ->
  (length (codes st) < BATCH_SIZE)%nat ->
  onData BATCH_SIZE brandId productId userId io row st
  = (Return tt, rowDropped msg st).
Proof.
  intros Hfail Hlen.
  assert (Hleb : (BATCH_SIZE <=? length (codes st))%nat = false)
    by (apply Nat.leb_gt; exact Hlen).
  unfold onData, bind, modify, tryCatch, gets, intake, lift, ret.
  destruct Hfail as [[Hnull ->] | Hthrow].
  - rewrite Hnull. cbn. rewrite Hleb. reflexivity.
  - rewrite Hthrow. cbn. reflexivity.
Qed.

(** C6 (amended): [extractCode] returns [null] exactly when the selected
    candidate is missing or the empty string before trimming; any other
    candidate is trimmed, and the call throws the length error exactly
    when the trimmed length is outside [3,100] and returns the trimmed
    candidate otherwise.  In the delimited-text strategy either failure
    is recorded as one error under the row's number, counts one failure
    and drops the row, and the batch under construction, the store and
    the job are left as they were. *)
Theorem extraction_outcomes (row : Row) (st : State) :
  (extractCode row = Return None
   <-> candidate row = None \/ candidate row = Some "")
  /\ (forall m, extractCode row = Throw m
      <-> m = invalidLengthMessage
          /\ exists c, candidate row = Some c /\ c <> ""
                       /\ ~ validLength (JsString.trim c))
  /\ (forall t, extractCode row = Return (Some t)
      <-> exists c, candidate row = Some c /\ c <> ""
                    /\ t = JsString.trim c /\ validLength t)
  /\ (forall msg, extractionFails row msg ->
        (length (codes st) < BATCH_SIZE)%nat ->
        onData BATCH_SIZE brandId productId userId io row st
        = (Return tt, rowDropped msg st)).
Proof.
  split; [apply extractCode_null|].
  split; [intros m; apply extractCode_throw|].
  split; [intros t; apply extractCode_code|].
  intros msg. apply onData_drops_row.
Qed.

End RowFailure.

(** The length boundaries: two and 101 characters are refused, three and
    100 are accepted. *)
Example extractCode_boundaries :
  extractCode [("code", Some "ab")] = Throw invalidLengthMessage
  /\ extractCode [("code", Some "abc")] = Return (Some "abc")
  /\ (forall s, String.length s = 100%nat -> JsString.trim s = s ->
        extractCode [("code", Some s)] = Return (Some s))
  /\ (forall s, String.length s = 101%nat -> JsString.trim s = s ->
        extractCode [("code", Some s)] = Throw invalidLengthMessage).
Proof.
  split; [reflexivity|]. split; [reflexivity|]. split.
  - intros s Hlen Htrim. destruct s as [|a s']; [discriminate|].
    apply extractCode_code. exists (String a s').
    split; [reflexivity|]. split; [discriminate|]. split; [congruence|].
    unfold validLength, JsString.length. rewrite Hlen. lia.
  - intros s Hlen Htrim. destruct s as [|a s']; [discriminate|].
    apply extractCode_throw. split; [reflexivity|].
    exists (String a s').
    split; [reflexivity|]. split; [discriminate|].
    rewrite Htrim. unfold validLength, JsString.length. rewrite Hlen. lia.
Qed.

(** C6, as stated, fails on a candidate of two spaces: it is empty after
    trimming, and [extractCode] reports the length error, not the empty
    code. *)
Lemma blank_candidate_is_length_error :
  JsString.trim "  " = ""
  /\ extractCode [("code", Some "  ")] = Throw invalidLengthMessage
  /\ extractCode [("code", Some "  ")] <> Return None.
Proof. split; [reflexivity|]. split; [reflexivity | discriminate]. Qed.

(** ** Cancelling a job *)

Lemma cancellable_iff (s : Status) :
  bool_decide (s ∈ [Pending; Processing]) = true <-> s = Pending \/ s = Processing.
Proof.
  rewrite bool_decide_eq_true, !elem_of_cons, elem_of_nil. tauto.
Qed.

Lemma cancellable_false_iff (s : Status) :
  bool_decide (s ∈ [Pending; Processing]) = false
  <-> ~ (s = Pending \/ s = Processing).
Proof.
  rewrite bool_decide_eq_false, !elem_of_cons, elem_of_nil. tauto.
Qed.

(** C7: a cancel request by the owner of a completed or failed job is
    refused with the 400 response "Cannot cancel ... job" and the stored
    record is left exactly as it was; a refused request never changes the
    record, and a request succeeds exactly when the requester owns the job
    and its status is pending or processing. *)
Theorem cancel_refused_when_terminal
    (found : option Job.t) (reqUser : string) (now : Z) :
  let '(resp, db) := cancelBulkUpload found reqUser now in
  (Response.success resp = true
   <-> exists job, found = Some job /\ Job.userId job = reqUser
                   /\ (Job.status job = Pending \/ Job.status job = Processing))
  /\ (Response.success resp = false -> db = found)
  /\ (forall job, found = Some job -> Job.userId job = reqUser ->
        Job.status job = Completed \/ Job.status job = Failed ->
        resp = cannotCancel (Job.status job) /\ db = Some job).
Proof.
  unfold cancelBulkUpload.
  destruct found as [job|]; simpl.
  2:{ split; [split; [discriminate | intros (j & ? & _); discriminate]|].
      split; [reflexivity|]. intros j ?. discriminate. }
  destruct (String.eqb (Job.userId job) reqUser) eqn:Heq; simpl.
  2:{ apply String.eqb_neq in Heq.
      split; [split; [discriminate | intros (j & [= <-] & ? & _); congruence]|].
      split; [reflexivity|]. intros j [= <-] ?. congruence. }
  apply String.eqb_eq in Heq.
  destruct (bool_decide (Job.status job ∈ [Pending; Processing])) eqn:Hc; simpl.
  - apply cancellable_iff in Hc.
    split; [split; [intros _; exists job; tauto | reflexivity]|].
    split; [discriminate|].
    intros j [= <-] _ [Hs|Hs]; destruct Hc; congruence.
  - apply cancellable_false_iff in Hc.
    split; [split; [discriminate | intros (j & [= <-] & _ & Hs); tauto]|].
    split; [reflexivity|].
    intros j [= <-] _ _. split; reflexivity.
Qed.

(** A completed job of user-1, a cancel request by user-1: refused, record
    unchanged. *)
Lemma cancel_refused_when_terminal_witness :
  cancelBulkUpload (Some (Job.set_status (Scenario.newJob "csv") Completed))
    "user-1" 5000
  = (cannotCancel Completed,
     Some (Job.set_status (Scenario.newJob "csv") Completed)).
Proof.
  pose proof (cancel_refused_when_terminal
                (Some (Job.set_status (Scenario.newJob "csv") Completed))
                "user-1" 5000) as Hc.
  destruct (cancelBulkUpload _ "user-1" 5000) as [resp db].
  destruct Hc as (_ & _ & Hterm).
  destruct (Hterm _ eq_refl eq_refl (or_introl eq_refl)) as [-> ->].
  reflexivity.
Defined.

(** ** One batch *)

Section Batch.

Context {S : Type} `{CodeStore S}.
Variables (brandId : string) (productId : option string)
          (userId : string) (io : bool).

(** What a call of [processBatch] does to the state.  When it throws, the
    job document and the events are as before; when it returns, the
    counters of the document have grown by the statistics returned, the
    document has been saved and the progress sent. *)
Lemma processBatch_cases (batch : list CodeItem.t) (st : State) :
  let r := processBatch brandId productId userId io batch st in
  sameLocals st r.2
  /\ match r.1 with
     | Throw m =>
         job r.2 = job st /\ events r.2 = events st
         /\ exists m', m = batchErrorMessage m'
     | Return stats =>
         Stats.processed stats = Z.of_nat (length batch)
         /\ Stats.failed stats
            = Stats.processed stats - Stats.successful stats
              - Stats.duplicates stats
         /\ job r.2
            = updateProgress_doc (job st)
                (batchUpdate (Job.progress (job st)) stats)
         /\ events r.2 = events st ++ flushEvents userId io (job r.2)
     end.
Proof.
  unfold processBatch, tryCatch, bind, gets, modify, throw, ret.
  destruct (find (store st) (map CodeItem.code batch)) as [existing|m] eqn:Hfind;
    simpl.
  2:{ split; [repeat split|]. repeat split. eauto. }
  destruct (filterDuplicates brandId productId (list_to_set existing) batch
              [] 0 (errors st)) as [[newCodes dups] errs'] eqn:Hfilter.
  simpl.
  unfold insertNewCodes.
  destruct newCodes as [|d newCodes'].
  - unfold ret, updateProgress, emitProgress, modify, ret; simpl.
    destruct io; simpl; (split; [repeat split|]); repeat split;
        first [reflexivity | lia | rewrite <- app_assoc; reflexivity].
  - change (store (set_errors errs' st)) with (store st).
    destruct (insertMany (store st) (d :: newCodes')) as [outcome s'] eqn:Hins.
    destruct outcome as [result|e].
    + unfold updateProgress, emitProgress, modify, ret; simpl.
      destruct io; simpl; (split; [repeat split|]); repeat split;
        first [reflexivity | lia | rewrite <- app_assoc; reflexivity].
    + destruct (BulkError.code e) as [c|]; [|simpl; split; repeat split; eauto].
      destruct (BulkError.writeErrors e) as [wes|];
        [|simpl; split; repeat split; eauto].
      destruct (c =? duplicateKey).
      * unfold updateProgress, emitProgress, modify, ret; simpl.
        destruct io; simpl; (split; [repeat split|]); repeat split;
        first [reflexivity | lia | rewrite <- app_assoc; reflexivity].
      * simpl; split; repeat split; eauto.
Qed.

End Batch.

(** ** Invariants of a run *)

Section Preservation.

Context {S : Type} `{CodeStore S}.
Variable I : @State S -> Prop.

Lemma preserves_ret {A} (a : A) : preserves I (ret a).
Proof. intros st HI. exact HI. Qed.

Lemma preserves_throw {A} (m : string) : preserves I (@throw S A m).
Proof. intros st HI. exact HI. Qed.

Lemma preserves_gets {A} (f : State -> A) : preserves I (gets f).
Proof. intros st HI. exact HI. Qed.

Lemma preserves_lift {A} (c : Completion A) : preserves I (lift c).
Proof. intros st HI. exact HI. Qed.

Lemma preserves_modify (f : State -> State) :
  (forall st, I st -> I (f st)) -> preserves I (modify f).
Proof. intros Hf st HI. apply Hf, HI. Qed.

Lemma preserves_bind {A B} (m : M A) (k : A -> M B) :
  preserves I m -> (forall a, preserves I (k a)) -> preserves I (bind m k).
Proof.
  intros Hm Hk st HI. unfold bind.
  specialize (Hm st HI).
  destruct (m st) as [[a|e] st']; simpl in *.
  - apply Hk, Hm.
  - exact Hm.
Qed.

Lemma preserves_tryCatch {A} (m : M A) (h : string -> M A) :
  preserves I m -> (forall e, preserves I (h e)) -> preserves I (tryCatch m h).
Proof.
  intros Hm Hh st HI. unfold tryCatch.
  specialize (Hm st HI).
  destruct (m st) as [[a|e] st']; simpl in *.
  - exact Hm.
  - apply Hh, Hm.
Qed.

Lemma preserves_forEach {A} (f : A -> M unit) (l : list A) :
  (forall a, preserves I (f a)) -> preserves I (forEach f l).
Proof.
  intros Hf. induction l as [|a l IH]; simpl.
  - apply preserves_ret.
  - apply preserves_bind; [apply Hf | intros _; exact IH].
Qed.

End Preservation.

Section RunInvariant.

Context {S : Type} `{CodeStore S}.
Variables (BATCH_SIZE MAX_ERRORS : nat) (brandId : string)
          (productId : option string) (userId : string) (io : bool).

(** [K] is kept by the document while the strategies run; [E] is what
    the saved and reported documents satisfy. *)
Variables K E : Job.t -> Prop.
Hypothesis K_E : forall j, K j -> E j.
Hypothesis K_batch : forall j stats,
  K j ->
  Stats.failed stats
  = Stats.processed stats - Stats.successful stats - Stats.duplicates stats ->
  K (updateProgress_doc j (batchUpdate (Job.progress j) stats)).

Lemma preserves_local (f : @State S -> @State S) :
  localOnly f -> preserves (Inv K E) (modify f).
Proof.
  intros Hf. apply preserves_modify. intros st [HK HE].
  destruct (Hf st) as [Hj He]. split; [rewrite Hj | rewrite He]; assumption.
Qed.

Lemma Inv_flushEvents (j : Job.t) (evs : list Event) :
  Forall (eventDoc E) evs -> K j ->
  Forall (eventDoc E) (evs ++ flushEvents userId io j).
Proof.
  intros HE HK. apply Forall_app. split; [exact HE|].
  unfold flushEvents. constructor; [apply K_E, HK|].
  destruct io; constructor; [|constructor].
  simpl. exists (Job.jobId j), j. split; [apply K_E, HK | reflexivity].
Qed.

Lemma processBatch_preserves (batch : list CodeItem.t) :
  preserves (Inv K E) (processBatch brandId productId userId io batch).
Proof.
  intros st [HK HE].
  pose proof (processBatch_cases brandId productId userId io batch st) as Hc.
  simpl in Hc. destruct Hc as [_ Hc].
  destruct (processBatch brandId productId userId io batch st) as [[stats|m] st'];
    simpl in *.
  - destruct Hc as (_ & Hfailed & Hjob & Hev).
    assert (HK' : K (job st')) by (rewrite Hjob; apply K_batch; assumption).
    split; [exact HK'|].
    rewrite Hev. apply Inv_flushEvents; assumption.
  - destruct Hc as (Hjob & Hev & _). split; [rewrite Hjob | rewrite Hev]; assumption.
Qed.

Lemma pushError_preserves e : preserves (Inv K E) (@pushError S e).
Proof. apply preserves_local. intros st. split; reflexivity. Qed.

Lemma incFailed_preserves : preserves (Inv K E) (@incFailed S).
Proof. apply preserves_local. intros st. split; reflexivity. Qed.

Lemma pushCode_preserves c n : preserves (Inv K E) (@pushCode S c n).
Proof. apply preserves_local. intros st. split; reflexivity. Qed.

Lemma intake_preserves row n : preserves (Inv K E) (@intake S row n).
Proof.
  unfold intake. apply preserves_bind; [apply preserves_lift|].
  intros [c|].
  - destruct (JsString.nonempty c).
    + apply pushCode_preserves.
    + apply preserves_bind; [apply pushError_preserves|].
      intros _. apply incFailed_preserves.
  - apply preserves_bind; [apply pushError_preserves|].
    intros _. apply incFailed_preserves.
Qed.

Lemma flush_preserves :
  preserves (Inv K E) (flush brandId productId userId io).
Proof.
  unfold flush. apply preserves_bind; [apply preserves_gets|]. intros cs.
  apply preserves_bind; [apply processBatch_preserves|]. intros stats.
  apply preserves_bind; apply preserves_local || intros _;
    try apply preserves_local; intros st; split; reflexivity.
Qed.

Lemma onData_preserves row :
  preserves (Inv K E) (onData BATCH_SIZE brandId productId userId io row).
Proof.
  unfold onData.
  apply preserves_bind; [apply preserves_local; intros st; split; reflexivity|].
  intros _. apply preserves_bind.
  - apply preserves_tryCatch.
    + apply preserves_bind; [apply preserves_gets|]. intros n.
      apply preserves_bind; [apply intake_preserves|]. intros _.
      apply preserves_bind; [apply preserves_gets|]. intros cs.
      apply preserves_ret.
    + intros e. apply preserves_bind; [apply preserves_gets|]. intros n.
      apply preserves_bind; [apply pushError_preserves|]. intros _.
      apply preserves_bind; [apply incFailed_preserves|]. intros _.
      apply preserves_ret.
  - intros [|]; [apply flush_preserves | apply preserves_ret].
Qed.

Lemma onEnd_preserves :
  preserves (Inv K E) (onEnd MAX_ERRORS brandId productId userId io).
Proof.
  unfold onEnd. apply preserves_bind; [apply preserves_gets|]. intros cs.
  apply preserves_bind.
  - destruct (0 <? length cs)%nat; [|apply preserves_ret].
    apply preserves_bind; [apply processBatch_preserves|]. intros stats.
    apply preserves_local. intros st. split; reflexivity.
  - intros _. apply preserves_gets.
Qed.

Lemma processCSV_preserves file :
  preserves (Inv K E)
    (processCSV BATCH_SIZE MAX_ERRORS brandId productId userId io file).
Proof.
  unfold processCSV.
  apply preserves_bind; [apply preserves_local; intros st; split; reflexivity|].
  intros _. destruct file as [rows|rows m].
  - apply preserves_bind; [apply preserves_forEach, onData_preserves|].
    intros _. apply onEnd_preserves.
  - apply preserves_bind; [apply preserves_forEach, onData_preserves|].
    intros _. apply preserves_throw.
Qed.

Lemma excelRow_preserves n i row :
  preserves (Inv K E) (excelRow BATCH_SIZE brandId productId userId io n i row).
Proof.
  unfold excelRow. apply preserves_tryCatch.
  - apply preserves_bind; [apply intake_preserves|]. intros _.
    apply preserves_bind; [apply preserves_gets|]. intros cs.
    destruct (_ || _); [apply flush_preserves | apply preserves_ret].
  - intros e. apply preserves_bind; [apply pushError_preserves|]. intros _.
    apply incFailed_preserves.
Qed.

Lemma excelLoop_preserves n rows : forall i,
  preserves (Inv K E) (excelLoop BATCH_SIZE brandId productId userId io n i rows).
Proof.
  induction rows as [|row rows IH]; intros i; simpl.
  - apply preserves_ret.
  - apply preserves_bind; [apply excelRow_preserves | intros _; apply IH].
Qed.

End RunInvariant.

Section Leads.

Context {S : Type} `{CodeStore S}.

Lemma preserves_leads {A} (I P Q : @State S -> Prop) (m : M A) :
  preserves I m -> (forall st, P st -> I st) -> (forall st, I st -> Q st) ->
  leads P m Q.
Proof. intros Hm HP HQ st Hst. apply HQ, Hm, HP, Hst. Qed.

Lemma leads_bind {A B} (P R Q : @State S -> Prop) (m : M A) (k : A -> M B) :
  leads P m R -> (forall st, R st -> Q st) -> (forall a, leads R (k a) Q) ->
  leads P (bind m k) Q.
Proof.
  intros Hm HRQ Hk st HP. unfold bind.
  specialize (Hm st HP).
  destruct (m st) as [[a|e] st']; simpl in *.
  - apply Hk, Hm.
  - apply HRQ, Hm.
Qed.

Lemma leads_tryCatch {A} (P R Q : @State S -> Prop) (m : M A)
    (h : string -> M A) :
  leads P m R -> (forall st, R st -> Q st) -> (forall e, leads R (h e) Q) ->
  leads P (tryCatch m h) Q.
Proof.
  intros Hm HRQ Hh st HP. unfold tryCatch.
  specialize (Hm st HP).
  destruct (m st) as [[a|e] st']; simpl in *.
  - apply HRQ, Hm.
  - apply Hh, Hm.
Qed.

End Leads.

Section JobInvariant.

Context {S : Type} `{CodeStore S}.
Variables (BATCH_SIZE MAX_ERRORS : nat) (brandId : string)
          (productId : option string) (userId : string) (io : bool).
Variables (jobId filePath fileType : string).

(** [K0] holds of the document when the job is loaded, [K] while the
    strategy runs, [E] of every document saved or reported, the ones of
    the [catch] handler included. *)
Variables K0 K E : Job.t -> Prop.
Hypothesis K0_K : forall j, K0 j -> K j.
Hypothesis K_E : forall j, K j -> E j.
Hypothesis K0_mark : forall j s sm,
  K0 j -> K0 (Job.set_summary (Job.set_status j s) sm).
Hypothesis K_mark : forall j s sm,
  K j -> K (Job.set_summary (Job.set_status j s) sm).
Hypothesis K_batch : forall j stats,
  K j ->
  Stats.failed stats
  = Stats.processed stats - Stats.successful stats - Stats.duplicates stats ->
  K (updateProgress_doc j (batchUpdate (Job.progress j) stats)).
Hypothesis K_total : fileType = "xlsx" -> forall j n,
  K0 j -> K (updateProgress_doc j (totalUpdate n)).
Hypothesis E_fail : forall j s sm m,
  K j ->
  E (addError_doc (Job.set_summary (Job.set_status j s) sm) (systemError m)).1.

Lemma Inv_weaken (st : @State S) : Inv K0 E st -> Inv K E st.
Proof. intros [HK HE]. split; [apply K0_K, HK | exact HE]. Qed.

Lemma Inv_final (st : @State S) : Inv K E st -> Inv E E st.
Proof. intros [HK HE]. split; [apply K_E, HK | exact HE]. Qed.

Lemma saveJob_preserves (K1 : Job.t -> Prop) paths :
  (forall j, K1 j -> E j) -> preserves (Inv K1 E) (@saveJob S paths).
Proof.
  intros HK1. apply preserves_modify. intros st [HK HE].
  split; [exact HK|]. simpl. apply Forall_app. split; [exact HE|].
  constructor; [apply HK1, HK | constructor].
Qed.

Lemma emitProgress_preserves (K1 : Job.t -> Prop) id :
  (forall j, K1 j -> E j) -> preserves (Inv K1 E) (@emitProgress S userId io id).
Proof.
  intros HK1. unfold emitProgress. destruct io; [|apply preserves_ret].
  apply preserves_modify. intros st [HK HE].
  split; [exact HK|]. simpl. apply Forall_app. split; [exact HE|].
  constructor; [|constructor].
  exists id, (job st). split; [apply HK1, HK | reflexivity].
Qed.

Lemma cleanupFile_preserves (K1 : Job.t -> Prop) :
  preserves (Inv K1 E) (@cleanupFile S filePath).
Proof.
  apply preserves_modify. intros st [HK HE].
  split; [exact HK|]. simpl. apply Forall_app. split; [exact HE|].
  constructor; [exact Logic.I | constructor].
Qed.

Lemma processExcel_leads file :
  fileType = "xlsx" ->
  leads (Inv K0 E)
    (processExcel BATCH_SIZE MAX_ERRORS brandId productId userId io file)
    (Inv K E).
Proof.
  intros Hx. unfold processExcel.
  apply leads_tryCatch with (R := Inv K E); [|auto|].
  2:{ intros e. apply preserves_leads with (I := Inv K E); auto.
      apply preserves_throw. }
  destruct file as [rows|rows m].
  2:{ apply preserves_leads with (I := Inv K E);
        [apply preserves_throw | apply Inv_weaken | auto]. }
  apply leads_bind with (R := Inv K E); [|auto|].
  - intros st [HK HE]. simpl.
    assert (HK' : K (updateProgress_doc (job st)
                       (totalUpdate (Z.of_nat (length rows)))))
      by (apply K_total; assumption).
    split; [exact HK'|].
    apply Forall_app. split; [exact HE|].
    constructor; [apply K_E, HK' | constructor].
  - intros _. apply preserves_leads with (I := Inv K E); auto.
    apply preserves_bind; [apply preserves_gets|]. intros id.
    apply preserves_bind; [apply emitProgress_preserves, K_E|]. intros _.
    apply preserves_bind;
      [apply preserves_modify; intros st [HK HE]; split; assumption|].
    intros _.
    apply preserves_bind; [apply excelLoop_preserves; assumption|].
    intros _. apply preserves_gets.
Qed.

Lemma strategy_leads file :
  leads (Inv K0 E)
    (if String.eqb fileType "csv"
     then processCSV BATCH_SIZE MAX_ERRORS brandId productId userId io file
     else if String.eqb fileType "xlsx"
          then processExcel BATCH_SIZE MAX_ERRORS brandId productId userId io file
          else throw "Unsupported file type")
    (Inv K E).
Proof.
  destruct (String.eqb fileType "csv").
  - apply preserves_leads with (I := Inv K E);
      [apply processCSV_preserves; assumption | apply Inv_weaken | auto].
  - destruct (String.eqb fileType "xlsx") eqn:Hx.
    + apply processExcel_leads. apply String.eqb_eq, Hx.
    + apply preserves_leads with (I := Inv K E);
        [apply preserves_throw | apply Inv_weaken | auto].
Qed.

(** The [try] block of [runJob]. *)
Lemma runJob_try_leads file startTime endTime :
  leads (Inv K0 E)
    (bind (modify (fun st => set_job (markProcessing startTime (job st)) st))
       (fun _ =>
        bind (saveJob [PStatus; PStartTime])
          (fun _ =>
           bind (emitProgress userId io jobId)
             (fun _ =>
              bind (gets totalCodes)
                (fun brand =>
                 match brand with
                 | None => throw "Brand not found"
                 | Some _ =>
                   bind (if String.eqb fileType "csv"
                         then processCSV BATCH_SIZE MAX_ERRORS brandId
                                productId userId io file
                         else if String.eqb fileType "xlsx"
                              then processExcel BATCH_SIZE MAX_ERRORS brandId
                                     productId userId io file
                              else throw "Unsupported file type")
                     (fun result =>
                      bind (incTotalCodes (Result.successful result))
                        (fun _ =>
                         bind (modify (fun st =>
                                 set_job (markCompleted endTime result (job st)) st))
                           (fun _ =>
                            bind (saveJob [PStatus; PEndTime; PDuration; PAvgSpeed])
                              (fun _ =>
                               bind (emitProgress userId io jobId)
                                 (fun _ =>
                                  bind (cleanupFile filePath)
                                    (fun _ => ret result))))))
                 end)))))
    (Inv K E).
Proof.
  assert (K0_E : forall j, K0 j -> E j) by auto.
  apply leads_bind with (R := Inv K0 E); [|apply Inv_weaken|].
  { intros st [HK HE]. split; [apply K0_mark, HK | exact HE]. }
  intros _. apply leads_bind with (R := Inv K0 E); [|apply Inv_weaken|].
  { apply preserves_leads with (I := Inv K0 E); auto.
    apply saveJob_preserves, K0_E. }
  intros _. apply leads_bind with (R := Inv K0 E); [|apply Inv_weaken|].
  { apply preserves_leads with (I := Inv K0 E); auto.
    apply emitProgress_preserves, K0_E. }
  intros _. apply leads_bind with (R := Inv K0 E); [|apply Inv_weaken|].
  { apply preserves_leads with (I := Inv K0 E); auto. apply preserves_gets. }
  intros [t|].
  2:{ apply preserves_leads with (I := Inv K E);
        [apply preserves_throw | apply Inv_weaken | auto]. }
  apply leads_bind with (R := Inv K E); [apply strategy_leads | auto |].
  intros result. apply preserves_leads with (I := Inv K E); auto.
  apply preserves_bind.
  { apply preserves_modify. intros st [HK HE]. split; assumption. }
  intros _. apply preserves_bind.
  { apply preserves_modify. intros st [HK HE]. split; [apply K_mark, HK | exact HE]. }
  intros _. apply preserves_bind; [apply saveJob_preserves, K_E|].
  intros _. apply preserves_bind; [apply emitProgress_preserves, K_E|].
  intros _. apply preserves_bind; [apply cleanupFile_preserves|].
  intros _. apply preserves_ret.
Qed.

(** The documents saved and reported by a whole run satisfy [E], so does
    the document at the end, and it satisfies [K] when the run returns. *)
Lemma runJob_invariant file startTime endTime (s : S) (brand : option Z)
    (j : Job.t) :
  K0 j ->
  let r := runJob BATCH_SIZE MAX_ERRORS brandId productId userId io jobId
             filePath fileType file startTime endTime (initState s brand j) in
  Forall (eventDoc E) (events r.2)
  /\ E (job r.2)
  /\ (forall res, r.1 = Return res -> K (job r.2))
  /\ (forall m, r.1 = Throw m ->
      exists jt, K jt
        /\ job r.2 = (addError_doc (markFailed endTime jt) (systemError m)).1).
Proof.
  intros HK0. unfold runJob, tryCatch.
  pose proof (runJob_try_leads file startTime endTime (initState s brand j))
    as Hbody.
  match type of Hbody with
  | _ -> Inv K E (?body _).2 => destruct (body (initState s brand j)) as [[res|m] st']
  end; simpl in Hbody.
  - destruct Hbody as [HK HE]; [split; [exact HK0 | constructor]|].
    simpl. split; [exact HE|]. split; [apply K_E, HK|].
    split; [intros _ _; exact HK | discriminate].
  - destruct Hbody as [HK HE]; [split; [exact HK0 | constructor]|].
    unfold bind, modify, gets, addError, saveJob, emitProgress, cleanupFile,
      throw, ret.
    simpl.
    pose proof (E_fail (job st') Failed
                  (Job.summary (markFailed endTime (job st')))
                  m HK) as HEf.
    change (Job.set_summary (Job.set_status (job st') Failed)
              (Job.summary (markFailed endTime (job st'))))
      with (markFailed endTime (job st')) in HEf.
    destruct (addError_doc (markFailed endTime (job st')) (systemError m))
      as [j2 saved] eqn:Hadd.
    simpl in HEf.
    assert (Hns : saved = false -> j2 = markFailed endTime (job st')).
    { intros ->. unfold addError_doc in Hadd.
      destruct (_ <? _)%nat; inversion Hadd; reflexivity. }
    destruct saved; simpl.
    + destruct io; simpl;
        (split; [|split; [exact HEf | split; [discriminate|]]]);
        try (intros m' [= <-]; exists (job st'); rewrite Hadd;
             split; [exact HK | reflexivity]);
        rewrite !Forall_app; repeat split; try exact HE;
        repeat constructor; try exact HEf.
      exists jobId, j2. split; [exact HEf | reflexivity].
    + specialize (Hns eq_refl). subst j2.
      destruct io; simpl;
        (split; [|split; [exact HEf | split; [discriminate|]]]);
        try (intros m' [= <-]; exists (job st'); rewrite Hadd;
             split; [exact HK | reflexivity]);
        rewrite !Forall_app; repeat split; try exact HE;
        repeat constructor; try exact HEf.
      exists jobId, (markFailed endTime (job st')).
      split; [exact HEf | reflexivity].
Qed.

End JobInvariant.

(** ** The stored record *)

Lemma writePath_keeps (E : Job.t -> Prop) (doc db : Job.t) (p : Path) :
  (forall j s, E j -> E (Job.set_status j s)) ->
  (forall j sm, E j -> E (Job.set_summary j sm)) ->
  (E db -> E (Job.set_progress db (Job.progress doc))) ->
  (E db -> E (Job.set_errors db (Job.errors doc))) ->
  E db -> E (writePath doc p db).
Proof.
  intros Hst Hsm Hpr Her Hdb. destruct p; simpl; auto.
Qed.

(** A property of the counters that holds of the stored record and of
    every saved document holds of the stored record after each event. *)
Lemma storedStates_progress (P : Progress.t -> Prop) (evs : list Event) :
  Forall (eventDoc (fun j => P (Job.progress j))) evs ->
  forall db, P (Job.progress db) ->
  Forall (fun j => P (Job.progress j)) (storedStates evs db).
Proof.
  induction 1 as [|ev evs Hev _ IH]; intros db Hdb; simpl; [constructor|].
  assert (Hnext : P (Job.progress (applyEvent db ev))).
  { destruct ev as [paths doc| |]; simpl in *; try exact Hdb.
    induction paths as [|p paths IHp]; simpl; [exact Hdb|].
    apply (writePath_keeps (fun j => P (Job.progress j))); auto. }
  constructor; [exact Hnext | apply IH, Hnext].
Qed.

(** The same for a property of the stored list of errors. *)
Lemma storedStates_errors (Q : list ErrorEntry.t -> Prop) (evs : list Event) :
  Forall (eventDoc (fun j => Q (Job.errors j))) evs ->
  forall db, Q (Job.errors db) ->
  Forall (fun j => Q (Job.errors j)) (storedStates evs db).
Proof.
  induction 1 as [|ev evs Hev _ IH]; intros db Hdb; simpl; [constructor|].
  assert (Hnext : Q (Job.errors (applyEvent db ev))).
  { destruct ev as [paths doc| |]; simpl in *; try exact Hdb.
    induction paths as [|p paths IHp]; simpl; [exact Hdb|].
    apply (writePath_keeps (fun j => Q (Job.errors j))); auto. }
  constructor; [exact Hnext | apply IH, Hnext].
Qed.

Section Orchestrator.

Context {S : Type} `{CodeStore S}.
Variables (BATCH_SIZE MAX_ERRORS : nat) (brandId : string)
          (productId : option string) (userId : string) (io : bool).
Variables (jobId filePath fileType : string).

(** [processBulkUpload] on a job that exists is [runJob] from the initial
    state. *)
Lemma processBulkUpload_found (j : Job.t) file startTime endTime (s : S) brand :
  let o := processBulkUpload BATCH_SIZE MAX_ERRORS brandId productId userId io
             jobId filePath fileType (Some j) file startTime endTime s brand in
  let r := runJob BATCH_SIZE MAX_ERRORS brandId productId userId io jobId
             filePath fileType file startTime endTime (initState s brand j) in
  out_result o = r.1 /\ out_job o = Some (job r.2) /\ out_store o = store r.2
  /\ out_totalCodes o = totalCodes r.2 /\ out_events o = events r.2.
Proof.
  unfold processBulkUpload.
  destruct (runJob _ _ _ _ _ _ _ _ _ _ _ _ _) as [r st].
  simpl. repeat split.
Qed.

End Orchestrator.

Section Stages.

Context {S : Type} `{CodeStore S}.
Variables (BATCH_SIZE MAX_ERRORS : nat) (brandId : string)
          (productId : option string) (userId : string) (io : bool).
Variables (jobId filePath fileType : string).

(** [runJob] by stages: the start, the strategy, and then the completion
    or the [catch] handler. *)
Lemma runJob_stages file startTime endTime (st0 : @State S) :
  runJob BATCH_SIZE MAX_ERRORS brandId productId userId io jobId filePath
    fileType file startTime endTime st0
  = let st1 := started userId io jobId startTime st0 in
    match totalCodes st1 with
    | None =>
        (Throw "Brand not found",
         aborted userId io jobId filePath endTime "Brand not found" st1)
    | Some _ =>
        match strategy BATCH_SIZE MAX_ERRORS brandId productId userId io
                fileType file st1 with
        | (Return res, st2) =>
            (Return res, finished userId io jobId filePath endTime res st2)
        | (Throw m, st2) =>
            (Throw m, aborted userId io jobId filePath endTime m st2)
        end
    end.
Proof.
  unfold runJob, started, finished, aborted, strategy.
  unfold tryCatch, bind, saveJob, modify, gets, cleanupFile, incTotalCodes,
    throw, ret, emitProgress, addError.
  destruct io; simpl.
  - destruct (totalCodes st0); simpl.
    + match goal with
      | |- context [(if ?c then ?a else ?b) ?st] =>
          destruct ((if c then a else b) st) as [[res|m] st2]
      end; simpl.
      * reflexivity.
      * destruct (addError_doc _ _) as [j2 [|]]; reflexivity.
    + destruct (addError_doc _ _) as [j2 [|]]; reflexivity.
  - destruct (totalCodes st0); simpl.
    + match goal with
      | |- context [(if ?c then ?a else ?b) ?st] =>
          destruct ((if c then a else b) st) as [[res|m] st2]
      end; simpl.
      * reflexivity.
      * destruct (addError_doc _ _) as [j2 [|]]; reflexivity.
    + destruct (addError_doc _ _) as [j2 [|]]; reflexivity.
Qed.

End Stages.

(** ** The steps of the delimited-text strategy *)

Lemma updatedProgress_batch (p : Progress.t) (stats : Stats.t) :
  let p' := updatedProgress p (batchUpdate p stats) in
  Progress.total p' = Progress.total p
  /\ Progress.processed p' = Progress.processed p + Stats.processed stats
  /\ Progress.successful p' = Progress.successful p + Stats.successful stats
  /\ Progress.failed p' = Progress.failed p + Stats.failed stats
  /\ Progress.duplicates p' = Progress.duplicates p + Stats.duplicates stats.
Proof.
  unfold updatedProgress. simpl.
  destruct (0 <? Progress.total p); simpl; repeat split.
Qed.

Section CsvSteps.

Context {S : Type} `{CodeStore S}.
Variables (BATCH_SIZE MAX_ERRORS : nat) (brandId : string)
          (productId : option string) (userId : string) (io : bool).

(** The ['data'] handler: the intake of the row, then the flush when it
    is due. *)
Lemma onData_unfold (row : Row) (st : State) :
  onData BATCH_SIZE brandId productId userId io row st
  = if flushDue BATCH_SIZE row st
    then flush brandId productId userId io (afterIntake row st)
    else (Return tt, afterIntake row st).
Proof.
  unfold onData, flushDue, afterIntake, intake.
  unfold bind, modify, tryCatch, gets, lift, ret, pushError, incFailed, pushCode.
  destruct (extractCode row) as [[c|]|m]; simpl.
  - destruct (JsString.nonempty c); simpl.
    + destruct (BATCH_SIZE <=? _)%nat; reflexivity.
    + unfold rowDropped. simpl. destruct (BATCH_SIZE <=? _)%nat; reflexivity.
  - unfold rowDropped. simpl. destruct (BATCH_SIZE <=? _)%nat; reflexivity.
  - reflexivity.
Qed.

(** A flush keeps the counters of the closures as far ahead of the
    document as they were, whether the batch is written or not. *)
Lemma flush_ahead (st : State) :
  ahead (flush brandId productId userId io st).2 = ahead st.
Proof.
  unfold flush, bind, gets, modify.
  pose proof (processBatch_cases brandId productId userId io (codes st) st) as Hc.
  simpl in Hc. destruct Hc as [Hloc Hc].
  destruct (processBatch brandId productId userId io (codes st) st)
    as [[stats|m] st']; simpl in *.
  - destruct Hloc as (_ & _ & _ & Hp & Hs & Hf & Hd).
    destruct Hc as (_ & _ & Hjob & _).
    pose proof (updatedProgress_batch (Job.progress (job st)) stats) as Hu.
    simpl in Hu. destruct Hu as (_ & Hup & Hus & Huf & Hud).
    unfold ahead. simpl. rewrite Hjob. simpl.
    rewrite Hup, Hus, Huf, Hud, Hp, Hs, Hf, Hd. f_equal; lia.
  - destruct Hloc as (_ & _ & _ & Hp & Hs & Hf & Hd).
    destruct Hc as (Hjob & _).
    unfold ahead. rewrite Hjob, Hp, Hs, Hf, Hd. reflexivity.
Qed.

Lemma afterIntake_ahead (row : Row) (st : @State S) :
  ahead (afterIntake row st)
  = plusFailed (if accepted row then 0 else 1) (ahead st).
Proof.
  unfold afterIntake, accepted, ahead, plusFailed, rowDropped.
  destruct (extractCode row) as [[c|]|m]; simpl;
    try destruct (JsString.nonempty c); simpl; f_equal; lia.
Qed.

Lemma onData_ahead (row : Row) (st : State) :
  ahead (onData BATCH_SIZE brandId productId userId io row st).2
  = plusFailed (if accepted row then 0 else 1) (ahead st).
Proof.
  rewrite onData_unfold. destruct (flushDue BATCH_SIZE row st); simpl.
  - rewrite flush_ahead. apply afterIntake_ahead.
  - apply afterIntake_ahead.
Qed.

Lemma droppedRows_cons (row : Row) (rows : list Row) :
  droppedRows (row :: rows)
  = (if accepted row then 0 else 1) + droppedRows rows.
Proof.
  unfold droppedRows. rewrite filter_cons.
  destruct (decide (accepted row = false)) as [Hd|Hd].
  - rewrite Hd. simpl. lia.
  - destruct (accepted row); [reflexivity | congruence].
Qed.

Lemma forEach_onData_ahead (rows : list Row) : forall st,
  (forEach (onData BATCH_SIZE brandId productId userId io) rows st).1 = Return tt ->
  ahead (forEach (onData BATCH_SIZE brandId productId userId io) rows st).2
  = plusFailed (droppedRows rows) (ahead st).
Proof.
  induction rows as [|row rows IH]; intros st Hret; simpl in *.
  - unfold plusFailed, droppedRows, ahead. simpl. f_equal; lia.
  - unfold bind in *.
    pose proof (onData_ahead row st) as Hrow.
    destruct (onData BATCH_SIZE brandId productId userId io row st)
      as [[[]|m] st1]; simpl in *; [|discriminate].
    rewrite IH by exact Hret. rewrite Hrow, droppedRows_cons.
    unfold plusFailed. simpl. f_equal. lia.
Qed.

(** When the delimited-text strategy returns, its result holds the
    counters by which the document has grown, and the failures counted
    in the document plus the rows dropped at extraction. *)
Lemma processCSV_result (rows : list Row) (st st' : State) (r : Result.t) :
  processCSV BATCH_SIZE MAX_ERRORS brandId productId userId io (Parsed rows) st
  = (Return r, st') ->
  let p := Job.progress (job st) in
  let p' := Job.progress (job st') in
  Result.processed r = Progress.processed p' - Progress.processed p
  /\ Result.successful r = Progress.successful p' - Progress.successful p
  /\ Result.duplicates r = Progress.duplicates p' - Progress.duplicates p
  /\ Result.failed r
     = Progress.failed p' - Progress.failed p + droppedRows rows.
Proof.
  unfold processCSV, bind, modify. simpl.
  pose proof (forEach_onData_ahead rows (freshLocals st)) as Hloop.
  destruct (forEach _ rows (freshLocals st)) as [[[]|m] st1]; simpl in *;
    [|discriminate].
  specialize (Hloop eq_refl).
  unfold onEnd, bind, gets, currentResult.
  destruct (0 <? length (codes st1))%nat.
  - pose proof (processBatch_cases brandId productId userId io (codes st1) st1)
      as Hc.
    simpl in Hc. destruct Hc as [Hloc Hc].
    unfold modify.
    destruct (processBatch brandId productId userId io (codes st1) st1)
      as [[stats|m] st2]; simpl in *; [|discriminate].
    intros [= <- <-]. simpl.
    destruct Hloc as (_ & _ & _ & Hp & Hs & Hf & Hd).
    destruct Hc as (_ & _ & Hjob & _).
    pose proof (updatedProgress_batch (Job.progress (job st1)) stats) as Hu.
    simpl in Hu. destruct Hu as (_ & Hup & Hus & Huf & Hud).
    rewrite Hjob. simpl. rewrite Hup, Hus, Huf, Hud, Hp, Hs, Hf, Hd.
    unfold ahead, plusFailed in Hloop. simpl in Hloop.
    injection Hloop as H1 H2 H3 H4. repeat split; lia.
  - simpl. intros [= <- <-]. simpl.
    unfold ahead, plusFailed in Hloop. simpl in Hloop.
    injection Hloop as H1 H2 H3 H4. repeat split; lia.
Qed.

End CsvSteps.

(** ** The percentage *)

Lemma updatedProgress_percentage (p : Progress.t) (u : Progress.update) :
  let p' := updatedProgress p u in
  (0 < Progress.total p' ->
   Progress.percentage p'
   = roundedPercentage (Progress.processed p') (Progress.total p'))
  /\ (Progress.total p' <= 0 -> Progress.percentage p' = Progress.percentage p).
Proof.
  unfold updatedProgress.
  destruct (0 <? Progress.total (Progress.assign p u)) eqn:Ht; simpl.
  - apply Z.ltb_lt in Ht. simpl in *. split; [reflexivity | lia].
  - apply Z.ltb_ge in Ht. simpl in *. split; [lia | reflexivity].
Qed.

Lemma percentageCurrent_batch (p : Progress.t) (stats : Stats.t) :
  percentageCurrent p ->
  percentageCurrent (updatedProgress p (batchUpdate p stats)).
Proof.
  unfold percentageCurrent, updatedProgress. simpl.
  destruct (0 <? Progress.total p) eqn:Ht; simpl; rewrite Ht; auto.
Qed.

Lemma percentageCurrent_total (p : Progress.t) (n : Z) :
  totalUnset p -> percentageCurrent (updatedProgress p (totalUpdate n)).
Proof.
  intros [_ Hpct]. unfold percentageCurrent, updatedProgress. simpl.
  destruct (0 <? n) eqn:Hn; simpl; rewrite Hn; auto.
Qed.

Lemma totalUnset_batch (p : Progress.t) (stats : Stats.t) :
  totalUnset p -> totalUnset (updatedProgress p (batchUpdate p stats)).
Proof.
  intros [Ht Hpct]. unfold totalUnset, updatedProgress. simpl.
  rewrite Ht. simpl. auto.
Qed.

Lemma addError_doc_progress (j : Job.t) (e : ErrorEntry.t) :
  Job.progress (addError_doc j e).1 = Job.progress j.
Proof. unfold addError_doc. destruct (_ <? _)%nat; reflexivity. Qed.

(** The tie 57.5 of 23 rows out of 40: the doubles give 57. *)
Example roundedPercentage_tie : roundedPercentage 23 40 = JsNumber.Num 57.
Proof. vm_compute. reflexivity. Qed.

Section Percentage.

Context {S : Type} `{CodeStore S}.
Variables (BATCH_SIZE MAX_ERRORS : nat) (brandId : string)
          (productId : option string) (userId : string) (io : bool).
Variables (jobId filePath fileType : string).


(** C9: in the delimited-text strategy the total is never assigned: for
    a job created with the default counters the stored total and the
    stored percentage are 0 after every event of the run, whatever the
    number of rows processed. *)
Theorem csv_total_stays_zero (j : Job.t) (file : ParsedFile)
    (startTime endTime : Z) (s : S) (brand : option Z) :
  fileType = "csv" ->
  totalUnset (Job.progress j) ->
  let o := processBulkUpload BATCH_SIZE MAX_ERRORS brandId productId userId io
             jobId filePath fileType (Some j) file startTime endTime s brand in
  Forall (fun db => totalUnset (Job.progress db)) (storedStates (out_events o) j)
  /\ Forall (reported (fun payload => totalUnset (Payload.progress payload)))
       (out_events o)
  /\ (exists jf, out_job o = Some jf /\ totalUnset (Job.progress jf)).
Proof.
  intros Hcsv Hfresh o.
  destruct (processBulkUpload_found BATCH_SIZE MAX_ERRORS brandId productId
              userId io jobId filePath fileType j file startTime endTime s brand)
    as (_ & Hjob & _ & _ & Hev).
  fold o in Hev, Hjob.
  unshelve epose proof
    (runJob_invariant BATCH_SIZE MAX_ERRORS brandId productId userId io
       jobId filePath fileType
       (fun j => totalUnset (Job.progress j))
       (fun j => totalUnset (Job.progress j))
       (fun j => totalUnset (Job.progress j))
       _ _ _ _ _ _ _ file startTime endTime s brand j Hfresh) as Hinv;
    simpl; auto.
  { intros j' stats Hj' _. apply totalUnset_batch, Hj'. }
  { intros Hx. rewrite Hcsv in Hx. discriminate. }
  { intros j' st sm m Hj'. rewrite addError_doc_progress. exact Hj'. }
  destruct Hinv as (Hevents & Hfinal & _).
  rewrite <- Hev in Hevents. split; [|split].
  - apply storedStates_progress; assumption.
  - eapply Forall_impl; [exact Hevents|].
    intros [paths doc|u payload|f]; simpl; auto.
    intros (id & doc & Hdoc & ->). exact Hdoc.
  - eexists. split; [exact Hjob | exact Hfinal].
Qed.

End Percentage.


Lemma csv_total_stays_zero_witness :
  Forall (fun db => totalUnset (Job.progress db))
    (storedStates (out_events (Scenario.run 2 "csv" ["ABCDEFGH"; "IJKLMNOP"; "XY"]))
       (Scenario.newJob "csv"))
  /\ Forall (reported (fun payload => totalUnset (Payload.progress payload)))
       (out_events (Scenario.run 2 "csv" ["ABCDEFGH"; "IJKLMNOP"; "XY"]))
  /\ (exists jf,
         out_job (Scenario.run 2 "csv" ["ABCDEFGH"; "IJKLMNOP"; "XY"]) = Some jf
         /\ totalUnset (Job.progress jf)).
Proof.
  apply (@csv_total_stays_zero _ Scenario.store 2 100 "brand-1" None
           "user-1" true "job-1" "/uploads/codes" "csv" (Scenario.newJob "csv")
           (Scenario.file ["ABCDEFGH"; "IJKLMNOP"; "XY"]) 1000 3000 ∅ (Some 0)).
  - reflexivity.
  - split; reflexivity.
Defined.

(** ** The stored list of errors *)

Lemma noRowErrors_take (n : nat) (l : list ErrorEntry.t) :
  (0 < n)%nat -> noRowErrors l -> take n l = l.
Proof.
  intros Hn [->|[m ->]]; destruct n; try lia; simpl; rewrite ?take_nil; reflexivity.
Qed.

Section StoredErrors.

Context {S : Type} `{CodeStore S}.
Variables (BATCH_SIZE MAX_ERRORS : nat) (brandId : string)
          (productId : option string) (userId : string) (io : bool).
Variables (jobId filePath fileType : string).

(** A flush does not touch the list of errors of the job document. *)
Lemma processBatch_keeps_job_errors (batch : list CodeItem.t) (st : State) :
  Job.errors (job (processBatch brandId productId userId io batch st).2)
  = Job.errors (job st).
Proof.
  pose proof (processBatch_cases brandId productId userId io batch st) as Hc.
  simpl in Hc. destruct Hc as [_ Hc].
  destruct (processBatch brandId productId userId io batch st) as [[stats|m] st'];
    simpl in *.
  - destruct Hc as (_ & _ & -> & _). reflexivity.
  - destruct Hc as (-> & _). reflexivity.
Qed.

(** C10: the errors of rows and of batch entries go to the [errors] array
    of the run only.  For a job created with an empty list of errors, a
    flush leaves the list of the job document as it is; after every event
    of the run the stored list is empty or holds the single row-0
    SYSTEM_ERROR entry, and so do the lists carried by the progress
    messages and by the status reads; at the end the list is empty when
    the run returns and is the single SYSTEM_ERROR entry with the
    message of the failure when it throws. *)
Theorem row_errors_are_not_stored (j : Job.t) (file : ParsedFile)
    (startTime endTime : Z) (s : S) (brand : option Z) :
  Job.errors j = [] ->
  (0 < Job.maxErrors j)%nat ->
  let o := processBulkUpload BATCH_SIZE MAX_ERRORS brandId productId userId io
             jobId filePath fileType (Some j) file startTime endTime s brand in
  (forall batch st,
      Job.errors (job (processBatch brandId productId userId io batch st).2)
      = Job.errors (job st))
  /\ Forall (fun db => noRowErrors (Job.errors db)) (storedStates (out_events o) j)
  /\ Forall (reported (fun payload => noRowErrors (Payload.errors payload)))
       (out_events o)
  /\ (forall db reqUser view,
        db ∈ storedStates (out_events o) j ->
        Response.data (getBulkUploadStatus (Some db) reqUser) = Some view ->
        noRowErrors (StatusView.errors view))
  /\ (exists jf, out_job o = Some jf
        /\ match out_result o with
           | Return _ => Job.errors jf = []
           | Throw m => Job.errors jf = [systemError m]
           end).
Proof.
  intros Hempty Hmax o.
  destruct (processBulkUpload_found BATCH_SIZE MAX_ERRORS brandId productId
              userId io jobId filePath fileType j file startTime endTime s brand)
    as (Hres & Hjob & _ & _ & Hev).
  fold o in Hres, Hjob, Hev.
  unshelve epose proof
    (runJob_invariant BATCH_SIZE MAX_ERRORS brandId productId userId io
       jobId filePath fileType
       (fun j' => Job.errors j' = [] /\ Job.maxErrors j' = Job.maxErrors j)
       (fun j' => Job.errors j' = [] /\ Job.maxErrors j' = Job.maxErrors j)
       (fun j' => noRowErrors (Job.errors j'))
       _ _ _ _ _ _ _ file startTime endTime s brand j _) as Hinv;
    simpl; auto.
  { intros j' [-> _]. left. reflexivity. }
  { intros j' st sm m [He Hm]. unfold addError_doc. simpl.
    rewrite He, Hm. simpl.
    destruct (0 <? Job.maxErrors j)%nat; simpl.
    - right. exists m. reflexivity.
    - left. exact He. }
  destruct Hinv as (Hevents & _ & Hret & Hthrow).
  rewrite <- Hev in Hevents.
  assert (Hstored : Forall (fun db => noRowErrors (Job.errors db))
                      (storedStates (out_events o) j)).
  { apply storedStates_errors; [exact Hevents|]. left. exact Hempty. }
  split; [apply processBatch_keeps_job_errors|].
  split; [exact Hstored|].
  split.
  { eapply Forall_impl; [exact Hevents|].
    intros [paths doc|u payload|f]; simpl; auto.
    intros (id & doc & Hdoc & ->). simpl.
    rewrite noRowErrors_take; [exact Hdoc | lia | exact Hdoc]. }
  split.
  { intros db reqUser view Hin Hview.
    rewrite Forall_forall in Hstored. specialize (Hstored db Hin).
    unfold getBulkUploadStatus in Hview.
    destruct (negb _); simpl in Hview; [discriminate|].
    injection Hview as <-. simpl.
    rewrite noRowErrors_take; [exact Hstored | lia | exact Hstored]. }
  eexists. split; [exact Hjob|].
  rewrite Hres.
  destruct (runJob _ _ _ _ _ _ _ _ _ _ _ _ _).1 as [res|m] eqn:Hr.
  - destruct (Hret res eq_refl) as [He _]. exact He.
  - destruct (Hthrow m eq_refl) as (jt & [He Hm] & ->).
    unfold addError_doc. simpl. rewrite He, Hm. simpl.
    apply Nat.ltb_lt in Hmax. rewrite Hmax. reflexivity.
Qed.

End StoredErrors.

(** A delimited-text file with a duplicate and two rows refused at
    extraction: no error reaches the stored record. *)
Lemma row_errors_are_not_stored_witness :
  Forall (fun db => noRowErrors (Job.errors db))
    (storedStates
       (out_events (Scenario.run 1000 "csv" ["ABCDEFGH"; "ABCDEFGH"; ""; "XY"]))
       (Scenario.newJob "csv"))
  /\ (exists jf,
         out_job (Scenario.run 1000 "csv" ["ABCDEFGH"; "ABCDEFGH"; ""; "XY"]) = Some jf
         /\ match out_result (Scenario.run 1000 "csv" ["ABCDEFGH"; "ABCDEFGH"; ""; "XY"]) with
            | Return _ => Job.errors jf = []
            | Throw m => Job.errors jf = [systemError m]
            end).
Proof.
  pose proof (@row_errors_are_not_stored _ Scenario.store 1000 100 "brand-1" None
                "user-1" true "job-1" "/uploads/codes" "csv" (Scenario.newJob "csv")
                (Scenario.file ["ABCDEFGH"; "ABCDEFGH"; ""; "XY"]) 1000 3000 ∅
                (Some 0) eq_refl) as Hw.
  destruct Hw as (_ & Hstored & _ & _ & Hfinal); [simpl; lia|].
  split; [exact Hstored | exact Hfinal].
Defined.

(** ** The counters add up *)

Lemma balanced_batch (p : Progress.t) (stats : Stats.t) :
  balanced p ->
  Stats.failed stats
  = Stats.processed stats - Stats.successful stats - Stats.duplicates stats ->
  balanced (updatedProgress p (batchUpdate p stats)).
Proof.
  intros Hp Hf. unfold balanced in *.
  pose proof (updatedProgress_batch p stats) as Hu. simpl in Hu.
  destruct Hu as (_ & -> & -> & -> & ->). lia.
Qed.

Lemma balanced_total (p : Progress.t) (n : Z) :
  balanced p -> balanced (updatedProgress p (totalUpdate n)).
Proof.
  unfold balanced, updatedProgress. simpl.
  destruct (0 <? n); simpl; auto.
Qed.

Section Balance.

Context {S : Type} `{CodeStore S}.
Variables (BATCH_SIZE MAX_ERRORS : nat) (brandId : string)
          (productId : option string) (userId : string) (io : bool).
Variables (jobId filePath fileType : string).

Lemma started_progress startTime (st : @State S) :
  Job.progress (job (started userId io jobId startTime st))
  = Job.progress (job st).
Proof.
  unfold started, bind, modify, saveJob, emitProgress, ret.
  destruct io; reflexivity.
Qed.

Lemma finished_progress endTime res (st : @State S) :
  Job.progress (job (finished userId io jobId filePath endTime res st))
  = Job.progress (job st).
Proof.
  unfold finished, bind, modify, saveJob, emitProgress, incTotalCodes,
    cleanupFile, ret.
  destruct io; reflexivity.
Qed.

(** C1 (amended): for a job whose counters add up when it is loaded, the
    stored counters satisfy [processed = successful + failed + duplicates]
    after every event of the run, the flushes and the completion among
    them.  These counters cover the rows submitted in a batch.  The rows
    dropped at extraction are counted in the [failed] of the returned
    result only: when a delimited-text run returns, the [processed],
    [successful] and [duplicates] of its result are the growth of the
    stored counters and its [failed] is the growth of the stored
    [failed] plus the number of dropped rows. *)
Theorem stored_counters_add_up (j : Job.t) (file : ParsedFile)
    (startTime endTime : Z) (s : S) (brand : option Z) :
  balanced (Job.progress j) ->
  let o := processBulkUpload BATCH_SIZE MAX_ERRORS brandId productId userId io
             jobId filePath fileType (Some j) file startTime endTime s brand in
  Forall (fun db => balanced (Job.progress db)) (storedStates (out_events o) j)
  /\ (exists jf, out_job o = Some jf /\ balanced (Job.progress jf))
  /\ (fileType = "csv" ->
      forall rows r, file = Parsed rows -> out_result o = Return r ->
      exists jf, out_job o = Some jf
        /\ Result.processed r
           = Progress.processed (Job.progress jf)
             - Progress.processed (Job.progress j)
        /\ Result.successful r
           = Progress.successful (Job.progress jf)
             - Progress.successful (Job.progress j)
        /\ Result.duplicates r
           = Progress.duplicates (Job.progress jf)
             - Progress.duplicates (Job.progress j)
        /\ Result.failed r
           = Progress.failed (Job.progress jf)
             - Progress.failed (Job.progress j) + droppedRows rows).
Proof.
  intros Hbal o.
  destruct (processBulkUpload_found BATCH_SIZE MAX_ERRORS brandId productId
              userId io jobId filePath fileType j file startTime endTime s brand)
    as (Hres & Hjob & _ & _ & Hev).
  fold o in Hres, Hjob, Hev.
  unshelve epose proof
    (runJob_invariant BATCH_SIZE MAX_ERRORS brandId productId userId io
       jobId filePath fileType
       (fun j => balanced (Job.progress j))
       (fun j => balanced (Job.progress j))
       (fun j => balanced (Job.progress j))
       _ _ _ _ _ _ _ file startTime endTime s brand j Hbal) as Hinv;
    simpl; auto.
  { intros j' stats. apply balanced_batch. }
  { intros _ j' n. apply balanced_total. }
  { intros j' st sm m Hj'. rewrite addError_doc_progress. exact Hj'. }
  destruct Hinv as (Hevents & Hfinal & _).
  rewrite <- Hev in Hevents.
  split; [apply storedStates_progress; assumption|].
  split; [eexists; split; [exact Hjob | exact Hfinal]|].
  intros Hcsv rows r -> Hr.
  eexists. split; [exact Hjob|].
  rewrite Hres in Hr. clear Hres Hjob Hev Hevents Hfinal o.
  rewrite runJob_stages in *. simpl in *.
  destruct (totalCodes (started userId io jobId startTime (initState s brand j)));
    [|discriminate].
  unfold strategy in *. rewrite Hcsv in *. simpl in *.
  destruct (processCSV _ _ _ _ _ _ _ _) as [[res|m] st2] eqn:Hcsvrun;
    simpl in *; [|discriminate].
  injection Hr as ->.
  apply processCSV_result in Hcsvrun. simpl in Hcsvrun.
  rewrite started_progress in Hcsvrun. simpl in Hcsvrun.
  rewrite finished_progress. exact Hcsvrun.
Qed.

End Balance.

(** A file of the two rows "ABCDEFGH" and "": the second row is dropped at
    extraction. *)
Example dropped_row_run :
  let o := Scenario.run 1000 "csv" ["ABCDEFGH"; ""] in
  out_result o
  = Return (Result.mk 1 1 1 0 [ErrorEntry.mk 2 "" emptyCodeMessage])
  /\ (Job.progress <$> out_job o)
     = Some (Progress.mk 0 1 1 0 0 (JsNumber.Num 0)).
Proof. vm_compute. split; reflexivity. Qed.

(** C1, as stated, fails on that file: the row dropped at extraction is
    not in the stored [failed], and the counters of the returned result,
    where it is counted as failed, do not add up. *)
Lemma dropped_row_is_not_in_stored_failed :
  droppedRows (map (fun c => [("code", Some c)]) ["ABCDEFGH"; ""]) = 1
  /\ (Progress.failed <$>
        (Job.progress <$> out_job (Scenario.run 1000 "csv" ["ABCDEFGH"; ""])))
     = Some 0
  /\ exists r, out_result (Scenario.run 1000 "csv" ["ABCDEFGH"; ""]) = Return r
       /\ Result.processed r
          <> Result.successful r + Result.failed r + Result.duplicates r.
Proof.
  split; [reflexivity|]. split; [vm_compute; reflexivity|].
  eexists. split; [vm_compute; reflexivity|]. simpl. lia.
Qed.

Lemma stored_counters_add_up_witness :
  Forall (fun db => balanced (Job.progress db))
    (storedStates (out_events (Scenario.run 1000 "csv" ["ABCDEFGH"; ""]))
       (Scenario.newJob "csv")).
Proof.
  apply (@stored_counters_add_up _ Scenario.store 1000 100 "brand-1" None
           "user-1" true "job-1" "/uploads/codes" "csv" (Scenario.newJob "csv")
           (Scenario.file ["ABCDEFGH"; ""]) 1000 3000 ∅ (Some 0)).
  reflexivity.
Defined.

(** ** Runs against the store with the unique index *)

Section FilterDuplicates.

Variables (brandId : string) (productId : option string).

(** The loop "Filter duplicates" splits the batch by membership in the
    set of existing codes. *)
Lemma filterDuplicates_spec (X : gset string) (items : list CodeItem.t) :
  forall newCodes dups errs,
  filterDuplicates brandId productId X items newCodes dups errs
  = (newCodes
       ++ map (codeDoc brandId productId)
            (filter (fun it => CodeItem.code it ∉ X) items),
     dups + Z.of_nat (length (filter (fun it => CodeItem.code it ∈ X) items)),
     errs ++ map duplicateError (filter (fun it => CodeItem.code it ∈ X) items)).
Proof.
  induction items as [|item rest IH]; intros newCodes dups errs; simpl.
  - rewrite !app_nil_r, Z.add_0_r. reflexivity.
  - rewrite !filter_cons.
    destruct (decide (CodeItem.code item ∈ X)) as [Hin|Hin].
    + rewrite bool_decide_eq_true_2 by exact Hin. rewrite IH.
      destruct (decide (CodeItem.code item ∉ X)) as [Hn|_]; [tauto|].
      simpl. rewrite <- app_assoc. simpl.
      match goal with
      | |- context [Z.of_nat (S ?k)] =>
          replace (dups + Z.of_nat (S k)) with (dups + 1 + Z.of_nat k) by lia
      end.
      reflexivity.
    + rewrite bool_decide_eq_false_2 by exact Hin. rewrite IH.
      destruct (decide (CodeItem.code item ∉ X)) as [_|Hn]; [|tauto].
      simpl. rewrite <- app_assoc. reflexivity.
Qed.

End FilterDuplicates.

Section UniqueStoreFacts.

Variable order : list (nat * CodeDoc.t) -> list (nat * CodeDoc.t).
Hypothesis order_perm : forall l, order l ≡ₚ l.

Lemma insertOne_fold (l : list (nat * CodeDoc.t)) :
  forall s errs s' errs',
  fold_left UniqueStore.insertOne l (s, errs) = (s', errs') ->
  s' = s ∪ list_to_set (map (fun d => CodeDoc.code d.2) l)
  /\ (length errs' + size s' = length errs + length l + size s)%nat
  /\ (Forall isDuplicateError errs -> Forall isDuplicateError errs').
Proof.
  induction l as [|d l IH]; intros s errs s' errs' Hfold; simpl in *.
  - injection Hfold as <- <-. split; [set_solver|]. split; [lia | auto].
  - destruct (bool_decide (CodeDoc.code d.2 ∈ s)) eqn:Hin.
    + apply bool_decide_eq_true in Hin.
      apply IH in Hfold as (-> & Hlen & Hdup).
      split; [set_solver|]. split.
      * rewrite length_app in Hlen. simpl in Hlen. lia.
      * intros Herrs. apply Hdup, Forall_app. split; [exact Herrs|].
        constructor; [reflexivity | constructor].
    + apply bool_decide_eq_false in Hin.
      apply IH in Hfold as (-> & Hlen & Hdup).
      split; [set_solver|]. split; [|exact Hdup].
      assert (Hs : size ({[CodeDoc.code d.2]} ∪ s) = Datatypes.S (size s)).
      { rewrite size_union by set_solver. rewrite size_singleton. reflexivity. }
      rewrite Hs in Hlen. lia.
Qed.

Lemma codes_of_indexed (docs : list CodeDoc.t) :
  forall f : nat -> CodeDoc.t -> nat * CodeDoc.t,
  (forall i d, (f i d).2 = d) ->
  map (fun d : nat * CodeDoc.t => CodeDoc.code d.2) (imap f docs)
  = map CodeDoc.code docs.
Proof.
  induction docs as [|d docs IH]; intros f Hf; [reflexivity|].
  rewrite imap_cons. simpl. rewrite Hf. f_equal.
  apply IH. intros i d'. apply Hf.
Qed.

(** An unordered insert adds the codes of the documents to the store;
    every document is inserted or refused as a duplicate, and the store
    grows by the number of documents inserted. *)
Lemma insertDocs_spec (s : gset string) (docs : list CodeDoc.t) :
  let r := UniqueStore.insertDocs order s docs in
  r.2 = s ∪ list_to_set (map CodeDoc.code docs)
  /\ match r.1 with
     | Resolved result =>
         result = docs /\ (size r.2 = size s + length docs)%nat
     | Rejected e =>
         BulkError.code e = Some duplicateKey
         /\ exists wes, BulkError.writeErrors e = Some wes
              /\ (length wes + size r.2 = length docs + size s)%nat
     end.
Proof.
  unfold UniqueStore.insertDocs.
  destruct (fold_left UniqueStore.insertOne (order (imap pair docs)) (s, []))
    as [s' errs] eqn:Hfold.
  apply insertOne_fold in Hfold as (Hs & Hlen & Hdup).
  assert (Hcodes : list_to_set
                     (map (fun d : nat * CodeDoc.t => CodeDoc.code d.2)
                        (order (imap pair docs)))
                   =@{gset string} list_to_set (map CodeDoc.code docs)).
  { rewrite <- (codes_of_indexed docs pair) by reflexivity.
    apply list_to_set_perm_L. apply Permutation_map, order_perm. }
  rewrite Hcodes in Hs.
  rewrite (Permutation_length (order_perm _)), length_imap in Hlen.
  simpl in Hlen.
  specialize (Hdup (List.Forall_nil _)).
  destruct errs as [|e errs]; simpl in *.
  - split; [exact Hs|]. split; [reflexivity | lia].
  - split; [exact Hs|]. split.
    + inversion Hdup as [|? ? He _]. rewrite He. reflexivity.
    + eexists. split; [reflexivity|]. simpl in *. lia.
Qed.

Lemma filter_split_length {A} (P : A -> Prop) `{forall x, Decision (P x)}
    (l : list A) :
  (length (filter P l) + length (filter (fun x => ~ P x) l) = length l)%nat.
Proof.
  induction l as [|x l IH]; [reflexivity|].
  rewrite !filter_cons.
  destruct (decide (P x)) as [Hp|Hp].
  - destruct (decide (~ P x)) as [Hn|_]; [tauto|]. simpl. lia.
  - destruct (decide (~ P x)) as [_|Hn]; [|tauto]. simpl. lia.
Qed.

Local Abbreviation US := (UniqueStore.instance order).

Variables (brandId : string) (productId : option string)
          (userId : string) (io : bool).

(** A batch against the store with the unique index: the call returns,
    the store holds the codes of the batch afterwards, the successes are
    the growth of the store, every other entry is a duplicate and none
    is a failure. *)
Lemma unique_processBatch (batch : list CodeItem.t) (st : @State (gset string)) :
  exists stats st',
    @processBatch _ US brandId productId userId io batch st = (Return stats, st')
    /\ store st' = store st ∪ list_to_set (batchCodes batch)
    /\ Stats.processed stats = Z.of_nat (length batch)
    /\ Stats.successful stats
       = Z.of_nat (size (store st')) - Z.of_nat (size (store st))
    /\ Stats.duplicates stats
       = Z.of_nat (length batch) - Stats.successful stats
    /\ Stats.failed stats = 0.
Proof.
  set (s := store st).
  set (X := list_to_set (elements (s ∩ list_to_set (batchCodes batch)))
            : gset string).
  assert (HX : forall it, it ∈ batch -> (CodeItem.code it ∈ X <-> CodeItem.code it ∈ s)).
  { intros it Hit. unfold X. rewrite list_to_set_elements_L.
    rewrite elem_of_intersection, elem_of_list_to_set.
    unfold batchCodes. rewrite list_elem_of_In, in_map_iff.
    split; [tauto|]. intros Hs. split; [exact Hs|].
    exists it. split; [reflexivity | apply list_elem_of_In, Hit]. }
  set (dupItems := filter (fun it => CodeItem.code it ∈ X) batch).
  set (newItems := filter (fun it => CodeItem.code it ∉ X) batch).
  assert (Hlen : (length dupItems + length newItems = length batch)%nat)
    by apply filter_split_length.
  assert (Hunion : s ∪ list_to_set (map CodeDoc.code
                                      (map (codeDoc brandId productId) newItems))
                   = s ∪ list_to_set (batchCodes batch)).
  { apply set_eq. intros c.
    rewrite !elem_of_union, !elem_of_list_to_set.
    rewrite map_map. unfold batchCodes.
    rewrite !list_elem_of_In, !in_map_iff. split.
    - intros [Hs|(it & <- & Hit)]; [left; exact Hs|].
      right. exists it. split; [reflexivity|].
      apply list_elem_of_In. apply list_elem_of_In in Hit.
      apply list_elem_of_filter in Hit. tauto.
    - intros [Hs|(it & <- & Hit)]; [left; exact Hs|].
      apply list_elem_of_In in Hit.
      destruct (decide (CodeItem.code it ∈ X)) as [Hx|Hx].
      + left. apply HX; assumption.
      + right. exists it. split; [reflexivity|].
        apply list_elem_of_In, list_elem_of_filter. tauto. }
  unfold processBatch, tryCatch, bind, gets, modify, throw, ret.
  simpl find. unfold UniqueStore.findCodes.
  fold (batchCodes batch). fold s. fold X.
  rewrite filterDuplicates_spec. fold dupItems. fold newItems. simpl app.
  cbv iota beta.
  unfold insertNewCodes.
  destruct (map (codeDoc brandId productId) newItems) as [|d docs] eqn:Hdocs.
  - assert (Hnew : length newItems = 0%nat).
    { apply (f_equal length) in Hdocs. rewrite length_map in Hdocs. exact Hdocs. }
    simpl in Hunion. rewrite union_empty_r_L in Hunion.
    unfold updateProgress, emitProgress, modify, ret. simpl.
    destruct io; simpl; do 2 eexists; (split; [reflexivity|]); simpl;
      fold s; (split; [exact Hunion|]); repeat split; lia.
  - assert (Hnew : length newItems = length (d :: docs)).
    { rewrite <- Hdocs, length_map. reflexivity. }
    change (store (set_errors _ st)) with s.
    simpl insertMany.
    pose proof (insertDocs_spec s (d :: docs)) as Hins. cbv zeta in Hins.
    destruct (UniqueStore.insertDocs order s (d :: docs)) as [outcome s'].
    cbn [fst snd] in Hins. destruct Hins as [Hs' Hout].
    rewrite Hunion in Hs'.
    destruct outcome as [result|e].
    + destruct Hout as [-> Hsize].
      unfold updateProgress, emitProgress, modify, ret. simpl.
      destruct io; simpl; do 2 eexists; (split; [reflexivity|]); simpl;
        fold s; (split; [exact Hs'|]); simpl in *; repeat split; lia.
    + destruct Hout as (Hcode & wes & Hwes & Hsize).
      rewrite Hcode, Hwes. simpl.
      unfold updateProgress, emitProgress, modify, ret. simpl.
      destruct io; simpl; do 2 eexists; (split; [reflexivity|]); simpl;
        fold s; (split; [exact Hs'|]); simpl in *; repeat split; lia.
Qed.

End UniqueStoreFacts.

Section UniqueCsv.

Variable order : list (nat * CodeDoc.t) -> list (nat * CodeDoc.t).
Hypothesis order_perm : forall l, order l ≡ₚ l.

Local Abbreviation US := (UniqueStore.instance order).

Variables (BATCH_SIZE MAX_ERRORS : nat) (brandId : string)
          (productId : option string) (userId : string) (io : bool).

Lemma Progressed_refl (st : State) : Progressed st st [] 0.
Proof.
  unfold Progressed. simpl. rewrite union_empty_r_L.
  repeat split; lia.
Qed.

Lemma Progressed_trans (st st1 st2 : State) (cs1 cs2 : list string) (k1 k2 : Z) :
  Progressed st st1 cs1 k1 -> Progressed st1 st2 cs2 k2 ->
  Progressed st st2 (cs1 ++ cs2) (k1 + k2).
Proof.
  intros (Hs1 & Hp1 & Hu1 & Hd1 & Hf1) (Hs2 & Hp2 & Hu2 & Hd2 & Hf2).
  unfold Progressed. rewrite Hs2, Hs1, list_to_set_app_L, length_app.
  split; [set_solver|]. repeat split; lia.
Qed.

Lemma afterIntake_Progressed (row : Row) (st : State) :
  Progressed st (afterIntake row st) (acceptedCodes [row]) (droppedRows [row]).
Proof.
  unfold afterIntake, acceptedCodes, droppedRows, accepted, Progressed,
    rowDropped, batchCodes.
  simpl. rewrite filter_cons, filter_nil.
  destruct (extractCode row) as [[c|]|m]; simpl;
    try destruct (JsString.nonempty c); simpl;
    rewrite ?map_app, ?list_to_set_app_L, ?length_app; simpl;
    (split; [set_solver|]); repeat split; lia.
Qed.

(** A flush against the store with the unique index returns and empties
    the batch. *)
Lemma unique_flush (st : State) :
  exists st',
    @flush _ US brandId productId userId io st = (Return tt, st')
    /\ codes st' = [] /\ Progressed st st' [] 0.
Proof.
  unfold flush, bind, gets, modify.
  destruct (unique_processBatch order order_perm brandId productId userId io
              (codes st) st)
    as (stats & st1 & Hrun & Hstore & Hproc & Hsucc & Hdup & Hfail).
  pose proof (processBatch_cases (H := US) brandId productId userId io
                (codes st) st) as Hc.
  simpl in Hc. rewrite Hrun in Hc. simpl in Hc.
  destruct Hc as [(_ & Hcodes & _ & Hp & Hs & Hf & Hd) _].
  rewrite Hrun. simpl. eexists. split; [reflexivity|].
  split; [reflexivity|].
  unfold Progressed. simpl. rewrite Hstore, Hp, Hs, Hf, Hd, Hproc, Hdup, Hfail.
  split; [set_solver|]. rewrite Hsucc, Hstore. repeat split; lia.
Qed.

Lemma unique_onData (row : Row) (st : State) :
  exists st',
    @onData _ US BATCH_SIZE brandId productId userId io row st = (Return tt, st')
    /\ Progressed st st' (acceptedCodes [row]) (droppedRows [row]).
Proof.
  rewrite onData_unfold.
  pose proof (afterIntake_Progressed row st) as Hin.
  destruct (flushDue BATCH_SIZE row st).
  - destruct (unique_flush (afterIntake row st)) as (st' & Hrun & _ & Hfl).
    exists st'. split; [exact Hrun|].
    pose proof (Progressed_trans _ _ _ _ _ _ _ Hin Hfl) as Ht.
    rewrite app_nil_r, Z.add_0_r in Ht. exact Ht.
  - eexists. split; [reflexivity | exact Hin].
Qed.

Lemma acceptedCodes_cons (row : Row) (rows : list Row) :
  acceptedCodes (row :: rows) = acceptedCodes [row] ++ acceptedCodes rows.
Proof.
  unfold acceptedCodes. simpl.
  destruct (extractCode row) as [[c|]|m]; try reflexivity.
  destruct (JsString.nonempty c); reflexivity.
Qed.

Lemma droppedRows_single (row : Row) (rows : list Row) :
  droppedRows (row :: rows) = droppedRows [row] + droppedRows rows.
Proof.
  rewrite !droppedRows_cons. unfold droppedRows at 2. simpl. lia.
Qed.

Lemma unique_forEach (rows : list Row) : forall st : State,
  exists st',
    forEach (@onData _ US BATCH_SIZE brandId productId userId io) rows st
    = (Return tt, st')
    /\ Progressed st st' (acceptedCodes rows) (droppedRows rows).
Proof.
  induction rows as [|row rows IH]; intros st; cbn [forEach].
  - eexists. split; [reflexivity | apply Progressed_refl].
  - unfold bind.
    destruct (unique_onData row st) as (st1 & Hrun & Hp1).
    rewrite Hrun.
    destruct (IH st1) as (st2 & Hrest & Hp2).
    exists st2. split; [exact Hrest|].
    rewrite acceptedCodes_cons, droppedRows_single.
    eapply Progressed_trans; eassumption.
Qed.

(** The delimited-text strategy against the store with the unique index:
    it returns; the codes the rows yield are all submitted; the successes
    are the codes that were not in the store, counted once; the other
    codes submitted are duplicates; the failures are the rows dropped at
    extraction; and the store holds every code submitted. *)
Lemma unique_processCSV (rows : list Row) (st : State) :
  exists r st',
    @processCSV _ US BATCH_SIZE MAX_ERRORS brandId productId userId io
      (Parsed rows) st = (Return r, st')
    /\ store st' = store st ∪ list_to_set (acceptedCodes rows)
    /\ Result.processed r = Z.of_nat (length (acceptedCodes rows))
    /\ Result.successful r
       = Z.of_nat (size (list_to_set (acceptedCodes rows) ∖ store st))
    /\ Result.duplicates r = Result.processed r - Result.successful r
    /\ Result.failed r = droppedRows rows
    /\ totalCodes st' = totalCodes st.
Proof.
  unfold processCSV, bind, modify. simpl.
  destruct (unique_forEach rows (freshLocals st))
    as (st1 & Hloop & Hs & Hp & Hu & Hd & Hf).
  rewrite Hloop. simpl in *.
  rewrite union_empty_r_L in Hs.
  assert (Htc : totalCodes st1 = totalCodes st).
  { pose proof (preserves_forEach (fun s' => totalCodes s' = totalCodes st)
                  (@onData _ US BATCH_SIZE brandId productId userId io) rows)
      as Hpres.
    unshelve epose proof (Hpres _ (freshLocals st) eq_refl) as Hpres'.
    { intros row st0 Heq. rewrite onData_unfold.
      assert (Hai : totalCodes (afterIntake row st0) = totalCodes st0).
      { unfold afterIntake, rowDropped.
        destruct (extractCode row) as [[c|]|m]; try reflexivity.
        destruct (JsString.nonempty c); reflexivity. }
      destruct (flushDue BATCH_SIZE row st0); simpl; [|congruence].
      unfold flush, bind, gets, modify.
      pose proof (processBatch_cases (H := US) brandId productId userId io
                    (codes (afterIntake row st0)) (afterIntake row st0)) as Hc.
      simpl in Hc. destruct Hc as [(Ht & _) _].
      destruct (processBatch _ _ _ _ _ _) as [[stats|m] st2]; simpl in *;
        congruence. }
    rewrite Hloop in Hpres'. exact Hpres'. }
  assert (Hsize : forall A B : gset string,
             (size (A ∪ B) = size A + size (B ∖ A))%nat)
    by (intros; apply size_union_alt).
  unfold onEnd, bind, gets, currentResult.
  destruct (0 <? length (codes st1))%nat eqn:Hpending.
  - destruct (unique_processBatch order order_perm brandId productId userId io
                (codes st1) st1)
      as (stats & st2 & Hrun & Hstore & Hproc & Hsucc & Hdup & Hfail).
    pose proof (processBatch_cases (H := US) brandId productId userId io
                  (codes st1) st1) as Hc.
    simpl in Hc. rewrite Hrun in Hc. simpl in Hc.
    destruct Hc as [(Ht2 & _ & _ & Hp2 & Hs2 & Hf2 & Hd2) _].
    rewrite Hrun. unfold modify. simpl.
    do 2 eexists. split; [reflexivity|]. simpl.
    assert (Hfinal : store st2 = store st ∪ list_to_set (acceptedCodes rows))
      by (rewrite Hstore; exact Hs).
    rewrite Hp2, Hs2, Hf2, Hd2.
    split; [exact Hfinal|].
    rewrite Hfinal, Hsize in Hsucc.
    repeat split; try lia. congruence.
  - apply Nat.ltb_ge in Hpending.
    assert (Hnil : codes st1 = []) by (destruct (codes st1); simpl in *; [reflexivity | lia]).
    rewrite Hnil in *. simpl in *. rewrite union_empty_r_L in Hs.
    do 2 eexists. split; [reflexivity|]. simpl.
    split; [exact Hs|]. rewrite Hs, Hsize in Hu.
    repeat split; try lia. exact Htc.
Qed.

End UniqueCsv.

Section UniqueRun.

Variable order : list (nat * CodeDoc.t) -> list (nat * CodeDoc.t).
Hypothesis order_perm : forall l, order l ≡ₚ l.

Local Abbreviation US := (UniqueStore.instance order).

Variables (BATCH_SIZE MAX_ERRORS : nat) (brandId : string)
          (productId : option string) (userId : string) (io : bool).
Variables (jobId filePath : string).

Lemma started_frame startTime (st : @State (gset string)) :
  let st1 := started userId io jobId startTime st in
  store st1 = store st /\ totalCodes st1 = totalCodes st
  /\ Job.status (job st1) = Processing.
Proof.
  unfold started, bind, modify, saveJob, emitProgress, ret.
  destruct io; repeat split.
Qed.

Lemma started_events startTime (s : gset string) brand (j : Job.t) :
  Forall (eventDoc (fun _ => True))
    (events (started userId io jobId startTime (initState s brand j))).
Proof.
  unfold started, bind, modify, saveJob, emitProgress, ret.
  destruct io; simpl; repeat constructor.
  exists jobId, (markProcessing startTime j). split; [exact Logic.I | reflexivity].
Qed.

Lemma finished_frame endTime res (st : @State (gset string)) :
  let st2 := finished userId io jobId filePath endTime res st in
  store st2 = store st
  /\ totalCodes st2 = (fun t => t + Result.successful res) <$> totalCodes st
  /\ Job.status (job st2) = Completed.
Proof.
  unfold finished, bind, modify, saveJob, emitProgress, incTotalCodes,
    cleanupFile, ret.
  destruct io; repeat split.
Qed.

(** A whole delimited-text run against the store with the unique index,
    for a brand that exists: the job completes; the codes the rows yield
    are submitted, the ones new to the store succeed once each and the
    others are duplicates; the rows dropped at extraction are the
    failures of the result and leave the stored counters alone. *)
Lemma unique_csv_run (rows : list Row) (j : Job.t) (startTime endTime : Z)
    (s : gset string) (t : Z) :
  let o := @processBulkUpload _ US BATCH_SIZE MAX_ERRORS brandId productId
             userId io jobId filePath "csv" (Some j) (Parsed rows)
             startTime endTime s (Some t) in
  let n := Z.of_nat (length (acceptedCodes rows)) in
  let fresh := Z.of_nat (size (list_to_set (acceptedCodes rows) ∖ s)) in
  exists r jf,
    out_result o = Return r /\ out_job o = Some jf
    /\ out_store o = s ∪ list_to_set (acceptedCodes rows)
    /\ out_totalCodes o = Some (t + fresh)
    /\ Job.status jf = Completed
    /\ (Result.processed r = n /\ Result.successful r = fresh
        /\ Result.duplicates r = n - fresh
        /\ Result.failed r = droppedRows rows)
    /\ (Progress.total (Job.progress jf) = Progress.total (Job.progress j)
        /\ Progress.processed (Job.progress jf)
           = Progress.processed (Job.progress j) + n
        /\ Progress.successful (Job.progress jf)
           = Progress.successful (Job.progress j) + fresh
        /\ Progress.failed (Job.progress jf) = Progress.failed (Job.progress j)
        /\ Progress.duplicates (Job.progress jf)
           = Progress.duplicates (Job.progress j) + (n - fresh))
    /\ (totalUnset (Job.progress j) -> totalUnset (Job.progress jf)).
Proof.
  intros o n fresh.
  destruct (processBulkUpload_found (H := US) BATCH_SIZE MAX_ERRORS brandId
              productId userId io jobId filePath "csv" j (Parsed rows)
              startTime endTime s (Some t))
    as (Hres & Hjob & Hstore & Htc & _).
  fold o in Hres, Hjob, Hstore, Htc.
  rewrite runJob_stages in Hres, Hjob, Hstore, Htc. cbv zeta in *.
  set (st1 := started userId io jobId startTime (initState s (Some t) j)) in *.
  destruct (started_frame startTime (initState s (Some t) j))
    as (Hs1 & Ht1 & _).
  fold st1 in Hs1, Ht1. simpl in Hs1, Ht1.
  rewrite Ht1 in *.
  unfold strategy in *. simpl in Hres, Hjob, Hstore, Htc.
  destruct (unique_processCSV order order_perm BATCH_SIZE MAX_ERRORS brandId
              productId userId io rows st1)
    as (r & st2 & Hrun & Hs2 & Hp & Hsu & Hd & Hf & Ht2).
  pose proof (processCSV_result (H := US) BATCH_SIZE MAX_ERRORS brandId
                productId userId io rows st1 st2 r Hrun) as Hgrow.
  pose proof (processCSV_preserves (H := US) BATCH_SIZE MAX_ERRORS brandId
                productId userId io
                (fun j' => Progress.total (Job.progress j')
                           = Progress.total (Job.progress j))
                (fun _ => True)) as Htotal.
  pose proof (processCSV_preserves (H := US) BATCH_SIZE MAX_ERRORS brandId
                productId userId io
                (fun j' => totalUnset (Job.progress j'))
                (fun _ => True)) as Hunset.
  rewrite Hrun in *.
  destruct (finished_frame endTime r st2) as (Hs3 & Ht3 & Hst3).
  simpl in Hres, Hjob, Hstore, Htc.
  exists r. eexists. split; [exact Hres|]. split; [exact Hjob|].
  cbv zeta in Hgrow. unfold st1 in Hgrow.
  rewrite started_progress in Hgrow. simpl in Hgrow.
  destruct Hgrow as (Hg1 & Hg2 & Hg3 & Hg4).
  rewrite Hs1 in Hs2, Hsu. fold fresh in Hsu. fold n in Hp.
  split; [rewrite Hstore, Hs3; exact Hs2|].
  split; [rewrite Htc, Ht3, Ht2, Ht1; simpl; rewrite Hsu; reflexivity|].
  split; [exact Hst3|].
  split; [repeat split; lia|].
  rewrite finished_progress.
  split.
  - split; [|repeat split; lia].
    assert (Hbatch : forall j' stats,
               Progress.total (Job.progress j') = Progress.total (Job.progress j) ->
               Stats.failed stats
               = Stats.processed stats - Stats.successful stats
                 - Stats.duplicates stats ->
               Progress.total
                 (Job.progress
                    (updateProgress_doc j' (batchUpdate (Job.progress j') stats)))
               = Progress.total (Job.progress j)).
    { intros j' stats Hj' _.
      pose proof (updatedProgress_batch (Job.progress j') stats) as Hu.
      simpl in Hu. destruct Hu as (Hu & _). simpl. congruence. }
    assert (Hinv : Inv (fun j' => Progress.total (Job.progress j')
                                  = Progress.total (Job.progress j))
                     (fun _ => True) st1).
    { split; [unfold st1; rewrite started_progress; reflexivity|].
      apply started_events. }
    pose proof (Htotal (fun _ _ => Logic.I) Hbatch (Parsed rows) st1 Hinv) as Hk.
    rewrite Hrun in Hk. destruct Hk as [Hk _]. exact Hk.
  - intros Hfresh.
    assert (Hbatch : forall j' stats,
               totalUnset (Job.progress j') ->
               Stats.failed stats
               = Stats.processed stats - Stats.successful stats
                 - Stats.duplicates stats ->
               totalUnset
                 (Job.progress
                    (updateProgress_doc j' (batchUpdate (Job.progress j') stats)))).
    { intros j' stats Hj' _. apply totalUnset_batch, Hj'. }
    assert (Hinv : Inv (fun j' => totalUnset (Job.progress j'))
                     (fun _ => True) st1).
    { split; [unfold st1; rewrite started_progress; exact Hfresh|].
      apply started_events. }
    pose proof (Hunset (fun _ _ => Logic.I) Hbatch (Parsed rows) st1 Hinv) as Hk.
    rewrite Hrun in Hk. destruct Hk as [Hk _]. exact Hk.
Qed.

End UniqueRun.

(** ** The scenario of the four rows *)

Section ScenarioCsv.

Variable order : list (nat * CodeDoc.t) -> list (nat * CodeDoc.t).
Hypothesis order_perm : forall l, order l ≡ₚ l.

Variables (BATCH_SIZE MAX_ERRORS : nat) (brandId : string)
          (productId : option string) (userId : string) (io : bool).
Variables (jobId filePath : string).

(** C2 (amended): the rows "ABCDEFGH", "ABCDEFGH", "" and "XY", read by
    the delimited-text strategy as one job with a batch size of at
    least 4, for a new job, a brand that exists and a store that does
    not hold "ABCDEFGH": the run returns with successful = 1,
    duplicates = 1, failed = 2 and processed = 2, the job is completed,
    and its stored counters are processed = 2, successful = 1,
    duplicates = 1, failed = 0, total = 0 and percentage = 0. *)
Theorem scenario_by_csv (j : Job.t) (startTime endTime : Z)
    (s : gset string) (t : Z) :
  (4 <= BATCH_SIZE)%nat ->
  "ABCDEFGH" ∉ s ->
  Job.progress j = Progress.defaults ->
  let o := @processBulkUpload _ (UniqueStore.instance order) BATCH_SIZE
             MAX_ERRORS brandId productId userId io jobId filePath "csv"
             (Some j) (Scenario.file ["ABCDEFGH"; "ABCDEFGH"; ""; "XY"])
             startTime endTime s (Some t) in
  exists r jf,
    out_result o = Return r /\ out_job o = Some jf
    /\ Result.successful r = 1 /\ Result.duplicates r = 1
    /\ Result.failed r = 2 /\ Result.processed r = 2
    /\ Job.status jf = Completed
    /\ Job.progress jf = Progress.mk 0 2 1 0 1 (JsNumber.Num 0).
Proof.
  intros _ Hnew Hfresh o.
  destruct (unique_csv_run order order_perm BATCH_SIZE MAX_ERRORS brandId
              productId userId io jobId filePath
              (map (fun c => [("code", Some c)]) ["ABCDEFGH"; "ABCDEFGH"; ""; "XY"])
              j startTime endTime s t)
    as (r & jf & Hres & Hjob & _ & _ & Hst & Hr & Hp & Hunset).
  change (acceptedCodes _) with ["ABCDEFGH"; "ABCDEFGH"] in *.
  change (droppedRows _) with 2 in *.
  assert (Hsize : size (list_to_set ["ABCDEFGH"; "ABCDEFGH"] ∖ s) = 1%nat).
  { replace (list_to_set ["ABCDEFGH"; "ABCDEFGH"] ∖ s)
      with ({["ABCDEFGH"]} : gset string) by set_solver.
    apply size_singleton. }
  rewrite Hsize in *. simpl in Hr, Hp.
  exists r, jf. split; [exact Hres|]. split; [exact Hjob|].
  destruct Hr as (Hr1 & Hr2 & Hr3 & Hr4).
  repeat (split; [first [assumption | lia]|]).
  destruct Hunset as [Ht Hpct]; [rewrite Hfresh; split; reflexivity|].
  rewrite Hfresh in Hp. simpl in Hp.
  destruct Hp as (_ & Hp1 & Hp2 & Hp3 & Hp4).
  destruct (Job.progress jf) as [tot pr su fa du pc]; simpl in *.
  subst. reflexivity.
Qed.

End ScenarioCsv.

Lemma scenario_by_csv_witness :
  exists r jf,
    out_result (Scenario.run 1000 "csv" ["ABCDEFGH"; "ABCDEFGH"; ""; "XY"]) = Return r
    /\ out_job (Scenario.run 1000 "csv" ["ABCDEFGH"; "ABCDEFGH"; ""; "XY"]) = Some jf
    /\ Result.successful r = 1 /\ Result.duplicates r = 1
    /\ Result.failed r = 2 /\ Result.processed r = 2
    /\ Job.status jf = Completed
    /\ Job.progress jf = Progress.mk 0 2 1 0 1 (JsNumber.Num 0).
Proof.
  apply (scenario_by_csv (fun l => l) (fun l => Permutation_refl l) 1000 100
           "brand-1" None "user-1" true "job-1" "/uploads/codes"
           (Scenario.newJob "csv") 1000 3000 ∅ 0).
  - lia.
  - apply not_elem_of_empty.
  - reflexivity.
Defined.

(** The same rows read by the spreadsheet strategy: the total is set to 4,
    and the last row, which throws at extraction, skips the flush of the
    batch: nothing is written. *)
Example scenario_by_xlsx :
  let o := Scenario.run 1000 "xlsx" ["ABCDEFGH"; "ABCDEFGH"; ""; "XY"] in
  out_result o
  = Return (Result.mk 0 0 2 0
              [ErrorEntry.mk 4 "" emptyCodeMessage;
               ErrorEntry.mk 5 "" invalidLengthMessage])
  /\ (Job.progress <$> out_job o) = Some (Progress.mk 4 0 0 0 0 (JsNumber.Num 0))
  /\ (Job.status <$> out_job o) = Some Completed
  /\ out_store o = ∅.
Proof. vm_compute. repeat split. Qed.

(** C2, as stated, fails for both strategies: the delimited-text run ends
    with total = 0 and percentage = 0, the spreadsheet run with total = 4,
    no success, no duplicate and percentage = 0. *)
Lemma scenario_never_reaches_100 :
  (Job.progress <$>
     out_job (Scenario.run 1000 "csv" ["ABCDEFGH"; "ABCDEFGH"; ""; "XY"]))
  = Some (Progress.mk 0 2 1 0 1 (JsNumber.Num 0))
  /\ (Job.progress <$>
        out_job (Scenario.run 1000 "xlsx" ["ABCDEFGH"; "ABCDEFGH"; ""; "XY"]))
     = Some (Progress.mk 4 0 0 0 0 (JsNumber.Num 0))
  /\ JsNumber.Num 0 <> JsNumber.Num 100.
Proof. split; [|split]; [vm_compute; reflexivity .. | discriminate]. Qed.

(** ** An identifier given twice *)

Lemma filter_other_length (c : string) (l : list string) :
  (length (filter (fun x => x ≠ c) l) + count_occ string_dec l c = length l)%nat.
Proof.
  induction l as [|x l IH]; [reflexivity|].
  rewrite filter_cons. simpl.
  destruct (string_dec x c) as [->|Hne].
  - destruct (decide (c ≠ c)) as [Hn|_]; [congruence|]. lia.
  - destruct (decide (x ≠ c)) as [_|Hn]; [simpl; lia | tauto].
Qed.

Lemma repeated_code_size (c : string) (l : list string) (s : gset string) :
  (0 < count_occ string_dec l c)%nat -> c ∉ s ->
  size (list_to_set l ∖ s)
  = Datatypes.S (size (list_to_set (filter (fun x => x ≠ c) l) ∖ s)).
Proof.
  intros Hocc Hnew.
  apply count_occ_In, list_elem_of_In in Hocc.
  replace (list_to_set l ∖ s)
    with ({[c]} ∪ (list_to_set (filter (fun x => x ≠ c) l) ∖ s) : gset string).
  - rewrite size_union, size_singleton; [reflexivity|].
    intros x Hx1 Hx2. apply elem_of_singleton in Hx1 as ->.
    apply elem_of_difference in Hx2 as [Hx2 _].
    apply elem_of_list_to_set, list_elem_of_filter in Hx2 as [Hx2 _]. congruence.
  - apply set_eq. intros x.
    rewrite elem_of_union, !elem_of_difference, elem_of_singleton,
      !elem_of_list_to_set, list_elem_of_filter.
    destruct (decide (x = c)) as [->|Hne]; tauto.
Qed.

Section Repeats.

Variable order : list (nat * CodeDoc.t) -> list (nat * CodeDoc.t).
Hypothesis order_perm : forall l, order l ≡ₚ l.

Variables (BATCH_SIZE MAX_ERRORS : nat) (brandId : string)
        (productId : option string) (userId : string) (io : bool).
Variables (jobId filePath : string).

(** Two documents with the same new code in one unordered insert: whatever
  the order in which the store takes them, one is inserted and the other
  is refused with a duplicate-key error. *)
Lemma repeat_in_batch_is_refused_once (s : gset string) (d1 d2 : CodeDoc.t) :
CodeDoc.code d1 = CodeDoc.code d2 -> CodeDoc.code d1 ∉ s ->
exists e w,
  UniqueStore.insertDocs order s [d1; d2]
  = (Rejected e, {[CodeDoc.code d1]} ∪ s)
  /\ BulkError.code e = Some duplicateKey
  /\ BulkError.writeErrors e = Some [w].
Proof.
intros Hsame Hnew.
pose proof (insertDocs_spec order order_perm s [d1; d2]) as Hins.
cbv zeta in Hins.
destruct (UniqueStore.insertDocs order s [d1; d2]) as [outcome s'].
cbn [fst snd] in Hins. destruct Hins as [Hs' Hout].
assert (Hset : s' = {[CodeDoc.code d1]} ∪ s).
{ rewrite Hs'. simpl. rewrite <- Hsame. set_solver. }
assert (Hsize : size s' = Datatypes.S (size s)).
{ rewrite Hset, size_union, size_singleton by set_solver. reflexivity. }
destruct outcome as [result|e].
- destruct Hout as [_ Hgrow]. simpl in Hgrow. lia.
- destruct Hout as (Hcode & wes & Hwes & Hlen). simpl in Hlen.
  destruct wes as [|w [|w' wes]]; simpl in Hlen; try lia.
  exists e, w. rewrite Hset. auto.
Qed.

(** In a delimited-text run, an identifier that the rows yield exactly
  twice and that the store does not hold adds one success and one
  duplicate to what the other identifiers of the file give. *)
Lemma csv_repeated_code (rows : list Row) (j : Job.t) (startTime endTime : Z)
  (s : gset string) (t : Z) (c : string) :
count_occ string_dec (acceptedCodes rows) c = 2%nat ->
c ∉ s ->
let others := filter (fun x => x ≠ c) (acceptedCodes rows) in
let fresh := Z.of_nat (size (list_to_set others ∖ s)) in
exists r,
  out_result
    (@processBulkUpload _ (UniqueStore.instance order) BATCH_SIZE MAX_ERRORS
       brandId productId userId io jobId filePath "csv" (Some j) (Parsed rows)
       startTime endTime s (Some t))
  = Return r
  /\ Result.successful r = 1 + fresh
  /\ Result.duplicates r = 1 + (Z.of_nat (length others) - fresh).
Proof.
intros Hocc Hnew others fresh.
destruct (unique_csv_run order order_perm BATCH_SIZE MAX_ERRORS brandId
            productId userId io jobId filePath rows j startTime endTime s t)
  as (r & jf & Hres & _ & _ & _ & _ & (Hp & Hs & Hd & _) & _).
exists r. split; [exact Hres|].
pose proof (filter_other_length c (acceptedCodes rows)) as Hlen.
rewrite Hocc in Hlen. fold others in Hlen.
rewrite (repeated_code_size c) in Hs, Hd by (assumption || lia).
fold others in Hs, Hd. unfold fresh. split; lia.
Qed.

End Repeats.

(** C5 fails on a spreadsheet of the rows "ABCDEFGH", "ABCDEFGH" and "XY":
    the last row throws at extraction inside the [try] block that also
    holds the test [i === rows.length - 1], the flush of the pending batch
    is skipped, and the run returns as completed with no success, no
    duplicate and an empty store. *)
Theorem spreadsheet_last_row_skips_flush :
  out_result (Scenario.run 1000 "xlsx" ["ABCDEFGH"; "ABCDEFGH"; "XY"])
  = Return (Result.mk 0 0 1 0 [ErrorEntry.mk 4 "" invalidLengthMessage])
  /\ out_store (Scenario.run 1000 "xlsx" ["ABCDEFGH"; "ABCDEFGH"; "XY"]) = ∅
  /\ (Job.status <$> out_job (Scenario.run 1000 "xlsx" ["ABCDEFGH"; "ABCDEFGH"; "XY"]))
     = Some Completed
  /\ (Job.progress <$> out_job (Scenario.run 1000 "xlsx" ["ABCDEFGH"; "ABCDEFGH"; "XY"]))
     = Some (Progress.mk 3 0 0 0 0 (JsNumber.Num 0)).
Proof. vm_compute. repeat split. Qed.

(** The same rows in the other order of the last two, and the same rows
    read by the delimited-text strategy: one success and one duplicate. *)
Example repeated_code_runs :
  out_result (Scenario.run 1000 "xlsx" ["ABCDEFGH"; "XY"; "ABCDEFGH"])
  = Return (Result.mk 2 1 1 1 [ErrorEntry.mk 3 "" invalidLengthMessage])
  /\ out_result (Scenario.run 1000 "csv" ["ABCDEFGH"; "ABCDEFGH"; "XY"])
     = Return (Result.mk 2 1 1 1 [ErrorEntry.mk 3 "" invalidLengthMessage]).
Proof. vm_compute. repeat split. Qed.

(** ** Errors of the bulk write *)

Section WriteErrors.

Context {S : Type} `{CodeStore S}.
Variables (BATCH_SIZE MAX_ERRORS : nat) (brandId : string)
          (productId : option string) (userId : string) (io : bool).
Variables (jobId filePath fileType : string).

Lemma duplicateKeyError_dec (e : BulkError.t) :
  duplicateKeyError e \/ ~ duplicateKeyError e.
Proof.
  unfold duplicateKeyError.
  destruct (BulkError.code e) as [c|]; [|right; intros [? _]; discriminate].
  destruct (BulkError.writeErrors e) as [wes|];
    [|right; intros [_ [? ?]]; discriminate].
  destruct (decide (c = duplicateKey)) as [->|Hne].
  - left. split; [reflexivity | eauto].
  - right. intros [[= ?] _]. contradiction.
Qed.

(** What [processBatch] does with a rejected bulk write. *)
Lemma processBatch_rejected (batch : list CodeItem.t) (st : State)
    (existing : list string) (e : BulkError.t) (s' : S) :
  find (store st) (batchCodes batch) = Return existing ->
  newDocs brandId productId existing batch <> [] ->
  insertMany (store st) (newDocs brandId productId existing batch)
  = (Rejected e, s') ->
  let r := processBatch brandId productId userId io batch st in
  (forall wes,
      BulkError.code e = Some duplicateKey ->
      BulkError.writeErrors e = Some wes ->
      r.1 = Return
              (Stats.mk (Z.of_nat (length batch))
                 (Z.of_nat (length (newDocs brandId productId existing batch))
                  - Z.of_nat (length wes))
                 0
                 (foundInStore existing batch + Z.of_nat (length wes))))
  /\ (~ duplicateKeyError e ->
      r.1 = Throw (batchErrorMessage (BulkError.message e))
      /\ job r.2 = job st /\ events r.2 = events st).
Proof.
  intros Hfind Hne Hins.
  unfold processBatch, tryCatch, bind, gets, modify, throw, ret.
  fold (batchCodes batch). rewrite Hfind.
  rewrite filterDuplicates_spec. simpl app. cbv iota beta.
  fold (newDocs brandId productId existing batch).
  fold (foundInStore existing batch).
  assert (Hlen : Z.of_nat (length batch)
                 = foundInStore existing batch
                   + Z.of_nat (length (newDocs brandId productId existing batch))).
  { unfold foundInStore, newDocs. rewrite length_map.
    pose proof (filter_split_length
                  (fun it => CodeItem.code it ∈ (list_to_set existing : gset string))
                  batch) as Hsplit.
    lia. }
  unfold insertNewCodes.
  destruct (newDocs brandId productId existing batch) as [|d docs] eqn:Hdocs;
    [congruence|].
  change (store (set_errors _ st)) with (store st).
  rewrite Hins.
  destruct (BulkError.code e) as [c|] eqn:Hcode.
  2:{ simpl. split; [intros wes ?; discriminate|]. intros _. repeat split. }
  destruct (BulkError.writeErrors e) as [wes|] eqn:Hwes.
  2:{ simpl. split; [intros wes ? ?; discriminate|]. intros _. repeat split. }
  destruct (c =? duplicateKey) eqn:Hc.
  - apply Z.eqb_eq in Hc. subst c.
    unfold updateProgress, emitProgress, modify, ret.
    split.
    + intros wes' _ [= <-].
      destruct io; cbn [fst snd length]; f_equal; f_equal; simpl length in *; lia.
    + intros Hnot. exfalso. apply Hnot. split; [exact Hcode | eauto].
  - apply Z.eqb_neq in Hc. simpl. split.
    + intros wes' [= ->]. contradiction.
    + intros _. repeat split.
Qed.

(** When the flush started by the ['data'] handler throws, the handler
    throws, and the rows that follow are not read. *)
Lemma csv_flush_throw (row : Row) (rest : list Row) (st : State) (m : string) :
  flushDue BATCH_SIZE row st = true ->
  (processBatch brandId productId userId io (codes (afterIntake row st))
     (afterIntake row st)).1 = Throw m ->
  forEach (onData BATCH_SIZE brandId productId userId io) (row :: rest) st
  = (Throw m,
     (processBatch brandId productId userId io (codes (afterIntake row st))
        (afterIntake row st)).2).
Proof.
  intros Hdue Hthrow. cbn [forEach]. unfold bind.
  rewrite onData_unfold, Hdue. unfold flush, bind, gets.
  destruct (processBatch _ _ _ _ _ _) as [[stats|m'] st']; simpl in *;
    [discriminate|].
  injection Hthrow as ->. reflexivity.
Qed.

Lemma aborted_frame endTime m (st : @State S) :
  let st' := aborted userId io jobId filePath endTime m st in
  Job.status (job st') = Failed
  /\ Job.progress (job st') = Job.progress (job st)
  /\ store st' = store st.
Proof.
  unfold aborted, bind, modify, gets, addError, saveJob, emitProgress,
    cleanupFile, ret.
  simpl. unfold addError_doc.
  destruct (_ <? _)%nat; destruct io; simpl; repeat split.
Qed.

(** C4 (amended): when the bulk write is rejected with the error code
    11000 and a list of write errors, every listed entry is counted as a
    duplicate of the batch and none as a failure.  Any other rejection
    is thrown again as a batch processing error, before the counters of
    the job are touched; in the delimited-text strategy the error
    rejects the run, the rows that follow are not read, and the job
    ends failed. *)
Theorem bulk_write_rejections (batch : list CodeItem.t) (st : State)
    (existing : list string) (e : BulkError.t) (s' : S) :
  find (store st) (batchCodes batch) = Return existing ->
  newDocs brandId productId existing batch <> [] ->
  insertMany (store st) (newDocs brandId productId existing batch)
  = (Rejected e, s') ->
  let r := processBatch brandId productId userId io batch st in
  (forall wes,
      BulkError.code e = Some duplicateKey ->
      BulkError.writeErrors e = Some wes ->
      r.1 = Return
              (Stats.mk (Z.of_nat (length batch))
                 (Z.of_nat (length (newDocs brandId productId existing batch))
                  - Z.of_nat (length wes))
                 0
                 (foundInStore existing batch + Z.of_nat (length wes))))
  /\ (~ duplicateKeyError e ->
      r.1 = Throw (batchErrorMessage (BulkError.message e))
      /\ job r.2 = job st /\ events r.2 = events st
      /\ (forall row rest st0,
            afterIntake row st0 = st -> codes st = batch ->
            flushDue BATCH_SIZE row st0 = true ->
            forEach (onData BATCH_SIZE brandId productId userId io)
              (row :: rest) st0
            = (Throw (batchErrorMessage (BulkError.message e)), r.2)))
  /\ (forall j file startTime endTime s brand m,
        out_result
          (processBulkUpload BATCH_SIZE MAX_ERRORS brandId productId userId io
             jobId filePath fileType (Some j) file startTime endTime s brand)
        = Throw m ->
        Job.status
        <$> out_job
              (processBulkUpload BATCH_SIZE MAX_ERRORS brandId productId userId
                 io jobId filePath fileType (Some j) file startTime endTime s
                 brand)
        = Some Failed).
Proof.
  intros Hfind Hne Hins r.
  destruct (processBatch_rejected batch st existing e s' Hfind Hne Hins)
    as [Hdup Hother].
  fold r in Hdup, Hother.
  split; [exact Hdup|]. split.
  - intros Hnot. destruct (Hother Hnot) as (Hthrow & Hjob & Hev).
    repeat split; try assumption.
    intros row rest st0 Hst Hbatch Hdue.
    rewrite (csv_flush_throw row rest st0
               (batchErrorMessage (BulkError.message e)) Hdue);
      rewrite Hst, Hbatch; [reflexivity | exact Hthrow].
  - intros j file startTime endTime s brand m Hres.
    destruct (processBulkUpload_found BATCH_SIZE MAX_ERRORS brandId productId
                userId io jobId filePath fileType j file startTime endTime
                s brand) as (Hr & Hj & _).
    rewrite Hr in Hres. rewrite Hj. clear Hr Hj.
    rewrite runJob_stages in *. cbv zeta in *.
    destruct (totalCodes _).
    + destruct (strategy _ _ _ _ _ _ _ _ _) as [[res|m'] st2]; simpl in *;
        [discriminate|].
      f_equal. apply aborted_frame.
    + simpl in *. f_equal. apply aborted_frame.
Qed.

End WriteErrors.

(** One row, a batch size of 1, the store whose bulk insert fails: the
    flush of the row throws. *)
Lemma bulk_write_rejections_witness :
  (@processBatch _ FaultyStore.instance "brand-1" None "user-1" true
     [CodeItem.mk "ABCDEFGH" 1]
     (initState ∅ (Some 0) (Scenario.newJob "csv"))).1
  = Throw "Batch processing error: Document failed validation".
Proof.
  destruct (@bulk_write_rejections _ FaultyStore.instance 1 100 "brand-1" None
              "user-1" true "job-1" "/uploads/codes" "csv"
              [CodeItem.mk "ABCDEFGH" 1]
              (initState ∅ (Some 0) (Scenario.newJob "csv")) []
              (BulkError.mk (Some FaultyStore.validationFailure)
                 (Some [WriteError.mk 0 FaultyStore.validationFailure])
                 FaultyStore.failureMessage)
              ∅)
    as (_ & Hother & _).
  - vm_compute. reflexivity.
  - vm_compute. discriminate.
  - reflexivity.
  - destruct Hother as (Hthrow & _).
    + intros [Hcode _]. vm_compute in Hcode. discriminate.
    + exact Hthrow.
Defined.

(** C4, as stated, fails on a delimited-text file of two rows with a batch
    size of 1 against that store: the write error of the first batch is
    not counted as a failure, the run throws, the second row is never
    submitted, and the job ends failed with the single system error. *)
Lemma other_write_error_aborts_csv_job :
  out_result (Scenario.faultyRun 1 "csv" ["ABCDEFGH"; "IJKLMNOP"])
  = Throw "Batch processing error: Document failed validation"
  /\ (Job.status <$> out_job (Scenario.faultyRun 1 "csv" ["ABCDEFGH"; "IJKLMNOP"]))
     = Some Failed
  /\ (Job.progress <$> out_job (Scenario.faultyRun 1 "csv" ["ABCDEFGH"; "IJKLMNOP"]))
     = Some Progress.defaults
  /\ (Job.errors <$> out_job (Scenario.faultyRun 1 "csv" ["ABCDEFGH"; "IJKLMNOP"]))
     = Some [systemError "Batch processing error: Document failed validation"].
Proof. vm_compute. repeat split. Qed.

(** ** A cancel request during a run *)

Lemma replay_app (evs1 evs2 : list Event) (db : Job.t) :
  replay (evs1 ++ evs2) db = replay evs2 (replay evs1 db).
Proof. unfold replay. apply fold_left_app. Qed.

Lemma save_progress (paths : list Path) (doc db : Job.t) :
  Job.progress (save paths doc db)
  = if bool_decide (PProgress ∈ paths) then Job.progress doc else Job.progress db.
Proof.
  induction paths as [|p paths IH]; [reflexivity|].
  simpl. destruct p; simpl; rewrite ?IH;
    repeat case_bool_decide; set_solver.
Qed.

Lemma save_status (paths : list Path) (doc db : Job.t) :
  Job.status (save paths doc db)
  = if bool_decide (PStatus ∈ paths) then Job.status doc else Job.status db.
Proof.
  induction paths as [|p paths IH]; [reflexivity|].
  simpl. destruct p; simpl; rewrite ?IH;
    repeat case_bool_decide; set_solver.
Qed.

(** The stored counters after a sequence of events depend on the stored
    counters before it only. *)
Lemma replay_progress (evs : list Event) : forall db db',
  Job.progress db = Job.progress db' ->
  Job.progress (replay evs db) = Job.progress (replay evs db').
Proof.
  induction evs as [|ev evs IH]; intros db db' Heq; [exact Heq|].
  simpl. apply IH. destruct ev as [paths doc| |]; simpl; try exact Heq.
  rewrite !save_progress. case_bool_decide; [reflexivity | exact Heq].
Qed.

Lemma replay_status (evs : list Event) : forall db db',
  Job.status db = Job.status db' ->
  Job.status (replay evs db) = Job.status (replay evs db').
Proof.
  induction evs as [|ev evs IH]; intros db db' Heq; [exact Heq|].
  simpl. apply IH. destruct ev as [paths doc| |]; simpl; try exact Heq.
  rewrite !save_status. case_bool_decide; [reflexivity | exact Heq].
Qed.

(** A save of the status makes the stored status independent of what it
    was before. *)
Lemma replay_status_overwritten (evs : list Event) : forall db db',
  Exists savesStatus evs ->
  Job.status (replay evs db) = Job.status (replay evs db').
Proof.
  induction evs as [|ev evs IH]; intros db db' Hex; [inversion Hex|].
  simpl. inversion Hex as [? ? Hev|? ? Hevs]; subst.
  - apply replay_status. destruct ev as [paths doc| |]; simpl in *; try tauto.
    rewrite !save_status. rewrite bool_decide_eq_true_2 by exact Hev. reflexivity.
  - apply IH, Hevs.
Qed.

(** A cancel request leaves the stored counters as they are. *)
Lemma cancel_keeps_progress (db db' : Job.t) (reqUser : string) (now : Z) :
  (cancelBulkUpload (Some db) reqUser now).2 = Some db' ->
  Job.progress db' = Job.progress db.
Proof.
  unfold cancelBulkUpload.
  destruct (negb _); simpl; [intros [= <-]; reflexivity|].
  destruct (negb _); simpl; intros [= <-]; reflexivity.
Qed.

Section Cancel.

Context {S : Type} `{CodeStore S}.
Variables (BATCH_SIZE MAX_ERRORS : nat) (brandId : string)
          (productId : option string) (userId : string) (io : bool).
Variables (jobId filePath fileType : string).

Lemma finished_events endTime res (st : @State S) :
  exists doc tail,
    events (finished userId io jobId filePath endTime res st)
    = events st ++ EvSave [PStatus; PEndTime; PDuration; PAvgSpeed] doc :: tail
    /\ Job.status doc = Completed
    /\ Job.status (job (finished userId io jobId filePath endTime res st))
       = Completed
    /\ Forall (fun ev => ~ savesStatus ev) tail.
Proof.
  unfold finished, bind, modify, saveJob, emitProgress, incTotalCodes,
    cleanupFile, ret.
  destruct io; simpl; eexists _, _;
    (split; [rewrite <- ?app_assoc; reflexivity|]);
    repeat split; repeat constructor; simpl; tauto.
Qed.

Lemma aborted_events endTime m (st : @State S) :
  exists paths doc tail,
    events (aborted userId io jobId filePath endTime m st)
    = events st ++ EvSave paths doc :: tail
    /\ PStatus ∈ paths
    /\ Job.status doc = Failed
    /\ Job.status (job (aborted userId io jobId filePath endTime m st)) = Failed
    /\ Forall (fun ev => ~ savesStatus ev) tail.
Proof.
  unfold aborted, bind, modify, gets, addError, saveJob, emitProgress,
    cleanupFile, ret.
  simpl. unfold addError_doc.
  destruct (Summary.startTime (Job.summary (job st)));
    destruct (_ <? _)%nat; destruct io; simpl; eexists _, _, _;
    (split; [rewrite <- ?app_assoc; simpl; reflexivity|]);
    (split; [set_solver|]);
    repeat split; repeat constructor; simpl; set_solver.
Qed.

(** The events of a run end with a save of the status, completed when
    the run returns and failed when it throws. *)
Lemma run_ends_with_status (j : Job.t) file startTime endTime (s : S) brand :
  let o := processBulkUpload BATCH_SIZE MAX_ERRORS brandId productId userId io
             jobId filePath fileType (Some j) file startTime endTime s brand in
  exists jf pre paths doc tail,
    out_job o = Some jf
    /\ out_events o = pre ++ EvSave paths doc :: tail
    /\ PStatus ∈ paths
    /\ Job.status doc = Job.status jf
    /\ Forall (fun ev => ~ savesStatus ev) tail
    /\ match out_result o with
       | Return _ => Job.status jf = Completed
       | Throw _ => Job.status jf = Failed
       end.
Proof.
  intros o.
  destruct (processBulkUpload_found BATCH_SIZE MAX_ERRORS brandId productId
              userId io jobId filePath fileType j file startTime endTime s brand)
    as (Hres & Hjob & _ & _ & Hev).
  fold o in Hres, Hjob, Hev.
  rewrite Hres, Hev, Hjob. clear Hres Hev Hjob.
  rewrite runJob_stages. cbv zeta.
  destruct (totalCodes _).
  - destruct (strategy _ _ _ _ _ _ _ _ _) as [[res|m] st2]; simpl.
    + destruct (finished_events endTime res st2)
        as (doc & tail & Hevs & Hdoc & Hfin & Htail).
      exists (job (finished userId io jobId filePath endTime res st2)),
        (events st2), [PStatus; PEndTime; PDuration; PAvgSpeed], doc, tail.
      split; [reflexivity|]. split; [exact Hevs|]. split; [set_solver|].
      split; [congruence|]. split; assumption.
    + destruct (aborted_events endTime m st2)
        as (paths & doc & tail & Hevs & Hin & Hdoc & Hfin & Htail).
      exists (job (aborted userId io jobId filePath endTime m st2)),
        (events st2), paths, doc, tail.
      split; [reflexivity|]. split; [exact Hevs|]. split; [exact Hin|].
      split; [congruence|]. split; assumption.
  - simpl.
    match goal with
    | |- context [aborted _ _ _ _ _ ?m ?st] =>
        destruct (aborted_events endTime m st)
          as (paths & doc & tail & Hevs & Hin & Hdoc & Hfin & Htail);
        exists (job (aborted userId io jobId filePath endTime m st)),
          (events st), paths, doc, tail
    end.
    split; [reflexivity|]. split; [exact Hevs|]. split; [exact Hin|].
    split; [congruence|]. split; assumption.
Qed.

Lemma replay_no_status (tail : list Event) : forall db,
  Forall (fun ev => ~ savesStatus ev) tail ->
  Job.status (replay tail db) = Job.status db.
Proof.
  induction tail as [|ev tail IH]; intros db Hall; [reflexivity|].
  inversion Hall as [|? ? Hev Htail]; subst. simpl.
  rewrite IH by exact Htail.
  destruct ev as [paths doc| |]; simpl in *; try reflexivity.
  rewrite save_status. rewrite bool_decide_eq_false_2 by exact Hev. reflexivity.
Qed.


End Cancel.



(** ** The last row of a spreadsheet *)

Section Spreadsheet.

Context {S : Type} `{CodeStore S}.
Variables (BATCH_SIZE MAX_ERRORS : nat) (brandId : string)
          (productId : option string) (userId : string) (io : bool).
Variables (jobId filePath : string).

Lemma noFlush_refl (st : @State S) : noFlush st st.
Proof. repeat split. Qed.

Lemma noFlush_trans (st st1 st2 : @State S) :
  noFlush st st1 -> noFlush st1 st2 -> noFlush st st2.
Proof.
  unfold noFlush.
  intros (-> & -> & -> & -> & -> & -> & ->) (-> & -> & -> & -> & -> & -> & ->).
  repeat split.
Qed.

(** A row that is not the last one and leaves the batch below its bound
    is taken in without a flush. *)
Lemma excelRow_inner (n i : nat) (row : Row) (st : State) :
  Z.of_nat i <> Z.of_nat n - 1 ->
  (length (codes st) + length (acceptedCodes [row]) < BATCH_SIZE)%nat ->
  exists st',
    excelRow BATCH_SIZE brandId productId userId io n i row st = (Return tt, st')
    /\ noFlush st st'
    /\ length (codes st') = (length (codes st) + length (acceptedCodes [row]))%nat.
Proof.
  intros Hi Hlen.
  apply Z.eqb_neq in Hi.
  cbv beta delta [excelRow tryCatch bind intake lift gets pushError incFailed
                    pushCode modify ret].
  unfold acceptedCodes in *. simpl in Hlen |- *.
  destruct (extractCode row) as [[c|]|m]; simpl in *.
  - destruct (JsString.nonempty c); simpl in *.
    + rewrite Hi, orb_false_r.
      rewrite length_app. simpl.
      assert (Hb : (BATCH_SIZE <=? length (codes st) + 1)%nat = false)
        by (apply Nat.leb_gt; lia).
      rewrite Hb. eexists. split; [reflexivity|].
      split; [repeat split | simpl; rewrite ?length_app; simpl; lia].
    + rewrite Hi, orb_false_r.
      assert (Hb : (BATCH_SIZE <=? length (codes st))%nat = false)
        by (apply Nat.leb_gt; lia).
      rewrite Hb. eexists. split; [reflexivity|]. split; [repeat split | simpl; lia].
  - rewrite Hi, orb_false_r.
    assert (Hb : (BATCH_SIZE <=? length (codes st))%nat = false)
      by (apply Nat.leb_gt; lia).
    rewrite Hb. eexists. split; [reflexivity|]. split; [repeat split | simpl; lia].
  - eexists. split; [reflexivity|]. split; [repeat split | simpl; lia].
Qed.

(** A row that throws at extraction is dropped without a flush, the last
    row included. *)
Lemma excelRow_throw (n i : nat) (row : Row) (m : string) (st : State) :
  extractCode row = Throw m ->
  exists st',
    excelRow BATCH_SIZE brandId productId userId io n i row st = (Return tt, st')
    /\ noFlush st st'.
Proof.
  intros Hthrow.
  cbv beta delta [excelRow tryCatch bind intake lift gets pushError incFailed
                    modify ret].
  rewrite Hthrow. simpl. eexists. split; [reflexivity | repeat split].
Qed.

Lemma acceptedCodes_length_cons (row : Row) (rows : list Row) :
  length (acceptedCodes (row :: rows))
  = (length (acceptedCodes [row]) + length (acceptedCodes rows))%nat.
Proof.
  unfold acceptedCodes. simpl.
  destruct (extractCode row) as [[c|]|m]; try reflexivity.
  destruct (JsString.nonempty c); reflexivity.
Qed.

Lemma excelLoop_skips_flush (rows : list Row) (last : Row) (m : string) :
  extractCode last = Throw m ->
  forall (i : nat) (st : State),
  (length (codes st) + length (acceptedCodes rows) < BATCH_SIZE)%nat ->
  exists st',
    excelLoop BATCH_SIZE brandId productId userId io
      (i + length rows + 1) i (rows ++ [last]) st
    = (Return tt, st')
    /\ noFlush st st'.
Proof.
  intros Hlast. induction rows as [|row rows IH]; intros i st Hlen.
  - simpl. unfold bind.
    destruct (excelRow_throw (i + 0 + 1) i last m st Hlast) as (st' & -> & Hq).
    exists st'. split; [reflexivity | exact Hq].
  - rewrite acceptedCodes_length_cons in Hlen.
    cbn [app excelLoop]. unfold bind.
    destruct (excelRow_inner (i + length (row :: rows) + 1) i row st)
      as (st1 & -> & Hq1 & Hc1); [simpl; lia | lia |].
    destruct (IH (Datatypes.S i) st1) as (st2 & Hrun & Hq2); [lia|].
    replace (i + length (row :: rows) + 1)%nat
      with (Datatypes.S i + length rows + 1)%nat by (simpl; lia).
    rewrite Hrun. exists st2. split; [reflexivity|].
    eapply noFlush_trans; eassumption.
Qed.

(** [processExcel] on a file that has been read: the start, then the
    loop. *)
Lemma processExcel_unfold (rows : list Row) (st : @State S) :
  processExcel BATCH_SIZE MAX_ERRORS brandId productId userId io (Parsed rows) st
  = match excelLoop BATCH_SIZE brandId productId userId io (length rows) 0 rows
            (excelStart userId io rows st) with
    | (Return _, st') => (Return (resultOf MAX_ERRORS st'), st')
    | (Throw m, st') => (Throw (excelErrorMessage m), st')
    end.
Proof.
  unfold excelStart, resultOf.
  cbv beta delta [processExcel tryCatch bind updateProgress emitProgress modify
                    gets currentResult ret throw totalUpdate].
  destruct io; simpl;
    destruct (excelLoop _ _ _ _ _ _ _ _ _) as [[[]|m] st']; reflexivity.
Qed.

(** A spreadsheet whose rows yield fewer codes than the batch size and
    whose last row throws at extraction: no batch is flushed.  The run
    returns as completed with nothing processed and the store as it
    was. *)
Lemma spreadsheet_last_row_throws (rows : list Row) (last : Row) (m : string)
    (j : Job.t) (startTime endTime : Z) (s : S) (t : Z) :
  extractCode last = Throw m ->
  (length (acceptedCodes rows) < BATCH_SIZE)%nat ->
  let o := processBulkUpload BATCH_SIZE MAX_ERRORS brandId productId userId io
             jobId filePath "xlsx" (Some j) (Parsed (rows ++ [last]))
             startTime endTime s (Some t) in
  out_store o = s
  /\ (Job.status <$> out_job o) = Some Completed
  /\ exists r, out_result o = Return r
       /\ Result.processed r = 0 /\ Result.successful r = 0
       /\ Result.duplicates r = 0.
Proof.
  intros Hlast Hlen o.
  destruct (processBulkUpload_found BATCH_SIZE MAX_ERRORS brandId productId
              userId io jobId filePath "xlsx" j (Parsed (rows ++ [last]))
              startTime endTime s (Some t))
    as (Hres & Hjob & Hstore & _).
  fold o in Hres, Hjob, Hstore.
  rewrite Hres, Hjob, Hstore. clear Hres Hjob Hstore o.
  rewrite runJob_stages. cbv zeta.
  set (st1 := started userId io jobId startTime (initState s (Some t) j)).
  assert (Hs1 : store st1 = s /\ totalCodes st1 = Some t).
  { unfold st1, started, bind, modify, saveJob, emitProgress, ret.
    destruct io; split; reflexivity. }
  destruct Hs1 as [Hs1 Ht1]. clearbody st1. rewrite Ht1.
  unfold strategy.
  change (String.eqb "xlsx" "csv") with false.
  change (String.eqb "xlsx" "xlsx") with true. cbv iota.
  rewrite processExcel_unfold.
  set (st0 := excelStart userId io (rows ++ [last]) st1).
  assert (Hs0 : store st0 = s /\ codes st0 = [] /\ processedCount st0 = 0
                /\ successfulCount st0 = 0 /\ duplicatesCount st0 = 0).
  { unfold st0, excelStart, bind, updateProgress, emitProgress, modify, gets, ret.
    destruct io; simpl; rewrite Hs1; repeat split. }
  destruct Hs0 as (Hst0 & Hc0 & Hp0 & Hsu0 & Hd0).
  destruct (excelLoop_skips_flush rows last m Hlast 0%nat st0)
    as (st2 & Hrun & Hq); [rewrite Hc0; simpl; lia|].
  replace (length (rows ++ [last])) with (0 + length rows + 1)%nat
    by (rewrite length_app; simpl; lia).
  rewrite Hrun.
  destruct Hq as (Hst & _ & _ & _ & Hp & Hsu & Hd).
  assert (Hfin : forall res (st : @State S),
             store (finished userId io jobId filePath endTime res st) = store st
             /\ Job.status (job (finished userId io jobId filePath endTime res st))
                = Completed).
  { intros res st.
    unfold finished, bind, modify, saveJob, emitProgress, incTotalCodes,
      cleanupFile, ret.
    destruct io; split; reflexivity. }
  destruct (Hfin (resultOf MAX_ERRORS st2) st2) as [Hf1 Hf2].
  simpl. rewrite Hf1, Hf2, Hst, Hst0.
  split; [reflexivity|]. split; [reflexivity|].
  eexists. split; [reflexivity|]. simpl. repeat split; congruence.
Qed.

End Spreadsheet.

(** * Further properties of the code *)

(** ** Requests on a job *)

(** X1: the status of a job is disclosed to its owner only.  A request
    for a job that does not exist is answered 404 and a request by
    another user 403, both without data; the owner is answered 200 with
    the stored status, counters and summary and with the first 50
    stored errors, in their order. *)
Theorem status_is_read_by_owner_only (found : option Job.t) (reqUser : string) :
  (forall view,
      Response.data (getBulkUploadStatus found reqUser) = Some view ->
      exists job, found = Some job /\ Job.userId job = reqUser
        /\ Response.statusCode (getBulkUploadStatus found reqUser) = 200%nat
        /\ StatusView.status view = Job.status job
        /\ StatusView.progress view = Job.progress job
        /\ StatusView.summary view = Job.summary job
        /\ StatusView.errors view `prefix_of` Job.errors job
        /\ length (StatusView.errors view) = (length (Job.errors job) `min` 50)%nat)
  /\ (found = None ->
      Response.statusCode (getBulkUploadStatus found reqUser) = 404%nat
      /\ Response.data (getBulkUploadStatus found reqUser) = None)
  /\ (forall job, found = Some job ->
      (Job.userId job <> reqUser ->
       Response.statusCode (getBulkUploadStatus found reqUser) = 403%nat
       /\ Response.data (getBulkUploadStatus found reqUser) = None)
      /\ (Job.userId job = reqUser ->
          is_Some (Response.data (getBulkUploadStatus found reqUser)))).
Proof.
  unfold getBulkUploadStatus.
  destruct found as [job|]; simpl.
  2:{ split; [discriminate|]. split; [auto|]. discriminate. }
  destruct (String.eqb (Job.userId job) reqUser) eqn:Heq; simpl.
  - apply String.eqb_eq in Heq. split.
    + intros view [= <-]. exists job. simpl.
      repeat split; try assumption.
      * apply prefix_take.
      * rewrite length_take. apply Nat.min_comm.
    + split; [discriminate|]. intros j [= <-]. split; [congruence | eauto].
  - apply String.eqb_neq in Heq. split; [discriminate|].
    split; [discriminate|]. intros j [= <-]. split; [auto | congruence].
Qed.

(** X2: a cancel request of the owner on a pending or processing job is
    answered 200; it stores the status cancelled, the end time and, when
    the job had started, the duration since the start, and leaves the
    counters and the errors as they were.  A second cancel request is
    then refused with "Cannot cancel cancelled job" and changes
    nothing. *)
Theorem cancel_succeeds_once (job : Job.t) (reqUser : string) (now later : Z) :
  Job.userId job = reqUser ->
  Job.status job = Pending \/ Job.status job = Processing ->
  exists db,
    (cancelBulkUpload (Some job) reqUser now).2 = Some db
    /\ Response.statusCode (cancelBulkUpload (Some job) reqUser now).1 = 200%nat
    /\ Response.data (cancelBulkUpload (Some job) reqUser now).1 = Some db
    /\ Job.status db = Cancelled
    /\ Summary.startTime (Job.summary db) = Summary.startTime (Job.summary job)
    /\ Summary.endTime (Job.summary db) = Some now
    /\ Summary.duration (Job.summary db)
       = match Summary.startTime (Job.summary job) with
         | Some a => Some (now - a)
         | None => Summary.duration (Job.summary job)
         end
    /\ Job.progress db = Job.progress job
    /\ Job.errors db = Job.errors job
    /\ Job.userId db = Job.userId job
    /\ cancelBulkUpload (Some db) reqUser later = (cannotCancel Cancelled, Some db).
Proof.
  intros Hown Hst.
  unfold cancelBulkUpload.
  apply String.eqb_eq in Hown. rewrite Hown. simpl.
  apply cancellable_iff in Hst. rewrite Hst. simpl.
  eexists. split; [reflexivity|].
  destruct job as [id u b f ft st p e [a en d sp] mx]; simpl in *.
  rewrite Hown. simpl.
  repeat split; destruct a; reflexivity.
Qed.

(** A processing job of user-1, started at 1000 and cancelled at 2000. *)
Lemma cancel_succeeds_once_witness :
  exists db,
    (cancelBulkUpload (Some (markProcessing 1000 (Scenario.newJob "csv")))
       "user-1" 2000).2 = Some db
    /\ Job.status db = Cancelled
    /\ Summary.duration (Job.summary db) = Some 1000
    /\ cancelBulkUpload (Some db) "user-1" 2500 = (cannotCancel Cancelled, Some db).
Proof.
  destruct (cancel_succeeds_once (markProcessing 1000 (Scenario.newJob "csv"))
              "user-1" 2000 2500)
    as (db & Hdb & _ & _ & Hst & _ & _ & Hdur & _ & _ & _ & Hagain).
  - reflexivity.
  - right. reflexivity.
  - exists db. repeat split; assumption.
Defined.

(** ** The column a code is taken from *)

Lemma candidate_fold (row : Row) (aliases : list string) :
  (forall pre k post,
      aliases = pre ++ k :: post ->
      (forall k', k' ∈ pre -> truthy (prop row k') = false) ->
      truthy (prop row k) = true ->
      fold_right (fun k rest => js_or (prop row k) rest) (firstValue row) aliases
      = prop row k)
  /\ ((forall k, k ∈ aliases -> truthy (prop row k) = false) ->
      fold_right (fun k rest => js_or (prop row k) rest) (firstValue row) aliases
      = firstValue row).
Proof.
  induction aliases as [|a aliases [IHfirst IHnone]]; simpl.
  - split; [|reflexivity]. intros [|? ?] k post Heq; discriminate.
  - split.
    + intros [|b pre] k post Heq Hpre Hk; simpl in Heq;
        injection Heq as Ha Hrest; subst a aliases.
      * unfold js_or. rewrite Hk. reflexivity.
      * unfold js_or. rewrite (Hpre b) by set_solver.
        apply (IHfirst pre k post eq_refl); [|exact Hk].
        intros k' Hk'. apply Hpre. set_solver.
    + intros Hall. unfold js_or. rewrite (Hall a) by set_solver.
      apply IHnone. intros k Hk. apply Hall. set_solver.
Qed.


(** ** The codes that extraction returns *)

Lemma trimStart_fixed (l : list ascii) :
  (forall c, head l = Some c -> JsString.is_white c = false) ->
  JsString.trimStart l = l.
Proof.
  destruct l as [|c l]; simpl; [reflexivity|].
  intros Hc. rewrite (Hc c eq_refl). reflexivity.
Qed.

Lemma trimEnd_fixed (l : list ascii) :
  (forall c, last l = Some c -> JsString.is_white c = false) ->
  JsString.trimEnd l = l.
Proof.
  unfold JsString.trimEnd. intros Hc.
  rewrite trimStart_fixed; [apply rev_involutive|].
  destruct l as [|a l'] using rev_ind; [discriminate|].
  rewrite rev_app_distr. simpl. intros c [= <-].
  apply Hc. apply last_snoc.
Qed.

(** [trim] does nothing to a string it has returned. *)
Lemma trim_idempotent (s : string) :
  JsString.trim (JsString.trim s) = JsString.trim s.
Proof.
  destruct (trim_spec s) as (l & r & _ & _ & _ & Hhd & Hlast).
  set (t := JsString.trim s) in *. clearbody t.
  unfold JsString.trim.
  rewrite trimStart_fixed by exact Hhd.
  rewrite trimEnd_fixed by exact Hlast.
  apply string_of_list_ascii_of_string.
Qed.

Lemma single_column_candidate (k : string) (t : string) :
  t <> "" -> candidate [(k, Some t)] = Some t.
Proof.
  intros Ht.
  assert (Htr : truthy (Some t) = true) by (destruct t; [congruence | reflexivity]).
  unfold candidate, codeAliases, js_or. simpl.
  repeat (destruct (String.eqb k _); rewrite ?Htr; try reflexivity).
Qed.

(** X4: a code that [extractCode] returns is in final form: it neither
    starts nor ends with white space, its length is between 3 and 100,
    and a row that holds it in a single column, under any name, yields
    the same code again. *)
Theorem extracted_code_is_stable (row : Row) (t : string) :
  extractCode row = Return (Some t) ->
  JsString.trim t = t
  /\ validLength t
  /\ (forall c, head (list_ascii_of_string t) = Some c ->
        JsString.is_white c = false)
  /\ (forall c, last (list_ascii_of_string t) = Some c ->
        JsString.is_white c = false)
  /\ (forall k, extractCode [(k, Some t)] = Return (Some t)).
Proof.
  intros Hex. apply extractCode_code in Hex as (c & _ & _ & -> & Hvalid).
  pose proof (trim_idempotent c) as Hidem.
  destruct (trim_spec c) as (l & r & _ & _ & _ & Hhd & Hlast).
  split; [exact Hidem|]. split; [exact Hvalid|].
  split; [exact Hhd|]. split; [exact Hlast|].
  intros k. apply extractCode_code. exists (JsString.trim c).
  assert (Hne : JsString.trim c <> "").
  { intros Heq. rewrite Heq in Hvalid.
    unfold validLength, JsString.length in Hvalid. simpl in Hvalid. lia. }
  split; [apply single_column_candidate, Hne|].
  split; [exact Hne|]. split; [symmetry; exact Hidem | exact Hvalid].
Qed.

(** The row of a file whose cell is padded with white space. *)
Lemma extracted_code_is_stable_witness :
  JsString.trim "ABCDEFGH" = "ABCDEFGH"
  /\ extractCode [("Serial", Some "ABCDEFGH")] = Return (Some "ABCDEFGH").
Proof.
  destruct (extracted_code_is_stable
              [("sku", Some "17"); ("code", Some "  ABCDEFGH  ")] "ABCDEFGH")
    as (Htrim & _ & _ & _ & Hagain).
  - reflexivity.
  - split; [exact Htrim | exact (Hagain "Serial")].
Defined.

(** ** What the two strategies leave alone *)

Section Frame.

Context {S : Type} `{CodeStore S}.
Variables (BATCH_SIZE MAX_ERRORS : nat) (brandId : string)
          (productId : option string) (userId : string) (io : bool).

(** [I] is kept by a change of the variables of the closures, by a
    batch, by a save of the counters and by a progress message. *)
Variable I : @State S -> Prop.
Hypothesis I_local : forall f, closureOnly f -> preserves I (modify f).
Hypothesis I_batch : forall batch,
  preserves I (processBatch brandId productId userId io batch).
Hypothesis I_update : forall u, preserves I (updateProgress u).
Hypothesis I_emit : forall id, preserves I (emitProgress userId io id).

Ltac local_step :=
  apply I_local; intros st; repeat split; reflexivity.

Lemma frame_intake row n : preserves I (@intake S row n).
Proof.
  unfold intake. apply preserves_bind; [apply preserves_lift|].
  intros [c|].
  - destruct (JsString.nonempty c); [unfold pushCode; local_step|].
    apply preserves_bind; [unfold pushError; local_step|].
    intros _. unfold incFailed. local_step.
  - apply preserves_bind; [unfold pushError; local_step|].
    intros _. unfold incFailed. local_step.
Qed.

Lemma frame_flush : preserves I (flush brandId productId userId io).
Proof.
  unfold flush. apply preserves_bind; [apply preserves_gets|]. intros cs.
  apply preserves_bind; [apply I_batch|]. intros stats.
  apply preserves_bind; [local_step|]. intros _. local_step.
Qed.

Lemma frame_onData row :
  preserves I (onData BATCH_SIZE brandId productId userId io row).
Proof.
  unfold onData. apply preserves_bind; [local_step|].
  intros _. apply preserves_bind.
  - apply preserves_tryCatch.
    + apply preserves_bind; [apply preserves_gets|]. intros n.
      apply preserves_bind; [apply frame_intake|]. intros _.
      apply preserves_bind; [apply preserves_gets|]. intros cs.
      apply preserves_ret.
    + intros e. apply preserves_bind; [apply preserves_gets|]. intros n.
      apply preserves_bind; [unfold pushError; local_step|]. intros _.
      apply preserves_bind; [unfold incFailed; local_step|]. intros _.
      apply preserves_ret.
  - intros [|]; [apply frame_flush | apply preserves_ret].
Qed.

Lemma frame_onEnd :
  preserves I (onEnd MAX_ERRORS brandId productId userId io).
Proof.
  unfold onEnd. apply preserves_bind; [apply preserves_gets|]. intros cs.
  apply preserves_bind.
  - destruct (0 <? length cs)%nat; [|apply preserves_ret].
    apply preserves_bind; [apply I_batch|]. intros stats. local_step.
  - intros _. apply preserves_gets.
Qed.

Lemma frame_processCSV file :
  preserves I (processCSV BATCH_SIZE MAX_ERRORS brandId productId userId io file).
Proof.
  unfold processCSV. apply preserves_bind; [local_step|].
  intros _. destruct file as [rows|rows m].
  - apply preserves_bind; [apply preserves_forEach, frame_onData|].
    intros _. apply frame_onEnd.
  - apply preserves_bind; [apply preserves_forEach, frame_onData|].
    intros _. apply preserves_throw.
Qed.

Lemma frame_excelRow n i row :
  preserves I (excelRow BATCH_SIZE brandId productId userId io n i row).
Proof.
  unfold excelRow. apply preserves_tryCatch.
  - apply preserves_bind; [apply frame_intake|]. intros _.
    apply preserves_bind; [apply preserves_gets|]. intros cs.
    destruct (_ || _); [apply frame_flush | apply preserves_ret].
  - intros e. apply preserves_bind; [unfold pushError; local_step|].
    intros _. unfold incFailed. local_step.
Qed.

Lemma frame_excelLoop n rows : forall i,
  preserves I (excelLoop BATCH_SIZE brandId productId userId io n i rows).
Proof.
  induction rows as [|row rows IH]; intros i; simpl.
  - apply preserves_ret.
  - apply preserves_bind; [apply frame_excelRow | intros _; apply IH].
Qed.

Lemma frame_processExcel file :
  preserves I (processExcel BATCH_SIZE MAX_ERRORS brandId productId userId io file).
Proof.
  unfold processExcel. apply preserves_tryCatch; [|intros e; apply preserves_throw].
  destruct file as [rows|rows m]; [|apply preserves_throw].
  apply preserves_bind; [apply I_update|]. intros _.
  apply preserves_bind; [apply preserves_gets|]. intros id.
  apply preserves_bind; [apply I_emit|]. intros _.
  apply preserves_bind; [local_step|]. intros _.
  apply preserves_bind; [apply frame_excelLoop|]. intros _.
  apply preserves_gets.
Qed.

Lemma frame_strategy fileType file :
  preserves I
    (strategy BATCH_SIZE MAX_ERRORS brandId productId userId io fileType file).
Proof.
  unfold strategy.
  destruct (String.eqb fileType "csv"); [apply frame_processCSV|].
  destruct (String.eqb fileType "xlsx"); [apply frame_processExcel|].
  apply preserves_throw.
Qed.

End Frame.

(** ** The orchestrator *)

Lemma save_counters (doc db : Job.t) (u : Progress.update) :
  doc = updateProgress_doc db u -> save [PProgress] doc db = doc.
Proof. intros ->. reflexivity. Qed.

Lemma sameButProgress_update (j1 j : Job.t) (u : Progress.update) :
  sameButProgress j1 j -> sameButProgress j1 (updateProgress_doc j u).
Proof. unfold sameButProgress. intros <-. reflexivity. Qed.

Lemma save_completed (endTime : Z) (res : Result.t) (j : Job.t) :
  save [PStatus; PEndTime; PDuration; PAvgSpeed] (markCompleted endTime res j) j
  = markCompleted endTime res j.
Proof. destruct j as [? ? ? ? ? ? ? ? [? ? ? ?] ?]. reflexivity. Qed.

Section Orchestration.

Context {S : Type} `{CodeStore S}.
Variables (BATCH_SIZE MAX_ERRORS : nat) (brandId : string)
          (productId : option string) (userId : string) (io : bool).
Variables (jobId filePath fileType : string).

Lemma replay_flushEvents (j db : Job.t) :
  replay (flushEvents userId io j) db = save [PProgress] j db.
Proof. unfold flushEvents. destruct io; reflexivity. Qed.

Lemma Forall_flushEvents (j : Job.t) :
  Forall (fun ev => isUnlink ev = false) (flushEvents userId io j).
Proof. unfold flushEvents. destruct io; repeat constructor. Qed.

Variables (j0 j1 : Job.t) (brand : option Z).

Lemma Steady_local (f : @State S -> @State S) :
  closureOnly f -> preserves (Steady j0 j1 brand) (modify f).
Proof.
  intros Hf st (Hr & Hs & Ht & Hu). destruct (Hf st) as (_ & Ht' & Hj & He).
  unfold Steady. simpl. rewrite Ht', Hj, He. repeat split; assumption.
Qed.

Lemma Steady_update (u : Progress.update) :
  preserves (Steady j0 j1 brand) (@updateProgress S u).
Proof.
  intros st (Hr & Hs & Ht & Hu). unfold Steady. simpl.
  rewrite replay_app, Hr. simpl.
  split; [reflexivity|]. split; [apply sameButProgress_update, Hs|].
  split; [exact Ht|]. apply Forall_app. split; [exact Hu|]. repeat constructor.
Qed.

Lemma Steady_emit (id : string) :
  preserves (Steady j0 j1 brand) (@emitProgress S userId io id).
Proof.
  unfold emitProgress. destruct io; [|apply preserves_ret].
  intros st (Hr & Hs & Ht & Hu). unfold Steady. simpl.
  rewrite replay_app, Hr. simpl. repeat split; try assumption.
  apply Forall_app. split; [exact Hu|]. repeat constructor.
Qed.

Lemma Steady_batch (batch : list CodeItem.t) :
  preserves (Steady j0 j1 brand) (processBatch brandId productId userId io batch).
Proof.
  intros st (Hr & Hs & Ht & Hu).
  pose proof (processBatch_cases brandId productId userId io batch st) as Hc.
  simpl in Hc. destruct Hc as [(Htc & _) Hc].
  destruct (processBatch brandId productId userId io batch st) as [[stats|m] st'];
    simpl in *.
  - destruct Hc as (_ & _ & Hjob & Hev).
    unfold Steady. rewrite Hev, replay_app, Hr, replay_flushEvents, Htc.
    split; [apply (save_counters _ _ _ Hjob)|].
    split; [rewrite Hjob; apply sameButProgress_update, Hs|].
    split; [exact Ht|].
    apply Forall_app. split; [exact Hu | apply Forall_flushEvents].
  - destruct Hc as (Hjob & Hev & _).
    unfold Steady. rewrite Hjob, Hev, Htc. repeat split; assumption.
Qed.

Lemma Steady_strategy (file : ParsedFile) :
  preserves (Steady j0 j1 brand)
    (strategy BATCH_SIZE MAX_ERRORS brandId productId userId io fileType file).
Proof.
  apply frame_strategy.
  - apply Steady_local.
  - apply Steady_batch.
  - apply Steady_update.
  - apply Steady_emit.
Qed.

End Orchestration.

Lemma sameButProgress_fields (j1 j : Job.t) :
  sameButProgress j1 j ->
  Job.summary j = Job.summary j1 /\ Job.errors j = Job.errors j1
  /\ Job.maxErrors j = Job.maxErrors j1 /\ Job.userId j = Job.userId j1
  /\ Job.jobId j = Job.jobId j1.
Proof. unfold sameButProgress. intros <-. repeat split. Qed.

Lemma save_failed (endTime : Z) (j : Job.t) (m : string) :
  let jf := markFailed endTime j in
  let dirty := match Summary.startTime (Job.summary jf) with
               | Some _ => [PStatus; PEndTime; PDuration]
               | None => [PStatus; PEndTime]
               end in
  save dirty jf j = jf
  /\ save (dirty ++ [PErrors]) (addError_doc jf (systemError m)).1 j
     = Job.set_errors jf (Job.errors (addError_doc jf (systemError m)).1)
  /\ ((addError_doc jf (systemError m)).2 = true ->
      Job.set_errors jf (Job.errors (addError_doc jf (systemError m)).1)
      = (addError_doc jf (systemError m)).1)
  /\ ((addError_doc jf (systemError m)).2 = false ->
      (addError_doc jf (systemError m)).1 = jf).
Proof.
  destruct j as [? ? ? ? ? ? ? errs [[a|] ? ? ?] mx]; unfold addError_doc; simpl;
    destruct (length errs <? mx)%nat; simpl; repeat split; intros; congruence.
Qed.

Section RunOutcome.

Context {S : Type} `{CodeStore S}.
Variables (BATCH_SIZE MAX_ERRORS : nat) (brandId : string)
          (productId : option string) (userId : string) (io : bool).
Variables (jobId filePath fileType : string).

Lemma started_Steady startTime (s : S) (brand : option Z) (j : Job.t) :
  let st1 := started userId io jobId startTime (initState s brand j) in
  Steady j (markProcessing startTime j) brand st1
  /\ store st1 = s /\ job st1 = markProcessing startTime j.
Proof.
  unfold started, bind, modify, saveJob, emitProgress, ret, Steady,
    sameButProgress.
  destruct j as [? ? ? ? ? ? ? ? [? ? ? ?] ?].
  destruct io; simpl; repeat split; repeat constructor.
Qed.

(** A run on a job that exists: the start, the strategy, which keeps
    [Steady], and then the completion or the [catch] handler. *)
Lemma run_core (j : Job.t) file startTime endTime (s : S) (brand : option Z) :
  let r := runJob BATCH_SIZE MAX_ERRORS brandId productId userId io jobId
             filePath fileType file startTime endTime (initState s brand j) in
  exists st2,
    Steady j (markProcessing startTime j) brand st2
    /\ ((exists res,
            r = (Return res, finished userId io jobId filePath endTime res st2)
            /\ is_Some brand)
        \/ (exists m,
              r = (Throw m, aborted userId io jobId filePath endTime m st2))).
Proof.
  intros r. unfold r. rewrite runJob_stages. cbv zeta.
  destruct (started_Steady startTime s brand j) as (Hst & _ & _).
  set (st1 := started userId io jobId startTime (initState s brand j)) in *.
  clearbody st1.
  assert (Ht : totalCodes st1 = brand) by apply Hst.
  rewrite Ht. destruct brand as [t|].
  - pose proof (Steady_strategy BATCH_SIZE MAX_ERRORS brandId productId userId
                  io fileType j (markProcessing startTime j) (Some t) file
                  st1 Hst) as Hst2.
    destruct (strategy _ _ _ _ _ _ _ _ _) as [[res|m] st2]; simpl in Hst2;
      exists st2; (split; [exact Hst2|]).
    + left. exists res. split; [reflexivity | eauto].
    + right. exists m. reflexivity.
  - exists st1. split; [exact Hst|]. right. eexists. reflexivity.
Qed.

Lemma replay_closingEvents (j db : Job.t) :
  replay (closingEvents userId io jobId filePath j) db = db.
Proof. unfold closingEvents. destruct io; reflexivity. Qed.

Lemma closingEvents_unlink (j : Job.t) (pre : list Event) :
  Forall (fun ev => isUnlink ev = false) pre ->
  exists pre', pre ++ closingEvents userId io jobId filePath j
               = pre' ++ [EvUnlink filePath]
               /\ Forall (fun ev => isUnlink ev = false) pre'.
Proof.
  intros Hpre. unfold closingEvents.
  exists (pre ++ (if io then [EvEmit userId (payloadOf jobId j)] else [])).
  split; [rewrite app_assoc; reflexivity|].
  apply Forall_app. split; [exact Hpre|]. destruct io; repeat constructor.
Qed.

Lemma finished_state endTime res (st2 : @State S) :
  let jc := markCompleted endTime res (job st2) in
  let st3 := finished userId io jobId filePath endTime res st2 in
  job st3 = jc
  /\ events st3
     = (events st2 ++ [EvSave [PStatus; PEndTime; PDuration; PAvgSpeed] jc])
       ++ closingEvents userId io jobId filePath jc
  /\ store st3 = store st2
  /\ totalCodes st3 = (fun t => t + Result.successful res) <$> totalCodes st2.
Proof.
  unfold finished, bind, modify, saveJob, emitProgress, incTotalCodes,
    cleanupFile, ret, closingEvents.
  destruct io; simpl; rewrite <- ?app_assoc; repeat split.
Qed.

Lemma aborted_state endTime m (st2 : @State S) :
  let jf := markFailed endTime (job st2) in
  let ja := (addError_doc jf (systemError m)).1 in
  let st3 := aborted userId io jobId filePath endTime m st2 in
  job st3 = ja
  /\ events st3
     = (events st2
        ++ (if (addError_doc jf (systemError m)).2
            then [EvSave (failurePaths jf ++ [PErrors]) ja; EvSave [] ja]
            else [EvSave (failurePaths jf) jf]))
       ++ closingEvents userId io jobId filePath ja
  /\ store st3 = store st2
  /\ totalCodes st3 = totalCodes st2.
Proof.
  unfold aborted, bind, modify, gets, addError, saveJob, emitProgress,
    cleanupFile, ret, closingEvents, failurePaths.
  cbn [job set_job fst snd].
  destruct (addError_doc (markFailed endTime (job st2)) (systemError m))
    as [j2 saved] eqn:Hadd.
  assert (Hno : saved = false -> j2 = markFailed endTime (job st2)).
  { intros ->. unfold addError_doc in Hadd.
    destruct (_ <? _)%nat; inversion Hadd; reflexivity. }
  destruct saved; [|rewrite (Hno eq_refl)];
    destruct io; simpl; rewrite <- ?app_assoc; repeat split.
Qed.

Lemma finished_outcome endTime res (st2 : @State S) (j j1 : Job.t) brand :
  Steady j j1 brand st2 ->
  let st3 := finished userId io jobId filePath endTime res st2 in
  job st3 = markCompleted endTime res (job st2)
  /\ replay (events st3) j = job st3
  /\ (exists pre, events st3 = pre ++ [EvUnlink filePath]
                  /\ Forall (fun ev => isUnlink ev = false) pre)
  /\ store st3 = store st2
  /\ totalCodes st3 = (fun t => t + Result.successful res) <$> brand.
Proof.
  intros (Hr & Hs & Ht & Hu) st3.
  destruct (finished_state endTime res st2) as (Hj & He & Hst & Htc).
  fold st3 in Hj, He, Hst, Htc.
  split; [exact Hj|]. split.
  - rewrite He, !replay_app, Hr, replay_closingEvents, Hj.
    apply save_completed.
  - split; [|split; [exact Hst | rewrite Htc, Ht; reflexivity]].
    rewrite He. apply closingEvents_unlink.
    apply Forall_app. split; [exact Hu | repeat constructor].
Qed.

Lemma aborted_outcome endTime m (st2 : @State S) (j j1 : Job.t) brand :
  Steady j j1 brand st2 ->
  let st3 := aborted userId io jobId filePath endTime m st2 in
  job st3 = (addError_doc (markFailed endTime (job st2)) (systemError m)).1
  /\ replay (events st3) j = job st3
  /\ (exists pre, events st3 = pre ++ [EvUnlink filePath]
                  /\ Forall (fun ev => isUnlink ev = false) pre)
  /\ store st3 = store st2
  /\ totalCodes st3 = brand.
Proof.
  intros (Hr & Hs & Ht & Hu) st3.
  destruct (aborted_state endTime m st2) as (Hj & He & Hst & Htc).
  fold st3 in Hj, He, Hst, Htc.
  destruct (save_failed endTime (job st2) m) as (Hd & Hsv & Hyes & Hno).
  fold (failurePaths (markFailed endTime (job st2))) in Hd, Hsv.
  split; [exact Hj|]. split.
  - rewrite He, !replay_app, Hr, replay_closingEvents, Hj.
    destruct (addError_doc (markFailed endTime (job st2)) (systemError m)).2.
    + change (replay [?a; ?b] ?db) with (applyEvent (applyEvent db a) b).
      cbn [applyEvent]. rewrite Hsv, (Hyes eq_refl). reflexivity.
    + change (replay [?a] ?db) with (applyEvent db a).
      cbn [applyEvent]. rewrite Hd, (Hno eq_refl). reflexivity.
  - split; [|split; [exact Hst | rewrite Htc, Ht; reflexivity]].
    rewrite He. apply closingEvents_unlink.
    apply Forall_app. split; [exact Hu|].
    destruct (addError_doc _ _).2; repeat constructor.
Qed.

End RunOutcome.

Section RunTheorems.

Context {S : Type} `{CodeStore S}.
Variables (BATCH_SIZE MAX_ERRORS : nat) (brandId : string)
          (productId : option string) (userId : string) (io : bool).
Variables (jobId filePath fileType : string).

(** The outcome of a run on a job that exists, from the state [st2] in
    which the strategy has left the run. *)
Lemma run_outcome (j : Job.t) file startTime endTime (s : S) (brand : option Z) :
  let o := processBulkUpload BATCH_SIZE MAX_ERRORS brandId productId userId io
             jobId filePath fileType (Some j) file startTime endTime s brand in
  exists st2 st3,
    Steady j (markProcessing startTime j) brand st2
    /\ out_job o = Some (job st3) /\ out_store o = store st3
    /\ out_totalCodes o = totalCodes st3 /\ out_events o = events st3
    /\ ((exists res,
            out_result o = Return res
            /\ st3 = finished userId io jobId filePath endTime res st2
            /\ is_Some brand)
        \/ (exists m,
              out_result o = Throw m
              /\ st3 = aborted userId io jobId filePath endTime m st2)).
Proof.
  intros o.
  destruct (processBulkUpload_found BATCH_SIZE MAX_ERRORS brandId productId
              userId io jobId filePath fileType j file startTime endTime s brand)
    as (Hres & Hjob & Hstore & Htc & Hev).
  fold o in Hres, Hjob, Hstore, Htc, Hev.
  destruct (run_core BATCH_SIZE MAX_ERRORS brandId productId userId io jobId
              filePath fileType j file startTime endTime s brand)
    as (st2 & Hst & [(res & Hr & Hb) | (m & Hr)]);
    rewrite Hr in *; simpl in *; exists st2; eexists;
    (split; [exact Hst|]); repeat (split; [eassumption|]).
  - left. exists res. repeat split; assumption.
  - right. exists m. repeat split; assumption.
Qed.





(** X9: a run for a brand that does not exist, or for a kind of file
    that is neither "csv" nor "xlsx", fails before any row is read:
    it throws "Brand not found", or "Unsupported file type" when the
    brand exists; the store, the brand and the counters of the job are
    left as they were, and the job is marked as failed. *)
Theorem run_fails_before_reading (j : Job.t) (file : ParsedFile)
    (startTime endTime : Z) (s : S) (brand : option Z) :
  brand = None \/ (fileType <> "csv" /\ fileType <> "xlsx") ->
  let o := processBulkUpload BATCH_SIZE MAX_ERRORS brandId productId userId io
             jobId filePath fileType (Some j) file startTime endTime s brand in
  out_result o
  = Throw (match brand with
           | None => "Brand not found"
           | Some _ => "Unsupported file type"
           end)
  /\ out_store o = s
  /\ out_totalCodes o = brand
  /\ exists jf, out_job o = Some jf
       /\ Job.status jf = Failed
       /\ Job.progress jf = Job.progress j.
Proof.
  intros Hearly o.
  destruct (processBulkUpload_found BATCH_SIZE MAX_ERRORS brandId productId
              userId io jobId filePath fileType j file startTime endTime s brand)
    as (Hres & Hjob & Hstore & Htc & _).
  fold o in Hres, Hjob, Hstore, Htc.
  rewrite Hres, Hjob, Hstore, Htc. clear Hres Hjob Hstore Htc o.
  rewrite runJob_stages. cbv zeta.
  destruct (started_Steady userId io jobId startTime s brand j)
    as ((_ & _ & Ht & _) & Hs1 & Hj1).
  set (st1 := started userId io jobId startTime (initState s brand j)) in *.
  clearbody st1. rewrite Ht.
  assert (Hend : forall m,
             store (aborted userId io jobId filePath endTime m st1) = s
             /\ totalCodes (aborted userId io jobId filePath endTime m st1)
                = brand
             /\ exists jf,
                  Some (job (aborted userId io jobId filePath endTime m st1))
                  = Some jf
                  /\ Job.status jf = Failed
                  /\ Job.progress jf = Job.progress j).
  { intros m.
    destruct (aborted_state userId io jobId filePath endTime m st1)
      as (Hj & _ & Hst & Htc).
    rewrite Hst, Htc, Hj, Hs1, Ht, Hj1.
    split; [reflexivity|]. split; [reflexivity|].
    eexists. split; [reflexivity|].
    unfold addError_doc. destruct (_ <? _)%nat; split; reflexivity. }
  destruct brand as [t|].
  - destruct Hearly as [Hb | [Hcsv Hxlsx]]; [discriminate|].
    unfold strategy.
    apply String.eqb_neq in Hcsv, Hxlsx. rewrite Hcsv, Hxlsx.
    unfold throw. cbn [fst snd]. split; [reflexivity | apply Hend].
  - cbn [fst snd]. split; [reflexivity | apply Hend].
Qed.

End RunTheorems.

(** A brand that does not exist. *)
Lemma run_fails_before_reading_witness :
  out_result
    (@processBulkUpload _ Scenario.store 1000 100 "brand-1" None "user-1" true
       "job-1" "/uploads/codes" "csv" (Some (Scenario.newJob "csv"))
       (Scenario.file ["ABCDEFGH"]) 1000 3000 ∅ None)
  = Throw "Brand not found".
Proof.
  refine (proj1 (@run_fails_before_reading _ Scenario.store 1000 100 "brand-1"
                   None "user-1" true "job-1" "/uploads/codes" "csv"
                   (Scenario.newJob "csv") (Scenario.file ["ABCDEFGH"])
                   1000 3000 ∅ None _)).
  left. reflexivity.
Defined.

(** ** The loop of the spreadsheet strategy *)

Section SpreadsheetRows.

Context {S : Type} `{CodeStore S}.
Variables (BATCH_SIZE MAX_ERRORS : nat) (brandId : string)
          (productId : option string) (userId : string) (io : bool).

(** One iteration: the intake of the row and, when a flush is due, the
    flush; a flush that throws is recorded as an error of the row and
    leaves the batch as it is. *)
Lemma excelRow_unfold (n i : nat) (row : Row) (st : State) :
  excelRow BATCH_SIZE brandId productId userId io n i row st
  = if excelFlushDue BATCH_SIZE n i row st
    then match flush brandId productId userId io (afterExcelIntake i row st) with
         | (Return _, st') => (Return tt, st')
         | (Throw m, st') => (Return tt, excelDropped (Z.of_nat i + 2) m st')
         end
    else (Return tt, afterExcelIntake i row st).
Proof.
  unfold excelFlushDue, afterExcelIntake, excelDropped.
  cbv beta zeta delta [excelRow tryCatch bind intake lift gets pushError
                         incFailed pushCode modify ret].
  destruct (extractCode row) as [[c|]|m]; simpl; [| |reflexivity].
  - destruct (JsString.nonempty c); simpl;
      (destruct (_ || _); [|reflexivity]);
      destruct (flush _ _ _ _ _) as [[[]|m] st']; reflexivity.
  - destruct (_ || _); [|reflexivity].
    destruct (flush _ _ _ _ _) as [[[]|m] st']; reflexivity.
Qed.

Lemma excelRow_returns (n i : nat) (row : Row) (st : State) :
  (excelRow BATCH_SIZE brandId productId userId io n i row st).1 = Return tt.
Proof.
  rewrite excelRow_unfold.
  destruct (excelFlushDue _ _ _ _ _); [|reflexivity].
  destruct (flush _ _ _ _ _) as [[[]|m] st']; reflexivity.
Qed.

Lemma excelLoop_returns (n : nat) (rows : list Row) : forall (i : nat) (st : State),
  (excelLoop BATCH_SIZE brandId productId userId io n i rows st).1 = Return tt.
Proof.
  induction rows as [|row rows IH]; intros i st; [reflexivity|].
  cbn [excelLoop]. unfold bind.
  pose proof (excelRow_returns n i row st) as Hrow.
  destruct (excelRow _ _ _ _ _ _ _ _ _) as [[[]|m] st1]; simpl in Hrow;
    [apply IH | discriminate].
Qed.

End SpreadsheetRows.

(** ** A spreadsheet run, whatever the store *)

Section SpreadsheetRun.

Context {S : Type} `{CodeStore S}.
Variables (BATCH_SIZE MAX_ERRORS : nat) (brandId : string)
          (productId : option string) (userId : string) (io : bool).
Variables (jobId filePath : string).

(** The loop keeps the brand and the total of the job document. *)
Lemma excelLoop_keeps_total (n : nat) (rows : list Row) (i : nat) (t : option Z)
    (total : Z) (st : State) :
  totalCodes st = t -> Progress.total (Job.progress (job st)) = total ->
  let st' := (excelLoop BATCH_SIZE brandId productId userId io n i rows st).2 in
  totalCodes st' = t /\ Progress.total (Job.progress (job st')) = total.
Proof.
  intros Ht Htot.
  apply (frame_excelLoop BATCH_SIZE brandId productId userId io
           (fun st => totalCodes st = t
                      /\ Progress.total (Job.progress (job st)) = total)).
  - intros f Hf st0 [Ht0 Htot0]. destruct (Hf st0) as (_ & Ht' & Hj & _).
    simpl. rewrite Ht', Hj. split; assumption.
  - intros batch st0 [Ht0 Htot0].
    pose proof (processBatch_cases brandId productId userId io batch st0) as Hc.
    simpl in Hc. destruct Hc as [(Htc & _) Hc]. rewrite Htc.
    split; [exact Ht0|].
    destruct (processBatch brandId productId userId io batch st0)
      as [[stats|m] st1]; simpl in *.
    + destruct Hc as (_ & _ & -> & _). simpl.
      pose proof (updatedProgress_batch (Job.progress (job st0)) stats) as Hu.
      simpl in Hu. destruct Hu as (-> & _). exact Htot0.
    + destruct Hc as (-> & _). exact Htot0.
  - split; assumption.
Qed.

Lemma excelStart_state (rows : list Row) (st : @State S) :
  let st0 := excelStart userId io rows st in
  store st0 = store st /\ totalCodes st0 = totalCodes st
  /\ Progress.total (Job.progress (job st0)) = Z.of_nat (length rows)
  /\ codes st0 = [] /\ processedCount st0 = 0 /\ successfulCount st0 = 0
  /\ failedCount st0 = 0 /\ duplicatesCount st0 = 0.
Proof.
  unfold excelStart, bind, updateProgress, emitProgress, modify, gets, ret,
    updateProgress_doc, updatedProgress.
  destruct io; simpl; destruct (0 <? Z.of_nat (length rows));
    repeat split.
Qed.


End SpreadsheetRun.

(** ** The outcome of a run for a brand that exists *)

Section RunByStrategy.

Context {S : Type} `{CodeStore S}.
Variables (BATCH_SIZE MAX_ERRORS : nat) (brandId : string)
          (productId : option string) (userId : string) (io : bool).
Variables (jobId filePath fileType : string).

Lemma run_by_strategy (j : Job.t) file startTime endTime (s : S) (t : Z) :
  let st1 := started userId io jobId startTime (initState s (Some t) j) in
  let o := processBulkUpload BATCH_SIZE MAX_ERRORS brandId productId userId io
             jobId filePath fileType (Some j) file startTime endTime s (Some t) in
  store st1 = s /\ totalCodes st1 = Some t
  /\ job st1 = markProcessing startTime j
  /\ match strategy BATCH_SIZE MAX_ERRORS brandId productId userId io fileType
             file st1 with
     | (Return res, st2) =>
         out_result o = Return res
         /\ out_job o = Some (markCompleted endTime res (job st2))
         /\ out_store o = store st2
         /\ out_totalCodes o
            = (fun t => t + Result.successful res) <$> totalCodes st2
     | (Throw m, st2) =>
         out_result o = Throw m
         /\ out_job o
            = Some (addError_doc (markFailed endTime (job st2)) (systemError m)).1
         /\ out_store o = store st2
         /\ out_totalCodes o = totalCodes st2
     end.
Proof.
  intros st1 o.
  destruct (processBulkUpload_found BATCH_SIZE MAX_ERRORS brandId productId
              userId io jobId filePath fileType j file startTime endTime s (Some t))
    as (Hres & Hjob & Hstore & Htc & _).
  fold o in Hres, Hjob, Hstore, Htc.
  rewrite Hres, Hjob, Hstore, Htc. clear Hres Hjob Hstore Htc o.
  rewrite runJob_stages. cbv zeta.
  destruct (started_Steady userId io jobId startTime s (Some t) j)
    as ((_ & _ & Ht & _) & Hs1 & Hj1).
  subst st1.
  set (st1 := started userId io jobId startTime (initState s (Some t) j)) in *.
  clearbody st1. rewrite Ht.
  split; [exact Hs1|]. split; [reflexivity|]. split; [exact Hj1|].
  destruct (strategy _ _ _ _ _ _ _ _ _) as [[res|m] st2]; cbn [fst snd].
  - destruct (finished_state userId io jobId filePath endTime res st2)
      as (-> & _ & -> & ->). repeat split.
  - destruct (aborted_state userId io jobId filePath endTime m st2)
      as (-> & _ & -> & ->). repeat split.
Qed.

End RunByStrategy.

(** ** A spreadsheet run against the store with the unique index *)

Section UniqueSpreadsheet.

Variable order : list (nat * CodeDoc.t) -> list (nat * CodeDoc.t).
Hypothesis order_perm : forall l, order l ≡ₚ l.

Local Abbreviation US := (UniqueStore.instance order).

Variables (BATCH_SIZE MAX_ERRORS : nat) (brandId : string)
          (productId : option string) (userId : string) (io : bool).

Lemma afterExcelIntake_Progressed (i : nat) (row : Row) (st : @State (gset string)) :
  Progressed st (afterExcelIntake i row st) (acceptedCodes [row])
    (droppedRows [row]).
Proof.
  unfold afterExcelIntake, acceptedCodes, droppedRows, accepted, Progressed,
    excelDropped, batchCodes.
  simpl. rewrite filter_cons, filter_nil.
  destruct (extractCode row) as [[c|]|m]; simpl;
    try destruct (JsString.nonempty c); simpl;
    rewrite ?map_app, ?list_to_set_app_L, ?length_app; simpl;
    (split; [set_solver|]); repeat split; lia.
Qed.

Lemma afterExcelIntake_ahead (i : nat) (row : Row) (st : @State (gset string)) :
  ahead (afterExcelIntake i row st) = plusFailed (droppedRows [row]) (ahead st).
Proof.
  unfold afterExcelIntake, droppedRows, accepted, ahead, plusFailed,
    excelDropped.
  rewrite filter_cons, filter_nil.
  destruct (extractCode row) as [[c|]|m]; simpl;
    try destruct (JsString.nonempty c); simpl; f_equal; lia.
Qed.

(** One row: the iteration returns; when a flush is due the batch is
    empty afterwards. *)
Lemma unique_excelRow (n i : nat) (row : Row) (st : @State (gset string)) :
  exists st',
    @excelRow _ US BATCH_SIZE brandId productId userId io n i row st
    = (Return tt, st')
    /\ Progressed st st' (acceptedCodes [row]) (droppedRows [row])
    /\ ahead st' = plusFailed (droppedRows [row]) (ahead st)
    /\ (excelFlushDue BATCH_SIZE n i row st = true -> codes st' = [])
    /\ (excelFlushDue BATCH_SIZE n i row st = false ->
        codes st' = codes (afterExcelIntake i row st)).
Proof.
  rewrite excelRow_unfold.
  pose proof (afterExcelIntake_Progressed i row st) as Hin.
  pose proof (afterExcelIntake_ahead i row st) as Hah.
  destruct (excelFlushDue BATCH_SIZE n i row st).
  - destruct (unique_flush order order_perm brandId productId userId io
                (afterExcelIntake i row st)) as (st' & Hrun & Hnil & Hfl).
    pose proof (flush_ahead (H := US) brandId productId userId io
                  (afterExcelIntake i row st)) as Hfa.
    rewrite Hrun in *. simpl in Hfa.
    exists st'. split; [reflexivity|].
    pose proof (Progressed_trans order order_perm _ _ _ _ _ _ _ Hin Hfl) as Ht.
    rewrite app_nil_r, Z.add_0_r in Ht.
    split; [exact Ht|]. split; [congruence|]. split; [auto | discriminate].
  - eexists. split; [reflexivity|]. split; [exact Hin|].
    split; [exact Hah|]. split; [discriminate | reflexivity].
Qed.

Lemma plusFailed_plusFailed (a b : Z) (s : Stats.t) :
  plusFailed b (plusFailed a s) = plusFailed (a + b) s.
Proof. unfold plusFailed. simpl. f_equal. lia. Qed.

Lemma lastRowReturns_due (n i : nat) (row : Row) (st : @State (gset string)) :
  lastRowReturns [row] -> n = (i + 1)%nat ->
  excelFlushDue BATCH_SIZE n i row st = true.
Proof.
  intros Hlast ->. unfold excelFlushDue.
  destruct (extractCode row) as [c|m] eqn:Hex.
  - replace (Z.of_nat i =? Z.of_nat (i + 1) - 1) with true
      by (symmetry; apply Z.eqb_eq; lia).
    apply orb_true_r.
  - exfalso. apply (Hlast row m); [reflexivity | exact Hex].
Qed.

(** The loop from the row of index [i] to the last row of the sheet:
    it returns, and when the last row does not throw the batch is
    empty at the end. *)
Lemma unique_excelLoop (n : nat) (rows : list Row) :
  forall (i : nat) (st : @State (gset string)),
  n = (i + length rows)%nat ->
  exists st',
    @excelLoop _ US BATCH_SIZE brandId productId userId io n i rows st
    = (Return tt, st')
    /\ Progressed st st' (acceptedCodes rows) (droppedRows rows)
    /\ ahead st' = plusFailed (droppedRows rows) (ahead st)
    /\ (lastRowReturns rows -> rows <> [] -> codes st' = []).
Proof.
  induction rows as [|row rows IH]; intros i st Hn; cbn [excelLoop].
  - exists st. split; [reflexivity|]. split; [apply Progressed_refl|].
    split; [|congruence].
    unfold plusFailed, droppedRows, ahead. simpl. f_equal. lia.
  - unfold bind.
    destruct (unique_excelRow n i row st)
      as (st1 & Hrun & Hp1 & Ha1 & Hdue & _).
    rewrite Hrun.
    destruct (IH (Datatypes.S i) st1) as (st2 & Hrest & Hp2 & Ha2 & Hnil);
      [simpl in Hn; lia|].
    exists st2. split; [exact Hrest|].
    rewrite acceptedCodes_cons, droppedRows_single.
    split; [eapply (Progressed_trans order order_perm); eassumption|].
    split; [rewrite Ha2, Ha1; apply plusFailed_plusFailed|].
    intros Hlast _.
    destruct rows as [|row' rows'].
    + cbn [excelLoop] in Hrest. injection Hrest as <-.
      apply Hdue. apply lastRowReturns_due; [exact Hlast|].
      simpl in Hn. lia.
    + apply Hnil; [|discriminate].
      intros r m Hr. apply Hlast. exact Hr.
Qed.

End UniqueSpreadsheet.

(** Every row yields a code or is dropped. *)
Lemma accepted_or_dropped (rows : list Row) :
  Z.of_nat (length (acceptedCodes rows)) + droppedRows rows
  = Z.of_nat (length rows).
Proof.
  induction rows as [|row rows IH]; [reflexivity|].
  rewrite acceptedCodes_cons, length_app, droppedRows_cons.
  assert (Hrow : Z.of_nat (length (acceptedCodes [row]))
                 + (if accepted row then 0 else 1) = 1).
  { unfold acceptedCodes, accepted. simpl.
    destruct (extractCode row) as [[c|]|m]; try reflexivity.
    destruct (JsString.nonempty c); reflexivity. }
  cbn [length]. lia.
Qed.

Section UniqueRuns.

Variable order : list (nat * CodeDoc.t) -> list (nat * CodeDoc.t).
Hypothesis order_perm : forall l, order l ≡ₚ l.

Local Abbreviation US := (UniqueStore.instance order).

Variables (BATCH_SIZE MAX_ERRORS : nat) (brandId : string)
          (productId : option string) (userId : string) (io : bool).
Variables (jobId filePath : string).

Lemma size_union_fresh (A B : gset string) :
  Z.of_nat (size (A ∪ B)) - Z.of_nat (size A) = Z.of_nat (size (B ∖ A)).
Proof. rewrite size_union_alt. lia. Qed.

(** The spreadsheet strategy against the store with the unique index,
    on a sheet whose last row does not throw: every code the rows
    yield is submitted, as in the delimited-text strategy, and the
    total of the job is the number of rows. *)
Lemma unique_processExcel (rows : list Row) (st : @State (gset string)) :
  lastRowReturns rows ->
  exists r st',
    @processExcel _ US BATCH_SIZE MAX_ERRORS brandId productId userId io
      (Parsed rows) st = (Return r, st')
    /\ store st' = store st ∪ list_to_set (acceptedCodes rows)
    /\ Result.processed r = Z.of_nat (length (acceptedCodes rows))
    /\ Result.successful r
       = Z.of_nat (size (list_to_set (acceptedCodes rows) ∖ store st))
    /\ Result.duplicates r = Result.processed r - Result.successful r
    /\ Result.failed r = droppedRows rows
    /\ totalCodes st' = totalCodes st
    /\ Progress.total (Job.progress (job st')) = Z.of_nat (length rows)
    /\ Progress.processed (Job.progress (job st'))
       = Progress.processed (Job.progress (job st)) + Result.processed r
    /\ Progress.successful (Job.progress (job st'))
       = Progress.successful (Job.progress (job st)) + Result.successful r
    /\ Progress.duplicates (Job.progress (job st'))
       = Progress.duplicates (Job.progress (job st)) + Result.duplicates r
    /\ Progress.failed (Job.progress (job st'))
       = Progress.failed (Job.progress (job st)).
Proof.
  intros Hlast. rewrite processExcel_unfold.
  destruct (excelStart_state userId io rows st)
    as (Hs0 & Ht0 & Htot0 & Hc0 & Hp0 & Hsu0 & Hf0 & Hd0).
  assert (Hj0 : Progress.processed (Job.progress (job (excelStart userId io rows st)))
                = Progress.processed (Job.progress (job st))
                /\ Progress.successful (Job.progress (job (excelStart userId io rows st)))
                   = Progress.successful (Job.progress (job st))
                /\ Progress.failed (Job.progress (job (excelStart userId io rows st)))
                   = Progress.failed (Job.progress (job st))
                /\ Progress.duplicates (Job.progress (job (excelStart userId io rows st)))
                   = Progress.duplicates (Job.progress (job st))).
  { unfold excelStart, bind, updateProgress, emitProgress, modify, gets, ret,
      updateProgress_doc, updatedProgress.
    destruct io; simpl; destruct (0 <? Z.of_nat (length rows)); repeat split. }
  destruct Hj0 as (Hjp & Hjs & Hjf & Hjd).
  set (st0 := excelStart userId io rows st) in *. clearbody st0.
  destruct (unique_excelLoop order order_perm BATCH_SIZE brandId productId
              userId io (length rows) rows 0%nat st0 eq_refl)
    as (st' & Hrun & (Hst & Hpr & Hsu & Hdu & Hfa) & Hah & Hnil).
  pose proof (excelLoop_keeps_total (H := US) BATCH_SIZE brandId productId
                userId io (length rows) rows 0%nat (totalCodes st0)
                (Z.of_nat (length rows)) st0 eq_refl Htot0) as Hkeep.
  rewrite Hrun in *. simpl in Hkeep. destruct Hkeep as [Ht' Htot'].
  assert (Hempty : codes st' = []).
  { destruct rows as [|row rows'].
    - cbn [excelLoop] in Hrun. injection Hrun as <-. exact Hc0.
    - apply Hnil; [exact Hlast | discriminate]. }
  rewrite Hempty, Hc0 in *. simpl in Hst, Hpr.
  rewrite !union_empty_r_L in Hst.
  rewrite Hs0 in *.
  assert (Hsucc : successfulCount st'
                  = Z.of_nat (size (list_to_set (acceptedCodes rows) ∖ store st))).
  { rewrite <- size_union_fresh, <- Hst. lia. }
  unfold ahead, plusFailed in Hah. injection Hah as Ha1 Ha2 Ha3 Ha4.
  do 2 eexists. split; [reflexivity|]. unfold resultOf. simpl.
  split; [exact Hst|]. split; [lia|]. split; [exact Hsucc|].
  split; [lia|]. split; [lia|]. split; [congruence|].
  split; [exact Htot'|]. repeat split; lia.
Qed.




(** The store never loses a code during a strategy, and the brand is
    left alone. *)
Lemma unique_strategy_grows (fileType : string) (file : ParsedFile)
    (s : gset string) (c : option Z) (st : @State (gset string)) :
  s ⊆ store st -> totalCodes st = c ->
  let st' := (@strategy _ US BATCH_SIZE MAX_ERRORS brandId productId userId io
                fileType file st).2 in
  s ⊆ store st' /\ totalCodes st' = c.
Proof.
  intros Hs Hc.
  apply (frame_strategy (H := US) BATCH_SIZE MAX_ERRORS brandId productId
           userId io (fun st => s ⊆ store st /\ totalCodes st = c)).
  - intros f Hf st0 [Hs0 Hc0]. destruct (Hf st0) as (Hst & Ht & _).
    simpl. rewrite Hst, Ht. split; assumption.
  - intros batch st0 [Hs0 Hc0].
    destruct (unique_processBatch order order_perm brandId productId userId io
                batch st0) as (stats & st1 & Hrun & Hstore & _).
    pose proof (processBatch_cases (H := US) brandId productId userId io
                  batch st0) as Hcases.
    simpl in Hcases. destruct Hcases as [(Htc & _) _].
    rewrite Hrun in *. simpl in *. rewrite Hstore, Htc.
    split; [set_solver | exact Hc0].
  - intros u st0 [Hs0 Hc0]. split; assumption.
  - intros id st0 [Hs0 Hc0]. unfold emitProgress.
    destruct io; split; assumption.
  - split; assumption.
Qed.

(** The spreadsheet strategy against the store with the unique index,
    on any sheet: it returns, and its successes are the growth of the
    store. *)
Lemma unique_processExcel_growth (rows : list Row) (st : @State (gset string)) :
  exists r st',
    @processExcel _ US BATCH_SIZE MAX_ERRORS brandId productId userId io
      (Parsed rows) st = (Return r, st')
    /\ Result.successful r
       = Z.of_nat (size (store st')) - Z.of_nat (size (store st)).
Proof.
  rewrite processExcel_unfold.
  destruct (excelStart_state userId io rows st)
    as (Hs0 & _ & _ & _ & _ & Hsu0 & _).
  set (st0 := excelStart userId io rows st) in *. clearbody st0.
  destruct (unique_excelLoop order order_perm BATCH_SIZE brandId productId
              userId io (length rows) rows 0%nat st0 eq_refl)
    as (st' & Hrun & (_ & _ & Hsu & _) & _).
  rewrite Hrun. do 2 eexists. split; [reflexivity|].
  unfold resultOf. simpl. rewrite <- Hs0. lia.
Qed.

(** X14: against the store with the unique index no run removes a
    code from the store, and the brand's [totalCodes] is written once,
    at the completion: when the run returns it has grown by the
    successes of the result, which are the codes added to the store;
    when the run throws it is left as it was, although the batches
    written before the failure stay in the store. *)
Theorem brand_counter_follows_store (fileType : string) (j : Job.t)
    (file : ParsedFile) (startTime endTime : Z) (s : gset string)
    (brand : option Z) :
  let o := @processBulkUpload _ US BATCH_SIZE MAX_ERRORS brandId productId
             userId io jobId filePath fileType (Some j) file startTime endTime
             s brand in
  s ⊆ out_store o
  /\ match out_result o with
     | Return r =>
         Result.successful r
         = Z.of_nat (size (out_store o)) - Z.of_nat (size s)
         /\ exists t, brand = Some t
              /\ out_totalCodes o = Some (t + Result.successful r)
     | Throw _ => out_totalCodes o = brand
     end.
Proof.
  intros o. destruct brand as [t|].
  - destruct (run_by_strategy (H := US) BATCH_SIZE MAX_ERRORS brandId productId
                userId io jobId filePath fileType j file startTime endTime s t)
      as (Hs1 & Ht1 & _ & Hrun).
    fold o in Hrun.
    set (st1 := started userId io jobId startTime (initState s (Some t) j)) in *.
    clearbody st1.
    assert (Hsub : s ⊆ store st1) by (rewrite Hs1; reflexivity).
    pose proof (unique_strategy_grows fileType file s (Some t) st1 Hsub Ht1)
      as Hgrow.
    cbv zeta in Hgrow.
    assert (Hret : forall res st2,
               @strategy _ US BATCH_SIZE MAX_ERRORS brandId productId userId io
                 fileType file st1 = (Return res, st2) ->
               Result.successful res
               = Z.of_nat (size (store st2)) - Z.of_nat (size s)).
    { intros res st2. unfold strategy.
      destruct (String.eqb fileType "csv").
      - destruct file as [rows|rows m].
        + destruct (unique_processCSV order order_perm BATCH_SIZE MAX_ERRORS
                      brandId productId userId io rows st1)
            as (r & st' & Hex & Hst & _ & Hsu & _).
          rewrite Hex. intros [= <- <-].
          rewrite Hsu, Hst, Hs1. symmetry. apply size_union_fresh.
        + unfold processCSV, bind, modify, throw. simpl.
          destruct (forEach _ rows _) as [[[]|m'] st']; discriminate.
      - destruct (String.eqb fileType "xlsx"); [|discriminate].
        destruct file as [rows|rows m].
        + destruct (unique_processExcel_growth rows st1)
            as (r & st' & Hex & Hsu).
          rewrite Hex. intros [= <- <-]. rewrite Hsu, Hs1. reflexivity.
        + discriminate. }
    destruct (strategy _ _ _ _ _ _ _ _ _) as [[res|m] st2];
      destruct Hrun as (-> & _ & -> & ->); simpl in Hgrow;
      destruct Hgrow as [Hsub2 Ht2]; (split; [exact Hsub2|]).
    + split; [apply Hret; reflexivity|].
      exists t. split; [reflexivity|]. rewrite Ht2. reflexivity.
    + exact Ht2.
  - destruct (processBulkUpload_found (H := US) BATCH_SIZE MAX_ERRORS brandId
                productId userId io jobId filePath fileType j file startTime
                endTime s None) as (Hres & _ & Hstore & Htc & _).
    fold o in Hres, Hstore, Htc. rewrite Hres, Hstore, Htc.
    rewrite runJob_stages. cbv zeta.
    destruct (started_Steady userId io jobId startTime s None j)
      as ((_ & _ & Ht & _) & Hs1 & _).
    rewrite Ht. cbn [fst snd].
    match goal with
    | |- context [aborted _ _ _ _ ?e ?m ?st] =>
        destruct (aborted_state userId io jobId filePath e m st)
          as (_ & _ & -> & ->)
    end.
    rewrite Hs1, Ht. split; reflexivity.
Qed.

End UniqueRuns.




(** A delimited-text file that cannot be read to its end: the first row
    has been written when the parser fails. *)
Lemma brand_counter_follows_store_witness :
  ∅ ⊆ out_store
        (@processBulkUpload _ Scenario.store 1 100 "brand-1" None "user-1" true
           "job-1" "/uploads/codes" "csv" (Some (Scenario.newJob "csv"))
           (ParseError [[("code", Some "ABCDEFGH")]] "Invalid Record Length")
           1000 3000 ∅ (Some 0)).
Proof.
  exact (proj1 (brand_counter_follows_store (fun l => l)
                  (fun l => Permutation_refl l) 1 100 "brand-1" None "user-1"
                  true "job-1" "/uploads/codes" "csv" (Scenario.newJob "csv")
                  (ParseError [[("code", Some "ABCDEFGH")]] "Invalid Record Length")
                  1000 3000 ∅ (Some 0))).
Defined.

(** On that run the code of the first row is in the store and the
    brand's [totalCodes] is still 0. *)
Example failed_run_keeps_written_batches :
  out_result
    (@processBulkUpload _ Scenario.store 1 100 "brand-1" None "user-1" true
       "job-1" "/uploads/codes" "csv" (Some (Scenario.newJob "csv"))
       (ParseError [[("code", Some "ABCDEFGH")]] "Invalid Record Length")
       1000 3000 ∅ (Some 0))
  = Throw "Invalid Record Length"
  /\ out_store
       (@processBulkUpload _ Scenario.store 1 100 "brand-1" None "user-1" true
          "job-1" "/uploads/codes" "csv" (Some (Scenario.newJob "csv"))
          (ParseError [[("code", Some "ABCDEFGH")]] "Invalid Record Length")
          1000 3000 ∅ (Some 0))
     = {["ABCDEFGH"]}
  /\ out_totalCodes
       (@processBulkUpload _ Scenario.store 1 100 "brand-1" None "user-1" true
          "job-1" "/uploads/codes" "csv" (Some (Scenario.newJob "csv"))
          (ParseError [[("code", Some "ABCDEFGH")]] "Invalid Record Length")
          1000 3000 ∅ (Some 0))
     = Some 0.
Proof. vm_compute. repeat split. Qed.

(** ** The stored status during a run *)

Lemma storedStates_app (evs1 evs2 : list Event) : forall db,
  storedStates (evs1 ++ evs2) db
  = storedStates evs1 db ++ storedStates evs2 (replay evs1 db).
Proof.
  induction evs1 as [|ev evs1 IH]; intros db; [reflexivity|].
  simpl. rewrite IH. reflexivity.
Qed.

Lemma save_owner (paths : list Path) (doc db : Job.t) :
  Job.userId (save paths doc db) = Job.userId db
  /\ Job.jobId (save paths doc db) = Job.jobId db.
Proof.
  induction paths as [|p paths [IHu IHj]]; [split; reflexivity|].
  simpl. destruct p; simpl; split; assumption.
Qed.

(** No event changes the owner of the stored record. *)
Lemma storedStates_owner (evs : list Event) : forall db,
  Forall (fun d => Job.userId d = Job.userId db) (storedStates evs db).
Proof.
  induction evs as [|ev evs IH]; intros db; simpl; [constructor|].
  assert (Hu : Job.userId (applyEvent db ev) = Job.userId db).
  { destruct ev as [paths doc| |]; simpl; try reflexivity. apply save_owner. }
  constructor; [exact Hu|]. rewrite <- Hu. apply IH.
Qed.

Section StatusForward.

Context {S : Type} `{CodeStore S}.
Variables (BATCH_SIZE MAX_ERRORS : nat) (brandId : string)
          (productId : option string) (userId : string) (io : bool).
Variables (jobId filePath fileType : string).

Lemma storedStates_closingEvents (j db : Job.t) (s : Status) :
  Job.status db = s ->
  Forall (fun d => Job.status d = s)
    (storedStates (closingEvents userId io jobId filePath j) db).
Proof.
  intros Hs. unfold closingEvents. destruct io; simpl; repeat constructor; exact Hs.
Qed.

Lemma storedStates_flushEvents (j db : Job.t) (s : Status) :
  Job.status db = s ->
  Forall (fun d => Job.status d = s) (storedStates (flushEvents userId io j) db).
Proof.
  intros Hs. unfold flushEvents. destruct io; simpl; repeat constructor; exact Hs.
Qed.

Variables (j0 j1 : Job.t) (brand : option Z).
Hypothesis j1_processing : Job.status j1 = Processing.

Lemma Running_status (st : @State S) :
  Running j0 j1 brand st -> Job.status (replay (events st) j0) = Processing.
Proof.
  intros [(Hr & Hs & _) _]. rewrite Hr.
  unfold sameButProgress in Hs. rewrite <- j1_processing, <- Hs. reflexivity.
Qed.

Lemma Running_strategy (file : ParsedFile) :
  preserves (Running j0 j1 brand)
    (strategy BATCH_SIZE MAX_ERRORS brandId productId userId io fileType file).
Proof.
  apply frame_strategy.
  - intros f Hf st [Hst Hall]. split; [apply (Steady_local _ _ _ f Hf st Hst)|].
    destruct (Hf st) as (_ & _ & _ & He). simpl. rewrite He. exact Hall.
  - intros batch st [Hst Hall].
    split; [apply (Steady_batch brandId productId userId io _ _ _ batch st Hst)|].
    pose proof (Running_status st (conj Hst Hall)) as Hcur.
    pose proof (processBatch_cases brandId productId userId io batch st) as Hc.
    simpl in Hc. destruct Hc as [_ Hc].
    destruct (processBatch brandId productId userId io batch st) as [[stats|m] st'];
      simpl in *.
    + destruct Hc as (_ & _ & _ & ->).
      rewrite storedStates_app. apply Forall_app. split; [exact Hall|].
      apply storedStates_flushEvents, Hcur.
    + destruct Hc as (_ & -> & _). exact Hall.
  - intros u st [Hst Hall]. split; [apply (Steady_update _ _ _ u st Hst)|].
    pose proof (Running_status st (conj Hst Hall)) as Hcur.
    simpl. rewrite storedStates_app. apply Forall_app. split; [exact Hall|].
    repeat constructor. exact Hcur.
  - intros id st [Hst Hall]. split; [apply (Steady_emit userId io _ _ _ id st Hst)|].
    pose proof (Running_status st (conj Hst Hall)) as Hcur.
    unfold emitProgress. destruct io; [|exact Hall].
    simpl. rewrite storedStates_app. apply Forall_app. split; [exact Hall|].
    repeat constructor. exact Hcur.
Qed.

End StatusForward.

Section StatusTheorem.

Context {S : Type} `{CodeStore S}.
Variables (BATCH_SIZE MAX_ERRORS : nat) (brandId : string)
          (productId : option string) (userId : string) (io : bool).
Variables (jobId filePath fileType : string).

(** A strategy adds events to the events so far. *)
Lemma strategy_extends_events (file : ParsedFile) (st : @State S) :
  exists tl,
    events (strategy BATCH_SIZE MAX_ERRORS brandId productId userId io fileType
              file st).2
    = events st ++ tl.
Proof.
  apply (frame_strategy BATCH_SIZE MAX_ERRORS brandId productId userId io
           (fun st' => exists tl, events st' = events st ++ tl)).
  - intros f Hf st0 [tl Htl]. destruct (Hf st0) as (_ & _ & _ & He).
    exists tl. simpl. rewrite He. exact Htl.
  - intros batch st0 [tl Htl].
    pose proof (processBatch_cases brandId productId userId io batch st0) as Hc.
    simpl in Hc. destruct Hc as [_ Hc].
    destruct (processBatch brandId productId userId io batch st0)
      as [[stats|m] st']; simpl in *.
    + destruct Hc as (_ & _ & _ & ->). rewrite Htl, <- app_assoc. eauto.
    + destruct Hc as (_ & -> & _). eauto.
  - intros u st0 [tl Htl]. simpl. rewrite Htl, <- app_assoc. eauto.
  - intros id st0 [tl Htl]. unfold emitProgress. destruct io; [|eauto].
    simpl. rewrite Htl, <- app_assoc. eauto.
  - exists []. rewrite app_nil_r. reflexivity.
Qed.

Lemma started_Running startTime (s : S) (brand : option Z) (j : Job.t) :
  let st1 := started userId io jobId startTime (initState s brand j) in
  Running j (markProcessing startTime j) brand st1 /\ events st1 <> [].
Proof.
  intros st1.
  destruct (started_Steady userId io jobId startTime s brand j) as (Hst & _).
  fold st1 in Hst. split; [split; [exact Hst|] |].
  - unfold st1, started, bind, modify, saveJob, emitProgress, ret.
    destruct io; simpl; repeat constructor.
  - unfold st1, started, bind, modify, saveJob, emitProgress, ret.
    destruct io; simpl; discriminate.
Qed.

Lemma run_core_running (j : Job.t) file startTime endTime (s : S)
    (brand : option Z) :
  let r := runJob BATCH_SIZE MAX_ERRORS brandId productId userId io jobId
             filePath fileType file startTime endTime (initState s brand j) in
  exists st2,
    Running j (markProcessing startTime j) brand st2
    /\ events st2 <> []
    /\ ((exists res,
            r = (Return res, finished userId io jobId filePath endTime res st2))
        \/ (exists m,
              r = (Throw m, aborted userId io jobId filePath endTime m st2))).
Proof.
  intros r. unfold r. rewrite runJob_stages. cbv zeta.
  destruct (started_Running startTime s brand j) as (Hrun & Hne).
  set (st1 := started userId io jobId startTime (initState s brand j)) in *.
  clearbody st1.
  assert (Ht : totalCodes st1 = brand) by apply Hrun.
  rewrite Ht. destruct brand as [t|].
  - pose proof (Running_strategy BATCH_SIZE MAX_ERRORS brandId productId userId
                  io fileType j (markProcessing startTime j) (Some t) eq_refl
                  file st1 Hrun) as Hrun2.
    destruct (strategy_extends_events file st1) as [tl Htl].
    destruct (strategy _ _ _ _ _ _ _ _ _) as [[res|m] st2]; simpl in Hrun2, Htl;
      exists st2; (split; [exact Hrun2|]);
      (split; [rewrite Htl; destruct (events st1); [congruence | discriminate]|]).
    + left. exists res. reflexivity.
    + right. exists m. reflexivity.
  - exists st1. split; [exact Hrun|]. split; [exact Hne|].
    right. eexists. reflexivity.
Qed.


End StatusTheorem.

(** ** The upload action *)

Lemma substring_skip (p s : string) (m : nat) :
  String.substring (String.length p) m (p +:+ s) = String.substring 0 m s.
Proof. induction p as [|c p IH]; [reflexivity | exact IH]. Qed.

Lemma substring_full (s : string) : String.substring 0 (String.length s) s = s.
Proof. induction s as [|c s IH]; simpl; [reflexivity | f_equal; exact IH]. Qed.

Lemma substring_split (s : string) : forall i : nat,
  (i <= String.length s)%nat ->
  s = String.substring 0 i s +:+ String.substring i (String.length s - i) s.
Proof.
  induction s as [|c s IH]; intros [|i] Hi; simpl in *; try lia.
  - reflexivity.
  - rewrite substring_full. reflexivity.
  - change (String c s
            = String c (String.substring 0 i s
                        +:+ String.substring i (String.length s - i) s)).
    f_equal. apply IH. lia.
Qed.

Lemma length_append (p s : string) :
  String.length (p +:+ s) = (String.length p + String.length s)%nat.
Proof.
  induction p as [|c p IH]; [reflexivity|].
  change (S (String.length (p +:+ s)) = S (String.length p + String.length s)).
  f_equal. exact IH.
Qed.

(** [endsWith] holds exactly of the strings that end with the suffix. *)
Lemma endsWith_spec (s suffix : string) :
  endsWith s suffix = true <-> exists p, s = p +:+ suffix.
Proof.
  unfold endsWith. rewrite andb_true_iff, Nat.leb_le, String.eqb_eq. split.
  - intros [Hle Hsub].
    exists (String.substring 0 (String.length s - String.length suffix) s).
    pose proof (substring_split s (String.length s - String.length suffix))
      as Hsplit.
    replace (String.length s - (String.length s - String.length suffix))%nat
      with (String.length suffix) in Hsplit by lia.
    rewrite Hsub in Hsplit. apply Hsplit. lia.
  - intros [p ->]. rewrite length_append. split; [lia|].
    replace (String.length p + String.length suffix - String.length suffix)%nat
      with (String.length p) by lia.
    rewrite substring_skip. apply substring_full.
Qed.

(** X16: [bulkUpload] starts a run only for a request with a file, a
    brand identifier and a brand that exists.  It then answers 202,
    leaves the stored file to the run, and creates a pending job owned
    by the requester, with the counters at 0 and no error; the run it
    schedules is for this job and this file, and its kind of file is
    "csv" when the MIME type is text/csv or the name of the file ends
    with ".csv", in lower case, and "xlsx" in every other case, so that
    the run cannot meet an unsupported kind of file.  Any other request
    is refused: no job is created, nothing is scheduled, and the stored
    file, when there is one, is removed. *)
Theorem bulkUpload_starts_a_run (file : option UploadedFile.t)
    (brandId productId : Cell) (reqUser : string) (brand : Completion (option Z))
    (jobId : string) (createError : option string) :
  let o := Upload.bulkUpload file brandId productId reqUser brand jobId createError in
  (Response.statusCode (Upload.response o) = 202%nat
   <-> exists f b t,
         file = Some f /\ brandId = Some b /\ b <> "" /\ brand = Return (Some t)
         /\ createError = None)
  /\ (forall f b,
        file = Some f -> brandId = Some b ->
        Response.statusCode (Upload.response o) = 202%nat ->
        exists job opts,
          Upload.created o = Some job /\ Upload.scheduled o = Some opts
          /\ Upload.fileRemoved o = false
          /\ Response.data (Upload.response o)
             = Some (Upload.Started.mk jobId Pending)
          /\ job = Job.create jobId reqUser b (UploadedFile.originalname f)
                     (Upload.fileTypeOf f)
          /\ opts = Upload.Options.mk jobId (UploadedFile.path f)
                      (Upload.fileTypeOf f) b
                      (if truthy productId then productId else None) reqUser
          /\ (Upload.fileTypeOf f = "csv"
              <-> UploadedFile.mimetype f = "text/csv"
                  \/ exists p, UploadedFile.originalname f = p +:+ ".csv")
          /\ (Upload.fileTypeOf f <> "csv" -> Upload.fileTypeOf f = "xlsx"))
  /\ (Response.statusCode (Upload.response o) <> 202%nat ->
      Upload.created o = None /\ Upload.scheduled o = None
      /\ Response.success (Upload.response o) = false
      /\ Response.data (Upload.response o) = None
      /\ (Upload.fileRemoved o = true <-> is_Some file)).
Proof.
  assert (Hft : forall f,
             (Upload.fileTypeOf f = "csv"
              <-> UploadedFile.mimetype f = "text/csv"
                  \/ exists p, UploadedFile.originalname f = p +:+ ".csv")
             /\ (Upload.fileTypeOf f <> "csv" -> Upload.fileTypeOf f = "xlsx")).
  { intros f. unfold Upload.fileTypeOf.
    pose proof (endsWith_spec (UploadedFile.originalname f) ".csv") as He.
    destruct (String.eqb (UploadedFile.mimetype f) "text/csv") eqn:Hm; simpl.
    - apply String.eqb_eq in Hm. split; [tauto | congruence].
    - apply String.eqb_neq in Hm.
      destruct (endsWith (UploadedFile.originalname f) ".csv").
      + split; [|congruence]. split; [intros _; right; apply He; reflexivity | auto].
      + split; [|reflexivity]. split; [discriminate|].
        intros [Hmime | Hname]; [contradiction|].
        apply He in Hname. discriminate. }
  unfold Upload.bulkUpload, Upload.refuse.
  destruct file as [f|]; simpl.
  2:{ split; [split; [discriminate | intros (f & b & t & ? & _); discriminate]|].
      split; [intros f b ?; discriminate|].
      intros _. repeat split; try discriminate. intros [x Hx]. discriminate. }
  destruct brandId as [b|]; simpl.
  2:{ split; [split; [discriminate | intros (f' & b & t & _ & ? & _); discriminate]|].
      split; [intros f' b _ ?; discriminate|].
      intros _. repeat split; eauto. }
  destruct (JsString.nonempty b) eqn:Hb; simpl.
  2:{ apply nonempty_false in Hb.
      split; [split; [discriminate
                     | intros (f' & b' & t & _ & [= <-] & Hne & _); congruence]|].
      split; [intros f' b' _ _ ?; discriminate|].
      intros _. repeat split; eauto. }
  assert (Hne : b <> "") by (intros ->; discriminate).
  destruct brand as [[t|]|m]; simpl.
  2:{ split; [split; [discriminate
                     | intros (f' & b' & t & _ & _ & _ & ? & _); discriminate]|].
      split; [intros f' b' _ _ ?; discriminate|].
      intros _. repeat split; eauto. }
  2:{ split; [split; [discriminate
                     | intros (f' & b' & t & _ & _ & _ & ? & _); discriminate]|].
      split; [intros f' b' _ _ ?; discriminate|].
      intros _. repeat split; eauto. }
  destruct createError as [m|]; simpl.
  - split; [split; [discriminate
                   | intros (f' & b' & t' & _ & _ & _ & _ & ?); discriminate]|].
    split; [intros f' b' _ _ ?; discriminate|].
    intros _. repeat split; eauto.
  - split; [split; [intros _; exists f, b, t; auto | reflexivity]|].
    split; [|intros Hn; congruence].
    intros f' b' [= <-] [= <-] _.
    do 2 eexists. repeat split; try apply Hft.
Qed.

Lemma replay_owner (evs : list Event) : forall db,
  Job.userId (replay evs db) = Job.userId db.
Proof.
  induction evs as [|ev evs IH]; intros db; [reflexivity|].
  simpl. rewrite IH. destruct ev as [paths doc| |]; simpl; try reflexivity.
  apply save_owner.
Qed.

Lemma status_read_by_owner (db : Job.t) (reqUser : string) :
  Job.userId db = reqUser ->
  exists view,
    getBulkUploadStatus (Some db) reqUser = Response.mk 200 true None (Some view)
    /\ StatusView.jobId view = Job.jobId db
    /\ StatusView.status view = Job.status db
    /\ StatusView.progress view = Job.progress db
    /\ StatusView.errors view = take 50 (Job.errors db).
Proof.
  intros Hu. unfold getBulkUploadStatus.
  apply String.eqb_eq in Hu. rewrite Hu. simpl.
  eexists. split; [reflexivity|]. repeat split.
Qed.

Section Follow.

Context {S : Type} `{CodeStore S}.
Variables (BATCH_SIZE MAX_ERRORS : nat) (io : bool).


End Follow.


(** ** The synchronous upload *)

Lemma legacy_candidate (row : Row) :
  truthy (prop row "Authentication Code") = false ->
  Legacy.candidate row = candidate row.
Proof.
  intros Hac. unfold Legacy.candidate, candidate, Legacy.codeAliases, codeAliases.
  cbn [fold_right].
  replace (js_or (prop row "Authentication Code") (firstValue row))
    with (firstValue row) by (unfold js_or; rewrite Hac; reflexivity).
  reflexivity.
Qed.

Lemma legacy_extract_cases (row : Row) :
  match Legacy.candidate row with
  | None => Legacy.extract row = None
  | Some c =>
      (c = "" \/ JsString.trim c = "") /\ Legacy.extract row = None
      \/ (c <> "" /\ JsString.trim c <> ""
          /\ Legacy.extract row = Some (JsString.trim c))
  end.
Proof.
  unfold Legacy.extract. destruct (Legacy.candidate row) as [c|]; [|reflexivity].
  destruct (JsString.nonempty c) eqn:Hc; simpl.
  - destruct (JsString.nonempty (JsString.trim c)) eqn:Ht.
    + right. repeat split; intros Heq; rewrite Heq in *; discriminate.
    + left. apply nonempty_false in Ht. auto.
  - left. apply nonempty_false in Hc. auto.
Qed.

(** X18: [uploadCodes] takes its code from the same column as
    [extractCode], but for the column "Authentication Code", which it
    does not know, and it is laxer: for a row without a filled
    "Authentication Code" cell, every code that [extractCode] returns
    is the code [uploadCodes] takes; a code that [uploadCodes] takes
    is returned by [extractCode] when its length is between 3 and 100
    and makes it throw the length error otherwise; and a row that
    [uploadCodes] reports as empty is either empty for [extractCode]
    too or a cell of white space, for which [extractCode] throws the
    length error. *)
Theorem legacy_extraction_is_laxer (row : Row) :
  truthy (prop row "Authentication Code") = false ->
  (forall t, extractCode row = Return (Some t) -> Legacy.extract row = Some t)
  /\ (forall t, Legacy.extract row = Some t ->
        t <> "" /\ JsString.trim t = t
        /\ (validLength t -> extractCode row = Return (Some t))
        /\ (~ validLength t -> extractCode row = Throw invalidLengthMessage))
  /\ (Legacy.extract row = None ->
      extractCode row = Return None
      \/ (extractCode row = Throw invalidLengthMessage
          /\ exists c, candidate row = Some c /\ c <> "" /\ JsString.trim c = "")).
Proof.
  intros Hac. pose proof (legacy_candidate row Hac) as Hcand.
  pose proof (legacy_extract_cases row) as Hcases. rewrite Hcand in Hcases.
  split; [|split].
  - intros t Hex. apply extractCode_code in Hex as (c & Hc & Hne & -> & Hvalid).
    rewrite Hc in Hcases.
    destruct Hcases as [[[Hempty | Hblank] _] | (_ & _ & Hl)]; [tauto | | exact Hl].
    rewrite Hblank in Hvalid. unfold validLength, JsString.length in Hvalid.
    simpl in Hvalid. lia.
  - intros t Hl. pose proof (extractCode_cases row) as Hec.
    destruct (candidate row) as [c|]; [|congruence].
    destruct Hcases as [[_ Hnone] | (Hne & Htrim & Hsome)]; [congruence|].
    rewrite Hsome in Hl. injection Hl as <-.
    split; [exact Htrim|]. split; [apply trim_idempotent|].
    assert (Hnonempty : JsString.nonempty c = true)
      by (destruct c; [congruence | reflexivity]).
    rewrite Hnonempty in Hec.
    split.
    + intros Hvalid. apply lengthTest_false in Hvalid. rewrite Hvalid in Hec.
      exact Hec.
    + intros Hinvalid.
      destruct (_ || _) eqn:Hlen; [exact Hec|].
      apply lengthTest_false in Hlen. contradiction.
  - intros Hl. destruct (candidate row) as [c|] eqn:Hc.
    + destruct Hcases as [[[Hempty | Hblank] _] | (_ & _ & Hsome)]; [| |congruence].
      * left. apply extractCode_null. right. congruence.
      * destruct (decide (c = "")) as [->|Hne].
        -- left. apply extractCode_null. right. exact Hc.
        -- right. split.
           ++ apply extractCode_throw. split; [reflexivity|].
              exists c. repeat split; try assumption.
              rewrite Hblank. unfold validLength, JsString.length. simpl. lia.
           ++ exists c. auto.
    + left. apply extractCode_null. left. exact Hc.
Qed.

(** A row with a two-character code: taken by [uploadCodes], refused by
    [extractCode]. *)
Lemma legacy_extraction_is_laxer_witness :
  Legacy.extract [("code", Some "XY")] = Some "XY"
  /\ extractCode [("code", Some "XY")] = Throw invalidLengthMessage.
Proof.
  destruct (legacy_extraction_is_laxer [("code", Some "XY")] eq_refl)
    as (_ & Htaken & _).
  destruct (Htaken "XY" eq_refl) as (_ & _ & _ & Hthrow).
  split; [reflexivity|]. apply Hthrow.
  unfold validLength, JsString.length. simpl. lia.
Defined.

Lemma readRows_spec (rows : list Row) : forall n codes errors,
  (Legacy.readRows rows n codes errors).1 = codes ++ omap Legacy.extract rows
  /\ (length (Legacy.readRows rows n codes errors).2
      + length (omap Legacy.extract rows)
      = length errors + length rows)%nat.
Proof.
  induction rows as [|row rows IH]; intros n codes errors;
    cbn [Legacy.readRows omap list_omap].
  - rewrite app_nil_r. cbn [fst snd length]. split; [reflexivity | lia].
  - destruct (Legacy.extract row) as [code|].
    + destruct (IH (n + 1) (codes ++ [code]) errors) as [-> Hlen].
      rewrite <- app_assoc. split; [reflexivity|]. cbn [length]. lia.
    + destruct (IH (n + 1) codes
                  (errors ++ [Legacy.RowError.mk (n + 1) emptyCodeMessage]))
        as [-> Hlen].
      split; [reflexivity|]. rewrite length_app in Hlen.
      cbn [length] in Hlen |- *. lia.
Qed.

Lemma filter_elem_ext {A : Type} (P Q : A -> Prop)
    `{forall x, Decision (P x)} `{forall x, Decision (Q x)} (l : list A) :
  (forall x, x ∈ l -> (P x <-> Q x)) -> filter P l = filter Q l.
Proof.
  induction l as [|a l IH]; intros Hext; [reflexivity|].
  rewrite !filter_cons.
  assert (Ha : P a <-> Q a) by (apply Hext; set_solver).
  rewrite IH by (intros x Hx; apply Hext; set_solver).
  destruct (decide (P a)), (decide (Q a)); tauto || reflexivity.
Qed.

Lemma size_list_to_set_le (l : list string) :
  (size (list_to_set l : gset string) <= length l)%nat.
Proof.
  induction l as [|a l IH].
  { rewrite list_to_set_nil, size_empty. simpl. lia. }
  rewrite list_to_set_cons. cbn [length].
  pose proof (size_union_alt ({[a]} : gset string) (list_to_set l)) as Hs.
  rewrite size_singleton in Hs.
  pose proof (subseteq_size (list_to_set l ∖ {[a]}) (list_to_set l : gset string))
    as Hsub.
  assert (size (list_to_set l ∖ {[a]} : gset string) <= size (list_to_set l : gset string))%nat
    by (apply Hsub; set_solver).
  lia.
Qed.

Lemma size_list_to_set_dup (l : list string) :
  ~ NoDup l -> (size (list_to_set l : gset string) < length l)%nat.
Proof.
  induction l as [|a l IH]; intros Hdup; [exfalso; apply Hdup; constructor|].
  rewrite list_to_set_cons. cbn [length].
  destruct (decide (a ∈ l)) as [Hin|Hnot].
  - assert (Heq : {[a]} ∪ list_to_set l = (list_to_set l : gset string))
      by set_solver.
    rewrite Heq. pose proof (size_list_to_set_le l). lia.
  - assert (Hl : ~ NoDup l).
    { intros Hnd. apply Hdup. constructor; assumption. }
    specialize (IH Hl).
    rewrite size_union by set_solver. rewrite size_singleton. lia.
Qed.

Section LegacyUnique.

Variable order : list (nat * CodeDoc.t) -> list (nat * CodeDoc.t).
Hypothesis order_perm : forall l, order l ≡ₚ l.

Local Abbreviation US := (UniqueStore.instance order).

(** An unordered insert resolves exactly when every document is new to
    the store and no two documents have the same code. *)
Lemma insertDocs_outcome (s : gset string) (docs : list CodeDoc.t) :
  let r := UniqueStore.insertDocs order s docs in
  let codes := map CodeDoc.code docs in
  r.2 = s ∪ list_to_set codes
  /\ ((size (s ∪ list_to_set codes) = size s + length docs)%nat ->
      r.1 = Resolved docs)
  /\ ((size (s ∪ list_to_set codes) <> size s + length docs)%nat ->
      exists e, r.1 = Rejected e
                /\ BulkError.message e = UniqueStore.duplicateMessage).
Proof.
  unfold UniqueStore.insertDocs.
  destruct (fold_left UniqueStore.insertOne (order (imap pair docs)) (s, []))
    as [s' errs] eqn:Hfold.
  apply (insertOne_fold order order_perm) in Hfold as (Hs & Hlen & _).
  assert (Hcodes : list_to_set
                     (map (fun d : nat * CodeDoc.t => CodeDoc.code d.2)
                        (order (imap pair docs)))
                   =@{gset string} list_to_set (map CodeDoc.code docs)).
  { rewrite <- (codes_of_indexed docs pair) by reflexivity.
    apply list_to_set_perm_L. apply Permutation_map, order_perm. }
  rewrite Hcodes in Hs.
  rewrite (Permutation_length (order_perm _)), length_imap in Hlen.
  simpl in Hlen. rewrite Hs in Hlen.
  destruct errs as [|e errs]; simpl in *.
  - split; [exact Hs|]. split; [reflexivity | lia].
  - split; [exact Hs|]. split; [lia|].
    intros _. eexists. split; reflexivity.
Qed.

(** The insertion of the codes read from the file, against the store
    with the unique index. *)
Lemma storeCodes_cases (b : string) (codes : list string)
    (errors : list Legacy.RowError.t) (s : gset string) :
  let o := @Legacy.storeCodes _ US b codes errors s in
  let newCodes := filter (fun c => c ∉ s) codes in
  Legacy.fileRemoved o = true
  /\ Legacy.storeAfter o = s ∪ list_to_set codes
  /\ (codes = [] ->
      Legacy.reply o
      = Legacy.Reply.mk 400 false "No valid codes found in CSV" None None
          (Some errors)
      /\ Legacy.brandIncrement o = None)
  /\ (codes <> [] -> NoDup newCodes ->
      Legacy.Reply.statusCode (Legacy.reply o) = 201%nat
      /\ Legacy.Reply.data (Legacy.reply o)
         = Some (Legacy.Counts.mk (Z.of_nat (length codes))
                   (Z.of_nat (length newCodes))
                   (Z.of_nat (length codes) - Z.of_nat (length newCodes))
                   (Z.of_nat (length errors)))
      /\ Legacy.brandIncrement o
         = match newCodes with
           | [] => None
           | _ => Some (Z.of_nat (length newCodes))
           end)
  /\ (~ NoDup newCodes ->
      Legacy.reply o = Legacy.refuse 500 UniqueStore.duplicateMessage
      /\ Legacy.brandIncrement o = None).
Proof.
  cbv zeta. unfold Legacy.storeCodes.
  destruct codes as [|c0 codes0].
  { cbn. split; [reflexivity|]. split; [set_solver|].
    split; [intros _; split; reflexivity|].
    split; [congruence|].
    intros Hdup. exfalso. apply Hdup. constructor. }
  cbv iota.
  set (codes := c0 :: codes0) in *.
  assert (Hcne : codes <> []) by discriminate. clearbody codes. clear c0 codes0.
  cbn [find US UniqueStore.instance UniqueStore.findCodes].
  set (X := list_to_set (elements (s ∩ list_to_set codes)) : gset string).
  assert (HX : forall c, c ∈ codes -> (c ∈ X <-> c ∈ s)).
  { intros c Hc. unfold X. rewrite list_to_set_elements_L. set_solver. }
  assert (Hnew : filter (fun c => c ∉ X) codes = filter (fun c => c ∉ s) codes).
  { apply filter_elem_ext. intros c Hc. rewrite (HX c Hc). reflexivity. }
  assert (Hold : (length (filter (fun c => c ∈ X) codes)
                  + length (filter (fun c => c ∉ s) codes) = length codes)%nat).
  { rewrite <- Hnew. apply (filter_split_length (fun c => c ∈ X)). }
  rewrite Hnew. clearbody X. clear HX Hnew.
  assert (Hmem : forall c : string,
             c ∈ filter (fun c => c ∉ s) codes <-> (c ∉ s) /\ (c ∈ codes)).
  { intros c. rewrite list_elem_of_filter. reflexivity. }
  set (new := filter (fun c => c ∉ s) codes) in *.
  assert (Hunion : s ∪ list_to_set new = s ∪ (list_to_set codes : gset string)).
  { apply set_eq. intros c. rewrite !elem_of_union, !elem_of_list_to_set, Hmem.
    destruct (decide (c ∈ s)); tauto. }
  clearbody new.
  destruct new as [|n0 new0].
  { cbn. split; [reflexivity|].
    split; [rewrite <- Hunion; set_solver|].
    split; [contradiction|].
    split; [|intros Hdup; exfalso; apply Hdup; constructor].
    intros _ _. split; [reflexivity|]. split; [|reflexivity].
    simpl in Hold. do 2 f_equal; lia. }
  set (new := n0 :: new0) in *. clearbody new. clear n0 new0.
  cbn [insertMany US UniqueStore.instance].
  destruct (insertDocs_outcome s (map (fun c => CodeDoc.mk c b None) new))
    as (Hst & Hres & Hrej).
  assert (Hcodes : map CodeDoc.code (map (fun c => CodeDoc.mk c b None) new) = new).
  { clear. induction new as [|c new IH]; simpl; congruence. }
  cbv zeta in Hst, Hres, Hrej. rewrite Hcodes, length_map in *.
  assert (Hdisj : size (s ∪ list_to_set new)
                  = (size s + size (list_to_set new : gset string))%nat).
  { apply size_union. intros c Hs Hn.
    apply elem_of_list_to_set, Hmem in Hn. tauto. }
  destruct (UniqueStore.insertDocs order s (map (fun c => CodeDoc.mk c b None) new))
    as [outcome s'].
  cbn [fst snd] in Hst, Hres, Hrej. subst s'.
  destruct (decide (NoDup new)) as [Hnd|Hdup].
  - rewrite Hres by (rewrite Hdisj, size_list_to_set by exact Hnd; reflexivity).
    cbn. rewrite length_map.
    split; [reflexivity|]. split; [exact Hunion|].
    split; [contradiction|].
    split; [|contradiction].
    intros _ _. split; [reflexivity|].
    split; [do 2 f_equal; lia|].
    destruct new; [simpl in *|]; reflexivity.
  - destruct Hrej as (e & He & Hmsg).
    { pose proof (size_list_to_set_dup new Hdup). lia. }
    rewrite He. cbn. rewrite Hmsg.
    split; [reflexivity|]. split; [exact Hunion|].
    split; [contradiction|].
    split; [contradiction|].
    intros _. split; reflexivity.
Qed.

(** X19: the synchronous upload against the store with the unique
    index, for a request with a file and a brand that exists, when no
    code that is new to the store occurs twice in the file: the
    stored file is removed; the store holds afterwards what it held
    and every code taken from the rows; the response is 201 with
    total = the codes taken, inserted = the codes new to the store,
    duplicates = total - inserted and errors = rows - total; the
    brand's [totalCodes] is raised by the number inserted, and not
    touched when nothing is inserted.  A file without any code is
    answered 400 with one error for each row. *)
Theorem legacy_upload_accounting (f : UploadedFile.t) (b : string) (t : Z)
    (rows : list Row) (s : gset string) :
  b <> "" ->
  let o := @Legacy.uploadCodes _ US (Some f) (Some b) (Return (Some t))
             (Parsed rows) s in
  let codes := omap Legacy.extract rows in
  let newCodes := filter (fun c => c ∉ s) codes in
  NoDup newCodes ->
  Legacy.fileRemoved o = true
  /\ Legacy.storeAfter o = s ∪ list_to_set codes
  /\ (codes = [] ->
      Legacy.Reply.statusCode (Legacy.reply o) = 400%nat
      /\ Legacy.Reply.message (Legacy.reply o) = "No valid codes found in CSV"
      /\ (length <$> Legacy.Reply.errors (Legacy.reply o)) = Some (length rows)
      /\ Legacy.brandIncrement o = None)
  /\ (codes <> [] ->
      Legacy.Reply.statusCode (Legacy.reply o) = 201%nat
      /\ Legacy.Reply.data (Legacy.reply o)
         = Some (Legacy.Counts.mk (Z.of_nat (length codes))
                   (Z.of_nat (length newCodes))
                   (Z.of_nat (length codes) - Z.of_nat (length newCodes))
                   (Z.of_nat (length rows) - Z.of_nat (length codes)))
      /\ Legacy.brandIncrement o
         = match newCodes with
           | [] => None
           | _ => Some (Z.of_nat (length newCodes))
           end).
Proof.
  intros Hb o codes newCodes Hnd.
  assert (Hnb : JsString.nonempty b = true) by (destruct b; [congruence | reflexivity]).
  unfold o, Legacy.uploadCodes. rewrite Hnb. cbn [negb].
  destruct (readRows_spec rows 0 [] []) as [Hcodes Herrs].
  destruct (Legacy.readRows rows 0 [] []) as [codes' errors].
  cbn [fst snd app length] in Hcodes, Herrs. subst codes'.
  destruct (storeCodes_cases b (omap Legacy.extract rows) errors s)
    as (Hfile & Hstore & Hnone & Hsome & _).
  fold codes newCodes in Hfile, Hstore, Hnone, Hsome, Herrs |- *.
  split; [exact Hfile|]. split; [exact Hstore|]. split.
  - intros Hempty. destruct (Hnone Hempty) as [-> ->].
    rewrite Hempty in Herrs. simpl in Herrs |- *.
    repeat split. f_equal. lia.
  - intros Hne. destruct (Hsome Hne Hnd) as (-> & -> & ->).
    split; [reflexivity|]. split; [|reflexivity].
    do 2 f_equal. lia.
Qed.

(** X20: in the synchronous upload a code that is new to the store
    and occurs twice in the file makes the bulk write fail: the
    response is 500 with the message of the duplicate key error, and
    the brand's [totalCodes] is not raised, although the unordered
    insert has added every new code of the file to the store. *)
Theorem legacy_upload_repeated_code (f : UploadedFile.t) (b : string) (t : Z)
    (rows : list Row) (s : gset string) :
  b <> "" ->
  let o := @Legacy.uploadCodes _ US (Some f) (Some b) (Return (Some t))
             (Parsed rows) s in
  let codes := omap Legacy.extract rows in
  ~ NoDup (filter (fun c => c ∉ s) codes) ->
  Legacy.reply o = Legacy.refuse 500 UniqueStore.duplicateMessage
  /\ Legacy.brandIncrement o = None
  /\ Legacy.storeAfter o = s ∪ list_to_set codes
  /\ s ⊂ Legacy.storeAfter o
  /\ Legacy.fileRemoved o = true.
Proof.
  intros Hb o codes Hdup.
  assert (Hnb : JsString.nonempty b = true) by (destruct b; [congruence | reflexivity]).
  unfold o, Legacy.uploadCodes. rewrite Hnb. cbn [negb].
  destruct (readRows_spec rows 0 [] []) as [Hcodes _].
  destruct (Legacy.readRows rows 0 [] []) as [codes' errors].
  cbn [fst snd app] in Hcodes. subst codes'.
  destruct (storeCodes_cases b (omap Legacy.extract rows) errors s)
    as (Hfile & Hstore & _ & _ & Hrep).
  fold codes in Hfile, Hstore, Hrep |- *.
  destruct (Hrep Hdup) as [-> ->].
  split; [reflexivity|]. split; [reflexivity|]. split; [exact Hstore|].
  split; [|exact Hfile].
  rewrite Hstore.
  assert (Hex : exists c, c ∈ codes /\ c ∉ s).
  { destruct (filter (fun c => c ∉ s) codes) as [|c l] eqn:Hf.
    - exfalso. apply Hdup. constructor.
    - exists c. assert (Hc : c ∈ filter (fun c => c ∉ s) codes)
        by (rewrite Hf; set_solver).
      apply list_elem_of_filter in Hc. tauto. }
  destruct Hex as (c & Hc & Hs).
  apply (elem_of_list_to_set (C := gset string)) in Hc.
  set_solver.
Qed.

End LegacyUnique.

(** Three rows, one of them blank, against an empty store. *)
Lemma legacy_upload_accounting_witness :
  Legacy.Reply.data
    (Legacy.reply
       (@Legacy.uploadCodes _ Scenario.store
          (Some (UploadedFile.mk "/uploads/c.csv" "text/csv" "c.csv"))
          (Some "brand-1") (Return (Some 0))
          (Scenario.file ["AB"; " "; "ABCDEFGH"]) ∅))
  = Some (Legacy.Counts.mk 2 2 0 1).
Proof.
  destruct (legacy_upload_accounting (fun l => l) (fun l => Permutation_refl l)
              (UploadedFile.mk "/uploads/c.csv" "text/csv" "c.csv") "brand-1" 0
              (map (fun c => [("code", Some c)]) ["AB"; " "; "ABCDEFGH"]) ∅)
    as (_ & _ & _ & Hsome).
  - discriminate.
  - vm_compute. repeat constructor; set_solver.
  - destruct Hsome as (_ & Hdata & _); [discriminate | exact Hdata].
Defined.

(** The same code on two rows, against an empty store. *)
Lemma legacy_upload_repeated_code_witness :
  Legacy.reply
    (@Legacy.uploadCodes _ Scenario.store
       (Some (UploadedFile.mk "/uploads/c.csv" "text/csv" "c.csv"))
       (Some "brand-1") (Return (Some 0))
       (Scenario.file ["ABCDEFGH"; "ABCDEFGH"]) ∅)
  = Legacy.refuse 500 UniqueStore.duplicateMessage.
Proof.
  refine (proj1 (legacy_upload_repeated_code (fun l => l)
                   (fun l => Permutation_refl l)
                   (UploadedFile.mk "/uploads/c.csv" "text/csv" "c.csv")
                   "brand-1" 0
                   (map (fun c => [("code", Some c)]) ["ABCDEFGH"; "ABCDEFGH"])
                   ∅ _ _)).
  - discriminate.
  - vm_compute. intros Hnd. apply NoDup_cons in Hnd as [Hnot _].
    apply Hnot. left.
Defined.

Section LegacyAnyStore.

Context {S : Type} `{CodeStore S}.

(** X21: whatever the store does, the synchronous upload removes the
    stored file on every path that has one, the refusals and the
    failures included; it answers with success exactly when it
    answers 201; it raises the brand's [totalCodes] only together
    with a 201 response, by the number it reports as inserted; and a
    request that is refused before the codes are looked up (no file,
    no brand identifier, a brand that is missing or cannot be looked
    up, a file that cannot be parsed) leaves the store as it was. *)
Theorem legacy_upload_cleans_up (file : option UploadedFile.t) (brandId : Cell)
    (brand : Completion (option Z)) (parsed : ParsedFile) (s : S) :
  let o := Legacy.uploadCodes file brandId brand parsed s in
  (Legacy.fileRemoved o = true <-> is_Some file)
  /\ (Legacy.Reply.success (Legacy.reply o) = true
      <-> Legacy.Reply.statusCode (Legacy.reply o) = 201%nat)
  /\ (forall n, Legacy.brandIncrement o = Some n ->
        Legacy.Reply.statusCode (Legacy.reply o) = 201%nat
        /\ exists c, Legacy.Reply.data (Legacy.reply o) = Some c
                     /\ Legacy.Counts.inserted c = n)
  /\ (file = None \/ truthy brandId = false
      \/ (forall t, brand <> Return (Some t))
      \/ (exists rows m, parsed = ParseError rows m) ->
      Legacy.storeAfter o = s /\ Legacy.Reply.success (Legacy.reply o) = false).
Proof.
  unfold Legacy.uploadCodes, Legacy.storeCodes, Legacy.refuse, Legacy.addedReply.
  destruct file as [f|]; cbn.
  2:{ split; [split; [discriminate | intros [x Hx]; discriminate]|].
      split; [split; discriminate|]. split; [discriminate | auto]. }
  destruct brandId as [b|]; cbn.
  2:{ split; [split; eauto|]. split; [split; discriminate|].
      split; [discriminate | auto]. }
  destruct (JsString.nonempty b) eqn:Hb; cbn.
  2:{ split; [split; eauto|]. split; [split; discriminate|].
      split; [discriminate | auto]. }
  destruct brand as [[t|]|m]; cbn.
  2:{ split; [split; eauto|]. split; [split; discriminate|].
      split; [discriminate | auto]. }
  2:{ split; [split; eauto|]. split; [split; discriminate|].
      split; [discriminate | auto]. }
  destruct parsed as [rows|rows m]; cbn.
  2:{ split; [split; eauto|]. split; [split; discriminate|].
      split; [discriminate | auto]. }
  assert (Hlate : forall P : Prop,
             Some f = None \/ true = false
             \/ (forall t', Return (Some t) <> Return (Some t'))
             \/ (exists rows' m, Parsed rows = ParseError rows' m) -> P).
  { intros P [Hf | [Hn | [Ht | (rows' & m & Hp)]]];
      [discriminate | discriminate | | discriminate].
    exfalso. apply (Ht t). reflexivity. }
  destruct (Legacy.readRows rows 0 [] []) as [codes errors].
  destruct codes as [|c0 codes0]; cbn.
  { split; [split; eauto|]. split; [split; discriminate|].
    split; [discriminate | apply Hlate]. }
  destruct (find s (c0 :: codes0)) as [existing|m]; cbn.
  2:{ split; [split; eauto|]. split; [split; discriminate|].
      split; [discriminate | apply Hlate]. }
  match goal with
  | |- context [match ?l with [] => _ | _ :: _ => _ end] =>
      destruct l as [|n0 new0]
  end; cbn.
  { split; [split; eauto|]. split; [split; reflexivity|].
    split; [discriminate | apply Hlate]. }
  destruct (insertMany s _) as [[result|e] s']; cbn.
  - split; [split; eauto|]. split; [split; reflexivity|].
    split; [|apply Hlate]. intros n [= <-]. split; [reflexivity|]. eauto.
  - split; [split; eauto|]. split; [split; discriminate|].
    split; [discriminate | apply Hlate].
Qed.

End LegacyAnyStore.

(** ** Progress messages *)

Lemma silent_app (evs1 evs2 : list Event) :
  silent (evs1 ++ evs2) = silent evs1 ++ silent evs2.
Proof. apply filter_app. Qed.

Lemma silent_silent (evs : list Event) :
  Forall (fun ev => isEmit ev = false) (silent evs).
Proof.
  apply Forall_forall. intros ev Hev.
  apply list_elem_of_filter in Hev. apply Hev.
Qed.

Section Simulation.

Context {S : Type} `{CodeStore S}.

Lemma Sim_ret {A} (a : A) : Sim (@ret S A a) (ret a).
Proof. intros st. reflexivity. Qed.

Lemma Sim_throw {A} (m : string) : Sim (@throw S A m) (throw m).
Proof. intros st. reflexivity. Qed.

Lemma Sim_lift {A} (c : Completion A) : Sim (@lift S A c) (lift c).
Proof. intros st. reflexivity. Qed.

Lemma Sim_gets {A} (f : @State S -> A) :
  (forall st, f (quiet st) = f st) -> Sim (gets f) (gets f).
Proof. intros Hf st. unfold gets. rewrite Hf. reflexivity. Qed.

Lemma Sim_modify (f g : @State S -> @State S) :
  (forall st, g (quiet st) = quiet (f st)) -> Sim (modify f) (modify g).
Proof. intros Hf st. unfold modify. rewrite Hf. reflexivity. Qed.

Lemma Sim_bind {A B} (m1 m0 : @M S A) (k1 k0 : A -> @M S B) :
  Sim m1 m0 -> (forall a, Sim (k1 a) (k0 a)) -> Sim (bind m1 k1) (bind m0 k0).
Proof.
  intros Hm Hk st. unfold bind. rewrite Hm.
  destruct (m1 st) as [[a|e] st']; simpl; [apply Hk | reflexivity].
Qed.

Lemma Sim_tryCatch {A} (m1 m0 : @M S A) (h1 h0 : string -> @M S A) :
  Sim m1 m0 -> (forall e, Sim (h1 e) (h0 e)) ->
  Sim (tryCatch m1 h1) (tryCatch m0 h0).
Proof.
  intros Hm Hh st. unfold tryCatch. rewrite Hm.
  destruct (m1 st) as [[a|e] st']; simpl; [reflexivity | apply Hh].
Qed.

Lemma Sim_forEach {A} (f1 f0 : A -> @M S unit) (l : list A) :
  (forall a, Sim (f1 a) (f0 a)) -> Sim (forEach f1 l) (forEach f0 l).
Proof.
  intros Hf. induction l as [|a l IH]; simpl.
  - apply Sim_ret.
  - apply Sim_bind; [apply Hf | intros _; exact IH].
Qed.

Variables (BATCH_SIZE MAX_ERRORS : nat) (brandId : string)
          (productId : option string) (userId : string).

Lemma Sim_emitProgress (id : string) :
  Sim (@emitProgress S userId true id) (emitProgress userId false id).
Proof.
  intros st. unfold emitProgress, modify, ret, quiet. simpl.
  rewrite silent_app. simpl. rewrite app_nil_r. reflexivity.
Qed.

Lemma Sim_updateProgress (u : Progress.update) :
  Sim (@updateProgress S u) (updateProgress u).
Proof.
  intros st. unfold updateProgress, modify, record, quiet. simpl.
  rewrite silent_app. reflexivity.
Qed.

Lemma Sim_saveJob (paths : list Path) : Sim (@saveJob S paths) (saveJob paths).
Proof.
  intros st. unfold saveJob, modify, record, quiet. simpl.
  rewrite silent_app. reflexivity.
Qed.

Lemma Sim_cleanupFile (filePath : string) :
  Sim (@cleanupFile S filePath) (cleanupFile filePath).
Proof.
  intros st. unfold cleanupFile, modify, record, quiet. simpl.
  rewrite silent_app. reflexivity.
Qed.

Lemma Sim_addError (dirty : list Path) (e : ErrorEntry.t) :
  Sim (@addError S dirty e) (addError dirty e).
Proof.
  intros st. unfold addError. simpl.
  destruct (addError_doc (job st) e) as [j [|]]; [|reflexivity].
  unfold record, quiet. simpl. rewrite silent_app. reflexivity.
Qed.

Lemma Sim_insertNewCodes (newCodes : list CodeDoc.t) :
  Sim (@insertNewCodes S _ newCodes) (insertNewCodes newCodes).
Proof.
  intros st. unfold insertNewCodes.
  destruct newCodes as [|d newCodes]; [reflexivity|]. simpl.
  destruct (insertMany (store st) (d :: newCodes)) as [[result|e] s'];
    [reflexivity|].
  destruct (BulkError.code e) as [c|]; [|reflexivity].
  destruct (BulkError.writeErrors e) as [wes|]; [|reflexivity].
  destruct (c =? duplicateKey); reflexivity.
Qed.

Ltac sim_with tac :=
  repeat first
    [ tac | apply Sim_ret | apply Sim_throw | apply Sim_lift
    | apply Sim_emitProgress | apply Sim_updateProgress | apply Sim_saveJob
    | apply Sim_cleanupFile | apply Sim_addError | apply Sim_insertNewCodes
    | (apply Sim_gets; intros ?; reflexivity)
    | (apply Sim_modify; intros ?; reflexivity)
    | (apply Sim_bind; [|intros ?])
    | (apply Sim_tryCatch; [|intros ?]) ].

Ltac sim := sim_with fail.

Lemma Sim_processBatch (batch : list CodeItem.t) :
  Sim (processBatch brandId productId userId true batch)
      (processBatch brandId productId userId false batch).
Proof.
  unfold processBatch. sim.
  - intros st. reflexivity.
  - destruct (filterDuplicates _ _ _ _ _ _ _) as [[newCodes dups] errs]. sim.
Qed.

Lemma Sim_intake (row : Row) (n : Z) : Sim (@intake S row n) (intake row n).
Proof.
  unfold intake, pushCode, pushError, incFailed. sim.
  destruct a as [c|]; [destruct (JsString.nonempty c)|]; sim.
Qed.

Lemma Sim_flush :
  Sim (flush brandId productId userId true) (flush brandId productId userId false).
Proof. unfold flush. sim_with ltac:(apply Sim_processBatch). Qed.

Lemma Sim_onData (row : Row) :
  Sim (onData BATCH_SIZE brandId productId userId true row)
      (onData BATCH_SIZE brandId productId userId false row).
Proof.
  unfold onData, pushError, incFailed. sim_with ltac:(apply Sim_intake).
  destruct a0; [apply Sim_flush | sim].
Qed.

Lemma Sim_onEnd :
  Sim (onEnd MAX_ERRORS brandId productId userId true)
      (onEnd MAX_ERRORS brandId productId userId false).
Proof.
  unfold onEnd, currentResult. sim.
  destruct (0 <? length a)%nat; sim_with ltac:(apply Sim_processBatch).
Qed.

Lemma Sim_processCSV (file : ParsedFile) :
  Sim (processCSV BATCH_SIZE MAX_ERRORS brandId productId userId true file)
      (processCSV BATCH_SIZE MAX_ERRORS brandId productId userId false file).
Proof.
  unfold processCSV. sim.
  destruct file as [rows|rows m];
    sim_with ltac:(first [ apply Sim_onEnd
                         | apply Sim_forEach; intros row; apply Sim_onData ]).
Qed.

Lemma Sim_excelLoop (n : nat) (rows : list Row) : forall i,
  Sim (excelLoop BATCH_SIZE brandId productId userId true n i rows)
      (excelLoop BATCH_SIZE brandId productId userId false n i rows).
Proof.
  induction rows as [|row rows IH]; intros i; simpl; [apply Sim_ret|].
  apply Sim_bind; [|intros _; apply IH].
  unfold excelRow, pushError, incFailed. sim_with ltac:(apply Sim_intake).
  destruct (_ || _); [apply Sim_flush | sim].
Qed.

Lemma Sim_processExcel (file : ParsedFile) :
  Sim (processExcel BATCH_SIZE MAX_ERRORS brandId productId userId true file)
      (processExcel BATCH_SIZE MAX_ERRORS brandId productId userId false file).
Proof.
  unfold processExcel, currentResult. sim.
  destruct file as [rows|rows m]; sim_with ltac:(apply Sim_excelLoop).
Qed.

Lemma Sim_runJob (jobId filePath fileType : string) (file : ParsedFile)
    (startTime endTime : Z) :
  Sim (runJob BATCH_SIZE MAX_ERRORS brandId productId userId true jobId filePath
         fileType file startTime endTime)
      (runJob BATCH_SIZE MAX_ERRORS brandId productId userId false jobId filePath
         fileType file startTime endTime).
Proof.
  unfold runJob, incTotalCodes. sim.
  destruct a2 as [t|]; sim.
  destruct (String.eqb fileType "csv"); [apply Sim_processCSV|].
  destruct (String.eqb fileType "xlsx"); [apply Sim_processExcel | sim].
Qed.

End Simulation.

(** X22: the Socket.io server only observes a run.  With and without it
    a run gives the same result, the same job document, the same store
    and the same brand counter, and its saves and the removal of the file
    are the same, in the same order; without it no message is sent. *)
Theorem progress_messages_only_observe {S : Type} `{CodeStore S}
    (BATCH_SIZE MAX_ERRORS : nat) (brandId : string) (productId : option string)
    (userId jobId filePath fileType : string) (found : option Job.t)
    (file : ParsedFile) (startTime endTime : Z) (s : S) (brand : option Z) :
  let withIo := processBulkUpload BATCH_SIZE MAX_ERRORS brandId productId userId
                  true jobId filePath fileType found file startTime endTime s brand in
  let without := processBulkUpload BATCH_SIZE MAX_ERRORS brandId productId userId
                   false jobId filePath fileType found file startTime endTime s brand in
  out_result without = out_result withIo
  /\ out_job without = out_job withIo
  /\ out_store without = out_store withIo
  /\ out_totalCodes without = out_totalCodes withIo
  /\ out_events without = silent (out_events withIo)
  /\ Forall (fun ev => isEmit ev = false) (out_events without).
Proof.
  intros withIo without.
  assert (Hev : out_events without = silent (out_events withIo)
                -> Forall (fun ev => isEmit ev = false) (out_events without))
    by (intros ->; apply silent_silent).
  revert Hev. unfold withIo, without, processBulkUpload.
  destruct found as [j|]; [|intros Hev; repeat split; apply Hev; reflexivity].
  pose proof (Sim_runJob BATCH_SIZE MAX_ERRORS brandId productId userId jobId
                filePath fileType file startTime endTime (initState s brand j))
    as Hsim.
  change (quiet (initState s brand j)) with (initState s brand j) in Hsim.
  rewrite Hsim.
  destruct (runJob _ _ _ _ _ true _ _ _ _ _ _ _) as [r st]. simpl.
  intros Hev. repeat split. apply Hev. reflexivity.
Qed.

(** ** What a progress message reports *)

Lemma reportsStored_app (userId : string) (evs1 evs2 : list Event) : forall db,
  reportsStored userId db (evs1 ++ evs2)
  <-> reportsStored userId db evs1
      /\ reportsStored userId (replay evs1 db) evs2.
Proof.
  induction evs1 as [|ev evs1 IH]; intros db; simpl; [tauto|].
  rewrite IH. unfold replay. simpl. tauto.
Qed.

Lemma reportsStored_at (userId : string) (pre post : list Event)
    (uid : string) (payload : Payload.t) (db : Job.t) :
  reportsStored userId db (pre ++ EvEmit uid payload :: post) ->
  uid = userId /\ exists id, payload = payloadOf id (replay pre db).
Proof.
  intros Hr. apply reportsStored_app in Hr as [_ Hr]. simpl in Hr. apply Hr.
Qed.

Section Reports.

Context {S : Type} `{CodeStore S}.
Variables (BATCH_SIZE MAX_ERRORS : nat) (brandId : string)
          (productId : option string) (userId : string) (io : bool).
Variables (jobId filePath fileType : string).
Variables (j0 j1 : Job.t) (brand : option Z).

Lemma Reporting_local (f : @State S -> @State S) :
  closureOnly f -> preserves (Reporting userId j0 j1 brand) (modify f).
Proof.
  intros Hf st [Hs Hr]. split; [apply Steady_local; assumption|].
  simpl. destruct (Hf st) as (_ & _ & _ & ->). exact Hr.
Qed.

Lemma Reporting_update (u : Progress.update) :
  preserves (Reporting userId j0 j1 brand) (@updateProgress S u).
Proof.
  intros st [Hs Hr]. split; [apply Steady_update; exact Hs|].
  simpl. apply reportsStored_app. split; [exact Hr|]. simpl. auto.
Qed.

Lemma Reporting_emit (id : string) :
  preserves (Reporting userId j0 j1 brand) (@emitProgress S userId io id).
Proof.
  intros st [Hs Hr]. split; [apply Steady_emit; exact Hs|].
  unfold emitProgress. destruct io; [|exact Hr].
  simpl. apply reportsStored_app. split; [exact Hr|]. simpl.
  destruct Hs as (-> & _). split; [|exact Logic.I].
  split; [reflexivity|]. exists id. reflexivity.
Qed.

Lemma Reporting_batch (batch : list CodeItem.t) :
  preserves (Reporting userId j0 j1 brand)
    (processBatch brandId productId userId io batch).
Proof.
  intros st [Hs Hr].
  split; [apply (Steady_batch brandId productId userId io); exact Hs|].
  pose proof (processBatch_cases brandId productId userId io batch st) as Hc.
  simpl in Hc. destruct Hc as [_ Hc].
  destruct (processBatch brandId productId userId io batch st) as [[stats|m] st'];
    simpl in *.
  - destruct Hc as (_ & _ & Hjob & Hev). rewrite Hev.
    apply reportsStored_app. split; [exact Hr|].
    destruct Hs as (-> & _). unfold flushEvents.
    destruct io; cbn [reportsStored applyEvent]; [|auto].
    rewrite (save_counters _ _ _ Hjob).
    split; [exact Logic.I|]. split; [|exact Logic.I].
    split; [reflexivity|]. exists (Job.jobId (job st')). reflexivity.
  - destruct Hc as (_ & -> & _). exact Hr.
Qed.

Lemma Reporting_strategy (file : ParsedFile) :
  preserves (Reporting userId j0 j1 brand)
    (strategy BATCH_SIZE MAX_ERRORS brandId productId userId io fileType file).
Proof.
  apply frame_strategy.
  - apply Reporting_local.
  - apply Reporting_batch.
  - apply Reporting_update.
  - apply Reporting_emit.
Qed.

Lemma reportsStored_closingEvents (j : Job.t) :
  reportsStored userId j (closingEvents userId io jobId filePath j).
Proof.
  unfold closingEvents. destruct io; simpl; [|auto].
  split; [|auto]. split; [reflexivity|]. exists jobId. reflexivity.
Qed.

End Reports.

Section ReportedRun.

Context {S : Type} `{CodeStore S}.
Variables (BATCH_SIZE MAX_ERRORS : nat) (brandId : string)
          (productId : option string) (userId : string) (io : bool).
Variables (jobId filePath fileType : string).

Lemma started_Reporting startTime (s : S) (brand : option Z) (j : Job.t) :
  Reporting userId j (markProcessing startTime j) brand
    (started userId io jobId startTime (initState s brand j)).
Proof.
  split; [apply started_Steady|].
  unfold started, bind, modify, saveJob, emitProgress, ret.
  destruct j as [? ? ? ? ? ? ? ? [? ? ? ?] ?].
  destruct io; simpl; [|auto].
  split; [exact Logic.I|]. split; [|exact Logic.I].
  split; [reflexivity|]. exists jobId. reflexivity.
Qed.

(** The saves that end a run and the events after them. *)
Lemma reportsStored_closing (j : Job.t) (evs saves : list Event) (jl : Job.t) :
  reportsStored userId j evs ->
  Forall (fun ev => isEmit ev = false) saves ->
  replay ((evs ++ saves) ++ closingEvents userId io jobId filePath jl) j = jl ->
  reportsStored userId j
    ((evs ++ saves) ++ closingEvents userId io jobId filePath jl).
Proof.
  intros Hr Hsaves Hrep.
  rewrite replay_app, replay_closingEvents in Hrep.
  assert (Hs : forall db, reportsStored userId db saves).
  { clear Hrep. induction Hsaves as [|ev saves Hev _ IH]; intros db; simpl;
      [exact Logic.I|].
    split; [|apply IH].
    destruct ev; [exact Logic.I | discriminate | exact Logic.I]. }
  apply reportsStored_app. split.
  - apply reportsStored_app. split; [exact Hr | apply Hs].
  - rewrite Hrep. apply reportsStored_closingEvents.
Qed.

Lemma run_reports (j : Job.t) file startTime endTime (s : S) (brand : option Z) :
  reportsStored userId j
    (events (runJob BATCH_SIZE MAX_ERRORS brandId productId userId io jobId
               filePath fileType file startTime endTime (initState s brand j)).2).
Proof.
  assert (Hend : exists st2,
    Reporting userId j (markProcessing startTime j) brand st2
    /\ ((exists res,
            (runJob BATCH_SIZE MAX_ERRORS brandId productId userId io jobId
               filePath fileType file startTime endTime (initState s brand j)).2
            = finished userId io jobId filePath endTime res st2)
        \/ (exists m,
            (runJob BATCH_SIZE MAX_ERRORS brandId productId userId io jobId
               filePath fileType file startTime endTime (initState s brand j)).2
            = aborted userId io jobId filePath endTime m st2))).
  { rewrite runJob_stages. cbv zeta.
    pose proof (started_Reporting startTime s brand j) as Hst.
    set (st1 := started userId io jobId startTime (initState s brand j)) in *.
    clearbody st1.
    destruct (totalCodes st1) as [t|].
    - pose proof (Reporting_strategy BATCH_SIZE MAX_ERRORS brandId productId
                    userId io fileType j (markProcessing startTime j) brand
                    file st1 Hst) as Hst2.
      destruct (strategy _ _ _ _ _ _ _ _ _) as [[res|m] st2]; simpl in Hst2;
        exists st2; (split; [exact Hst2|]); [left | right]; eauto.
    - exists st1. split; [exact Hst|]. right. eauto. }
  destruct Hend as (st2 & [Hs Hr] & [[res ->] | [m ->]]).
  - destruct (finished_outcome userId io jobId filePath endTime res st2 j _ _ Hs)
      as (_ & Hrep & _).
    destruct (finished_state userId io jobId filePath endTime res st2)
      as (Hj & He & _).
    rewrite He in Hrep |- *. rewrite Hj in Hrep.
    apply reportsStored_closing; [exact Hr | repeat constructor | exact Hrep].
  - destruct (aborted_outcome userId io jobId filePath endTime m st2 j _ _ Hs)
      as (_ & Hrep & _).
    destruct (aborted_state userId io jobId filePath endTime m st2)
      as (Hj & He & _).
    rewrite He in Hrep |- *. rewrite Hj in Hrep.
    apply reportsStored_closing; [exact Hr | | exact Hrep].
    destruct (addError_doc _ _).2; repeat constructor.
Qed.

End ReportedRun.


